(** * Agent orchestration front end: storage services and workflow runner

    A shallow embedding of
    - the in-memory storage services (agentsService, simulationsService):
      list, get, create, update and delete, on arrays of values and on
      arrays of references to shared objects,
    - the per-kind output store of the simulations page (agentFullOutputs),
    - the context aggregator of the backend, which is not among the
      sources and is modelled from its specification,
    - the workflow runner (updateStepOutput, updateStepStatus, executeStep,
      runWorkflow) together with the streaming helper streamAgentExecution,
      and what the runner page shows of its state (Start button, output
      panel, progress list),
    - the address the agent service opens its WebSocket on,
    - the workflow widget of the simulations page (click handler, Start
      button, agent cards) and startSimulation,
    and the properties of the orchestration specification, and further
    properties of the code, checked on them. *)

From stdpp Require Import gmap strings list fin_maps sorting pretty.

Open Scope string_scope.
Open Scope list_scope.
Set Warnings "-register-all".

(** ** JSON-like values

    The payloads typed [any] in the source.  A number literal is kept as
    mantissa and decimal exponent ([0.7] is [JNum 7 (-1)]); an object
    literal keeps its keys in source order. *)

Inductive JsVal : Type :=
| JNull
| JBool (b : bool)
| JNum (mantissa exponent : Z)
| JStr (s : string)
| JArr (items : list JsVal)
| JObj (fields : list (string * JsVal)).

(** All values that occur inside a value, the value itself included. *)
Fixpoint subvalues (v : JsVal) : list JsVal :=
  v :: match v with
       | JArr items => flat_map subvalues items
       | JObj fields => flat_map (fun kv => subvalues (snd kv)) fields
       | _ => []
       end.

(** A settled promise: fulfilled with a value, rejected with an [Error]
    of the given message that the code throws itself, or rejected with
    the TypeError the engine throws when a property of [null] is read. *)
Inductive Promise (A : Type) : Type :=
| Resolved (value : A)
| Rejected (message : string)
| RejectedTypeError.
Arguments Resolved {A} value.
Arguments Rejected {A} message.
Arguments RejectedTypeError {A}.

(** ** Storage services (services/storage)

    [agentsStorage] and [simulationsStorage] are module-level arrays typed
    [any[]].  An object is a finite map from field names to values; a
    missing value ([undefined]) is [None].  [simulationsStorage] only ever
    receives the object literal of [simulationsService.create], so its
    elements are objects.  [agentsStorage] also receives the parsed body
    of the response of the backend, unchecked: its elements are any
    value such a body can be. *)

Abbreviation JsObject := (gmap string JsVal).

(** The callback [a => a.id === id] on an object. *)
Definition id_is (id : string) (a : JsObject) : bool :=
  match a !! "id" with
  | Some (JStr s) => String.eqb s id
  | _ => false
  end.

(** [Array.prototype.find]: the first element satisfying the callback,
    [undefined] when there is none. *)
Fixpoint find {A : Type} (p : A -> bool) (l : list A) : option A :=
  match l with
  | [] => None
  | x :: l' => if p x then Some x else find p l'
  end.

(** [Array.prototype.findIndex]; [None] stands for the result [-1]. *)
Fixpoint findIndex {A : Type} (p : A -> bool) (l : list A) : option nat :=
  match l with
  | [] => None
  | x :: l' => if p x then Some 0 else option_map S (findIndex p l')
  end.

(** [simulationsService.get]:
    [Promise.resolve(simulationsStorage.find(s => s.id === id))]. *)
Definition simulationsService_get (id : string)
    (simulationsStorage : list JsObject) : Promise (option JsObject) :=
  Resolved (find (id_is id) simulationsStorage).

(** An element of [agentsStorage]: [null], a boolean, a number, a string,
    an array or an object.  [O] is what an object is kept as: its fields,
    or a reference to it. *)
Inductive Stored (O : Type) : Type :=
| SNull
| SBool (b : bool)
| SNum (mantissa exponent : Z)
| SStr (s : string)
| SArr (items : list JsVal)
| SObj (object : O).
Arguments SNull {O}.
Arguments SBool {O} b.
Arguments SNum {O} mantissa exponent.
Arguments SStr {O} s.
Arguments SArr {O} items.
Arguments SObj {O} object.

#[global] Instance Stored_inhabited {O : Type} : Inhabited (Stored O) :=
  populate SNull.

Definition stored_map {A B : Type} (f : A -> B) (a : Stored A) : Stored B :=
  match a with
  | SNull => SNull
  | SBool b => SBool b
  | SNum mantissa exponent => SNum mantissa exponent
  | SStr s => SStr s
  | SArr items => SArr items
  | SObj object => SObj (f object)
  end.

(** What a callback does: it returns, or it throws a TypeError. *)
Inductive Try (A : Type) : Type :=
| Ok (value : A)
| Throws.
Arguments Ok {A} value.
Arguments Throws {A}.

(** The callback [a => a.id === id] on an element of [agentsStorage]:
    reading [id] of [null] throws a TypeError; a boolean, a number, a
    string and an array have no [id], and [undefined === id] is false.
    [fields] gives the fields of an object. *)
Definition id_matches {O : Type} (fields : O -> JsObject) (id : string)
    (a : Stored O) : Try bool :=
  match a with
  | SNull => Throws
  | SObj object => Ok (id_is id (fields object))
  | _ => Ok false
  end.

(** [Array.prototype.find] with a callback that may throw: the exception
    of the callback ends the search. *)
Fixpoint try_find {A : Type} (p : A -> Try bool) (l : list A)
  : Try (option A) :=
  match l with
  | [] => Ok None
  | x :: l' =>
      match p x with
      | Throws => Throws
      | Ok true => Ok (Some x)
      | Ok false => try_find p l'
      end
  end.

(** [Array.prototype.findIndex] with a callback that may throw. *)
Fixpoint try_findIndex {A : Type} (p : A -> Try bool) (l : list A)
  : Try (option nat) :=
  match l with
  | [] => Ok None
  | x :: l' =>
      match p x with
      | Throws => Throws
      | Ok true => Ok (Some 0)
      | Ok false =>
          match try_findIndex p l' with
          | Ok index => Ok (S <$> index)
          | Throws => Throws
          end
      end
  end.

(** The fields of an object kept by value. *)
Definition by_value (a : JsObject) : JsObject := a.

(** [agentsService.get]:
    [Promise.resolve(agentsStorage.find(a => a.id === id))] in an [async]
    function, which turns an exception into a rejection. *)
Definition agentsService_get (id : string)
    (agentsStorage : list (Stored JsObject))
  : Promise (option (Stored JsObject)) :=
  match try_find (id_matches by_value id) agentsStorage with
  | Ok found => Resolved found
  | Throws => RejectedTypeError
  end.

(** [agentsService.delete]: returns the array after the call and the
    promise the caller gets.  The element at [index] has passed the test
    of the callback, so it is an object (see [try_findIndex_object]);
    the last case is never reached. *)
Definition agentsService_delete (id : string)
    (agentsStorage : list (Stored JsObject))
  : list (Stored JsObject) * Promise unit :=
  match try_findIndex (id_matches by_value id) agentsStorage with
  | Throws => (agentsStorage, RejectedTypeError)
  | Ok None => (agentsStorage, Rejected "Agent not found")
  | Ok (Some index) =>
      match agentsStorage !! index with
      | Some (SObj a) =>
          (<[index := SObj (<["status" := JStr "ARCHIVED"]> a)]> agentsStorage,
           Resolved tt)
      | _ => (agentsStorage, RejectedTypeError)
      end
  end.

(** ** Per-kind outputs of the simulations page

    [agentFullOutputs : Record<string, string>] and the updater passed to
    [setAgentFullOutputs]: [prev => ({ ...prev, [kind]: output })]. *)

Definition agentFullOutputs_init : gmap string string :=
  <["consulting" := ""]> (<["simulation" := ""]> (<["debate" := ""]>
    (<["aggregator" := ""]> (<["mapbox" := ""]> ∅)))).

Definition setAgentFullOutputs (kind output : string)
    (prev : gmap string string) : gmap string string :=
  <[kind := output]> prev.

(** ** Workflow runner: state (pages/WorkflowRunner) *)

Inductive WorkflowStep : Type := consulting | simulation | debate | aggregator.

(** The string a step prints as in a template literal. *)
Definition step_name (step : WorkflowStep) : string :=
  match step with
  | consulting => "consulting"
  | simulation => "simulation"
  | debate => "debate"
  | aggregator => "aggregator"
  end.

(** Position of a step in the declared order. *)
Definition step_rank (step : WorkflowStep) : nat :=
  match step with
  | consulting => 0
  | simulation => 1
  | debate => 2
  | aggregator => 3
  end.

Module Status.
(** [type StepStatus = 'pending' | 'running' | 'completed' | 'error'] *)
Inductive t : Type := pending | running | completed | error.

(** The states the specification calls terminal. *)
Definition terminal (a : t) : bool :=
  match a with
  | completed | error => true
  | _ => false
  end.
End Status.

Abbreviation StepStatus := Status.t.

(** [interface StepState]; the optional fields are [None] when unset. *)
Record StepState : Type := mkStepState {
  status : StepStatus;
  output : string;
  result : option JsVal;
  error : option string
}.

(** [Record<WorkflowStep, StepState>] *)
Record Steps : Type := mkSteps {
  of_consulting : StepState;
  of_simulation : StepState;
  of_debate : StepState;
  of_aggregator : StepState
}.

(** [steps[step]] *)
Definition step_state (steps : Steps) (step : WorkflowStep) : StepState :=
  match step with
  | consulting => of_consulting steps
  | simulation => of_simulation steps
  | debate => of_debate steps
  | aggregator => of_aggregator steps
  end.

(** [{ ...prev, [step]: s }] *)
Definition with_step (prev : Steps) (step : WorkflowStep) (s : StepState)
  : Steps :=
  match step with
  | consulting => mkSteps s (of_simulation prev) (of_debate prev) (of_aggregator prev)
  | simulation => mkSteps (of_consulting prev) s (of_debate prev) (of_aggregator prev)
  | debate => mkSteps (of_consulting prev) (of_simulation prev) s (of_aggregator prev)
  | aggregator => mkSteps (of_consulting prev) (of_simulation prev) (of_debate prev) s
  end.

(** The updater that [updateStepOutput] hands to [setSteps]. *)
Definition updateStepOutput (step : WorkflowStep) (token : string)
    (prev : Steps) : Steps :=
  with_step prev step
    {| status := status (step_state prev step);
       output := output (step_state prev step) +:+ token;
       result := result (step_state prev step);
       error := error (step_state prev step) |}.

(** The updater that [updateStepStatus] hands to [setSteps]: [result] and
    [error] are overwritten by the arguments, also when these are absent. *)
Definition updateStepStatus (step : WorkflowStep) (new_status : StepStatus)
    (new_result : option JsVal) (new_error : option string) (prev : Steps)
  : Steps :=
  with_step prev step
    {| status := new_status;
       output := output (step_state prev step);
       result := new_result;
       error := new_error |}.

(** The component state the runner writes.  The metric and debate panels
    ([simulationMetrics], [debateMessages], [simulationViewMode]) are fed
    by regular-expression parsing of the streamed text into cells of their
    own; they never touch [steps] and are left out. *)
Record State : Type := mkState {
  currentStep : option WorkflowStep;
  steps : Steps;
  isRunning : bool;
  finalReport : string
}.

Definition pending_step : StepState :=
  {| status := Status.pending; output := ""; result := None; error := None |}.

(** The state of a freshly mounted component. *)
Definition initialState : State :=
  {| currentStep := None;
     steps := mkSteps pending_step pending_step pending_step pending_step;
     isRunning := false;
     finalReport := "" |}.

(** ** Effects

    A run is the sequence of effects it performs, in order.  State setters
    are queued updaters; [reduce] is what each does to the state.
    [OpenSocket clientId request]: [streamAgentExecution(clientId,
    request, ...)] has created its socket; [Send request]: the socket has
    opened and the frame [{ type: 'execute', ...request }] is sent on it;
    [CloseSocket]: [ws.close()]. *)
Inductive Action : Type :=
| SetCurrentStep (step : option WorkflowStep)
| UpdateStepStatus (step : WorkflowStep) (new_status : StepStatus)
    (new_result : option JsVal) (new_error : option string)
| UpdateStepOutput (step : WorkflowStep) (token : string)
| SetFinalReport (text : string)
| SetIsRunning (b : bool)
| OpenSocket (clientId : string) (request : JsVal)
| Send (request : JsVal)
| CloseSocket
| Alert (message : string).

Definition reduce (st : State) (a : Action) : State :=
  match a with
  | SetCurrentStep step =>
      mkState step (steps st) (isRunning st) (finalReport st)
  | UpdateStepStatus step new_status new_result new_error =>
      mkState (currentStep st)
        (updateStepStatus step new_status new_result new_error (steps st))
        (isRunning st) (finalReport st)
  | UpdateStepOutput step token =>
      mkState (currentStep st) (updateStepOutput step token (steps st))
        (isRunning st) (finalReport st)
  | SetFinalReport text =>
      mkState (currentStep st) (steps st) (isRunning st) text
  | SetIsRunning b =>
      mkState (currentStep st) (steps st) b (finalReport st)
  | OpenSocket _ _ | Send _ | CloseSocket | Alert _ => st
  end.

(** The state after a sequence of effects. *)
Definition exec (st : State) (effects : list Action) : State :=
  foldl reduce st effects.

Definition status_of (st : State) (step : WorkflowStep) : StepStatus :=
  status (step_state (steps st) step).

(** ** The streaming connection (services/agents, streamAgentExecution)

    What one WebSocket delivers to [ws.onmessage] / [ws.onerror].  The
    messages before the last one: ['start'] (logged only), ['token'], and
    anything else (a type without a case in the [switch], or data that
    does not parse: nothing happens).  The token of a ['token'] message is
    kept as the string that [+] makes of [data.token]: the two places that
    use it, [fullOutput += token] and [prev[step].output + token], append
    it to a string. *)
Inductive Message : Type :=
| MsgStart (agent_id : string)
| MsgToken (token : string)
| MsgOther.

(** How the connection ends.  After ['complete'] and ['error'] the handler
    calls [ws.close()], so nothing is delivered afterwards; an error event
    of the socket is the last event a browser delivers before closing it.
    A closing message hands [data.result] or [data.error] to the callback
    as parsed: [None] is [undefined], the value of a field the message
    does not have; an error that is present is a string, as the type of
    [onError] says.  [Silent]: the connection stalls or is closed by the
    peer without a closing message; no [onclose] handler is installed, so
    neither [onComplete] nor [onError] is ever called. *)
Inductive Closing : Type :=
| MsgComplete (result : option JsVal)
| MsgError (error : option string)
| SocketError
| Silent.

(** What a socket delivers after it is created.  [opens] tells whether
    the open event is delivered (a connection that is refused delivers
    none and ends with an error event). *)
Record Session : Type := mkSession {
  opens : bool;
  messages : list Message;
  closing : Closing
}.

Definition silent_session : Session := mkSession false [] Silent.

(** What [new WebSocket(url)] does for one call of [createWebSocket]: it
    throws (the address does not parse or is not allowed), or it returns
    a socket, which then delivers a session.  The exception is kept as
    the text a template literal prints for it. *)
Inductive Connection : Type :=
| NoSocket (exception : string)
| Socket (session : Session).

Definition silent_connection : Connection := Socket silent_session.

(** ** Asynchronous computations

    An [async] body run against the connections it will be given, one per
    [streamAgentExecution] call in the order of the calls (a call beyond
    the end of the list gets a socket that never opens and stays silent).
    It performs effects and either returns, throws, or stays suspended on
    an [await] whose promise never settles.  A thrown value is kept as the
    text a template literal prints for it. *)
Inductive Completion (A : Type) : Type :=
| Returned (value : A)
| Thrown (error : string)
| Suspended.
Arguments Returned {A} value.
Arguments Thrown {A} error.
Arguments Suspended {A}.

Record Outcome (A : Type) : Type := mkOutcome {
  effects : list Action;
  completion : Completion A;
  unread : list Connection
}.
Arguments mkOutcome {A} effects completion unread.
Arguments effects {A} o.
Arguments completion {A} o.
Arguments unread {A} o.

Definition Async (A : Type) : Type := list Connection -> Outcome A.

Definition async_ret {A : Type} (a : A) : Async A :=
  fun env => mkOutcome [] (Returned a) env.

Definition async_bind {A B : Type} (k : A -> Async B) (m : Async A)
  : Async B :=
  fun env =>
    let o := m env in
    match completion o with
    | Returned a =>
        let o' := k a (unread o) in
        mkOutcome (effects o ++ effects o') (completion o') (unread o')
    | Thrown e => mkOutcome (effects o) (Thrown e) (unread o)
    | Suspended => mkOutcome (effects o) Suspended (unread o)
    end.

#[global] Instance Async_MRet : MRet Async := @async_ret.
#[global] Instance Async_MBind : MBind Async := @async_bind.

(** One effect. *)
Definition perform (a : Action) : Async unit :=
  fun env => mkOutcome [a] (Returned tt) env.

(** [try { m } catch (error) { handler error }] *)
Definition try_catch {A : Type} (m : Async A) (handler : string -> Async A)
  : Async A :=
  fun env =>
    let o := m env in
    match completion o with
    | Thrown e =>
        let o' := handler e (unread o) in
        mkOutcome (effects o ++ effects o') (completion o') (unread o')
    | _ => o
    end.

(** [try { m } finally { fin }], for a [fin] that completes normally. *)
Definition try_finally {A : Type} (m : Async A) (fin : Async unit)
  : Async A :=
  fun env =>
    let o := m env in
    match completion o with
    | Suspended => o
    | c =>
        let o' := fin (unread o) in
        mkOutcome (effects o ++ effects o') c (unread o')
    end.

(** [for (const x of l) { body x }] *)
Fixpoint for_of {A : Type} (l : list A) (body : A -> Async unit)
  : Async unit :=
  match l with
  | [] => mret tt
  | x :: l' => body x ;; for_of l' body
  end.

(** [`${error}`] for the value a promise is rejected with by [onError]:
    a string prints as itself, [undefined] as "undefined". *)
Definition template (error : option string) : string :=
  default "undefined" error.

(** ** streamAgentExecution (services/agents)

    [streamAgentExecution(clientId, request, onToken, onComplete, onError)]
    creates the socket and installs the handlers: [ws.onopen] sends the
    request, [ws.onmessage] and [ws.onerror] call the three callbacks.  A
    callback is given by the effects it performs; [onToken] also threads
    the variable of its closure that it assigns, and [onComplete] and
    [onError] tell how they settle the promise of the caller.  When
    [new WebSocket] throws, the call throws before any handler is
    installed: the result is [inl] of the exception. *)
Section Streaming.
Context {S A : Type}.
Variable onToken : S -> string -> S * list Action.
Variable onComplete : option JsVal -> list Action * Completion A.
Variable onError : option string -> list Action * Completion A.

(** [ws.onmessage] over the messages before the last one, in delivery
    order: only ['token'] reaches a callback. *)
Fixpoint onmessage (closure : S) (msgs : list Message) : S * list Action :=
  match msgs with
  | [] => (closure, [])
  | MsgToken token :: msgs' =>
      let '(closure', acts) := onToken closure token in
      let '(final, acts') := onmessage closure' msgs' in
      (final, acts ++ acts')
  | _ :: msgs' => onmessage closure msgs'
  end.

(** [ws.onopen]: [ws.send(JSON.stringify({ type: 'execute', ...request }))]. *)
Definition onopen (request : JsVal) (session : Session) : list Action :=
  if opens session then [Send request] else [].

Definition streamAgentExecution (clientId : string) (request : JsVal)
    (closure : S) (connection : Connection)
  : string + list Action * Completion A :=
  match connection with
  | NoSocket exception => inl exception
  | Socket session =>
      let '(_, streamed) := onmessage closure (messages session) in
      inr
        match closing session with
        | MsgComplete result =>
            let '(acts, c) := onComplete result in
            (OpenSocket clientId request :: onopen request session
               ++ streamed ++ acts ++ [CloseSocket], c)
        | MsgError error =>
            let '(acts, c) := onError error in
            (OpenSocket clientId request :: onopen request session
               ++ streamed ++ acts ++ [CloseSocket], c)
        | SocketError =>
            let '(acts, c) := onError (Some "WebSocket error") in
            (OpenSocket clientId request :: onopen request session
               ++ streamed ++ acts, c)
        | Silent =>
            (OpenSocket clientId request :: onopen request session
               ++ streamed, Suspended)
        end
  end.
End Streaming.

(** ** executeStep *)

(** The [onToken] callback: the new value of the local [fullOutput] and
    the effects of one token. *)
Definition onToken (step : WorkflowStep) (fullOutput token : string)
  : string * list Action :=
  let fullOutput' := fullOutput +:+ token in
  (fullOutput',
   UpdateStepOutput step token ::
   match step with
   | aggregator => [SetFinalReport fullOutput']
   | _ => []
   end).

(** The [onComplete] callback: [updateStepStatus(step, 'completed',
    result); resolve(result)], with the result as received. *)
Definition onComplete (step : WorkflowStep) (result : option JsVal)
  : list Action * Completion (option JsVal) :=
  ([UpdateStepStatus step Status.completed result None], Returned result).

(** The [onError] callback: [updateStepStatus(step, 'error', undefined,
    error); reject(error)], with the error as received. *)
Definition onError (step : WorkflowStep) (error : option string)
  : list Action * Completion (option JsVal) :=
  ([UpdateStepStatus step Status.error None error], Thrown (template error)).

(** [await executeStep(step, request)].  The executor of the promise
    selects the step, sets it running and calls [streamAgentExecution];
    an exception of that call leaves the executor and rejects the
    promise, after the two updates and before any callback exists. *)
Definition executeStep (clientId : string) (step : WorkflowStep)
    (request : JsVal) : Async (option JsVal) :=
  fun env =>
    match streamAgentExecution (onToken step) (onComplete step) (onError step)
            (clientId +:+ "-" +:+ step_name step) request ""
            (hd silent_connection env) with
    | inl exception =>
        mkOutcome
          [SetCurrentStep (Some step);
           UpdateStepStatus step Status.running None None]
          (Thrown exception) (tl env)
    | inr (acts, c) =>
        mkOutcome
          ([SetCurrentStep (Some step);
            UpdateStepStatus step Status.running None None] ++ acts)
          c (tl env)
    end.

(** ** runWorkflow *)

(** The values the closure of [runWorkflow] reads: the form fields and the
    component's [clientId]. *)
Record Inputs : Type := mkInputs {
  clientId : string;
  politicianName : string;
  policyGoal : string;
  city : string;
  policyDocument : string;
  simulationPerspective : list string
}.

(** [!s] for a string: only the empty string is falsy. *)
Definition falsy (s : string) : bool :=
  match s with
  | EmptyString => true
  | String _ _ => false
  end.

(** [config: { temperature: 0.7, streaming: true }] *)
Definition streaming_config : JsVal :=
  JObj [("temperature", JNum 7 (-1)); ("streaming", JBool true)].

Definition consultingRequest (inp : Inputs) : JsVal :=
  JObj
    [("agent_type", JStr "CONSULTING");
     ("description",
      JStr ("Determine goals and create strategic framework for "
            +:+ politicianName inp +:+ "'s " +:+ policyGoal inp
            +:+ " initiative in " +:+ city inp));
     ("custom_input",
      JObj [("politician_info",
             JObj [("name", JStr (politicianName inp));
                   ("city", JStr (city inp))]);
            ("initial_request", JStr (policyGoal inp))]);
     ("config", streaming_config);
     ("stream", JBool true)].

Definition simulationRequest (inp : Inputs) (perspective : string) : JsVal :=
  JObj
    [("agent_type", JStr "SIMULATION");
     ("description",
      JStr ("Simulate " +:+ perspective +:+ " impact for "
            +:+ policyGoal inp +:+ " in " +:+ city inp));
     ("custom_input",
      JObj [("perspective", JStr perspective);
            ("city", JStr (city inp));
            ("policy_document", JStr (policyDocument inp))]);
     ("config", streaming_config);
     ("stream", JBool true)].

Definition debateRequest (inp : Inputs) : JsVal :=
  JObj
    [("agent_type", JStr "DEBATE");
     ("description",
      JStr ("Analyze pros and cons of " +:+ policyGoal inp +:+ " initiative"));
     ("custom_input",
      JObj [("rounds", JNum 3 0);
            ("focus_areas", JArr (map JStr (simulationPerspective inp)))]);
     ("config", streaming_config);
     ("stream", JBool true)].

Definition aggregatorRequest (inp : Inputs) : JsVal :=
  JObj
    [("agent_type", JStr "AGGREGATOR");
     ("description",
      JStr ("Compile comprehensive report for " +:+ policyGoal inp
            +:+ " initiative"));
     ("custom_input",
      JObj [("format", JStr "PDF");
            ("sections",
             JArr [JStr "executive_summary"; JStr "simulations";
                   JStr "debate"; JStr "recommendations"])]);
     ("config", streaming_config);
     ("stream", JBool true)].

(** The body of the [try] block. *)
Definition workflowSteps (inp : Inputs) : Async unit :=
  consultingResult ← executeStep (clientId inp) consulting
                       (consultingRequest inp);
  for_of (simulationPerspective inp) (fun perspective =>
    simulationResult ← executeStep (clientId inp) simulation
                         (simulationRequest inp perspective);
    mret tt) ;;
  debateResult ← executeStep (clientId inp) debate (debateRequest inp);
  aggregatorResult ← executeStep (clientId inp) aggregator
                       (aggregatorRequest inp);
  perform (SetCurrentStep None).

Definition runWorkflow (inp : Inputs) : Async unit :=
  if falsy (politicianName inp) || falsy (policyGoal inp) || falsy (city inp)
  then perform (Alert "Please fill in all required fields")
  else
    perform (SetIsRunning true) ;;
    try_finally
      (try_catch (workflowSteps inp)
         (fun error => perform (Alert ("Workflow failed: " +:+ error))))
      (perform (SetIsRunning false)).

(** ** Observations on runs *)

#[global] Instance WorkflowStep_eq_dec : EqDecision WorkflowStep.
Proof. solve_decision. Defined.

#[global] Instance StepStatus_eq_dec : EqDecision StepStatus.
Proof. solve_decision. Defined.

(** The straight-line sequence of executions the [try] block asks for:
    one per selected perspective for the simulation step. *)
Definition plan (inp : Inputs) : list (WorkflowStep * JsVal) :=
  (consulting, consultingRequest inp)
  :: map (fun perspective => (simulation, simulationRequest inp perspective))
       (simulationPerspective inp)
  ++ [(debate, debateRequest inp); (aggregator, aggregatorRequest inp)].

Fixpoint runPlan {A : Type} (cid : string)
    (pl : list (WorkflowStep * JsVal)) (k : Async A) : Async A :=
  match pl with
  | [] => k
  | (step, request) :: pl' =>
      _ ← executeStep cid step request; runPlan cid pl' k
  end.

(** The messages of a connection through the [onToken] of a step. *)
Definition deliver (step : WorkflowStep) (fullOutput : string)
    (msgs : list Message) : string * list Action :=
  onmessage (onToken step) fullOutput msgs.

(** The tokens a connection delivers. *)
Definition tokens_of (msgs : list Message) : list string :=
  omap (fun m => match m with MsgToken t => Some t | _ => None end) msgs.

(** The end of a connection through the callbacks of a step: the effects
    and how the promise of [executeStep] settles. *)
Definition settle (step : WorkflowStep) (c : Closing)
  : list Action * Completion (option JsVal) :=
  match c with
  | MsgComplete r =>
      ([UpdateStepStatus step Status.completed r None; CloseSocket],
       Returned r)
  | MsgError e =>
      ([UpdateStepStatus step Status.error None e; CloseSocket],
       Thrown (template e))
  | SocketError =>
      ([UpdateStepStatus step Status.error None (Some "WebSocket error")],
       Thrown "WebSocket error")
  | Silent => ([], Suspended)
  end.

(** The effects of one execution after the step is set running: none
    when there is no socket. *)
Definition streamed_effects (cid : string) (step : WorkflowStep)
    (request : JsVal) (c : Connection) : list Action :=
  match c with
  | NoSocket _ => []
  | Socket session =>
      OpenSocket cid request :: onopen request session
      ++ (deliver step "" (messages session)).2
      ++ (settle step (closing session)).1
  end.

(** How the promise of an execution settles. *)
Definition settlement (c : Connection) : Completion (option JsVal) :=
  match c with
  | NoSocket exception => Thrown exception
  | Socket session =>
      match closing session with
      | MsgComplete r => Returned r
      | MsgError e => Thrown (template e)
      | SocketError => Thrown "WebSocket error"
      | Silent => Suspended
      end
  end.

(** The messages a connection delivers: none when there is no socket. *)
Definition delivered (c : Connection) : list Message :=
  match c with
  | NoSocket _ => []
  | Socket session => messages session
  end.

(** The error the [onError] callback is called with, if it is called. *)
Definition reported (c : Closing) : option string :=
  match c with
  | MsgError e => e
  | SocketError => Some "WebSocket error"
  | _ => None
  end.

(** The status, the result and the error that the connection of an
    execution leaves on the step. *)
Definition left_status (c : Connection) : StepStatus :=
  match c with
  | NoSocket _ => Status.running
  | Socket session =>
      match closing session with
      | MsgComplete _ => Status.completed
      | MsgError _ | SocketError => Status.error
      | Silent => Status.running
      end
  end.

Definition left_result (c : Connection) : option JsVal :=
  match c with
  | NoSocket _ => None
  | Socket session =>
      match closing session with
      | MsgComplete r => r
      | _ => None
      end
  end.

Definition left_error (c : Connection) : option string :=
  match c with
  | NoSocket _ => None
  | Socket session => reported (closing session)
  end.

(** The step whose state an effect writes, if any. *)
Definition target (a : Action) : option WorkflowStep :=
  match a with
  | UpdateStepStatus step _ _ _ | UpdateStepOutput step _ => Some step
  | _ => None
  end.

(** The client id [executeStep] connects with for a step. *)
Definition socket_id (inp : Inputs) (step : WorkflowStep) : string :=
  clientId inp +:+ "-" +:+ step_name step.

(** The client ids and requests of the sockets [streamAgentExecution]
    creates, in order. *)
Definition opened (tr : list Action) : list (string * JsVal) :=
  omap (fun a => match a with
                 | OpenSocket cid request => Some (cid, request)
                 | _ => None
                 end) tr.

(** The requests sent, in order. *)
Definition sent (tr : list Action) : list JsVal :=
  omap (fun a => match a with
                 | Send request => Some request
                 | _ => None
                 end) tr.

(** What a run would open if every execution resolved. *)
Definition planned (inp : Inputs) : list (string * JsVal) :=
  map (fun sr => (socket_id inp sr.1, sr.2)) (plan inp).

(** Result and error of a step agree with its status: no error on a
    completed step, no result on a step in the error state, neither
    before. *)
Definition exclusive (s : StepState) : bool :=
  match status s with
  | Status.completed => bool_decide (error s = None)
  | Status.error => bool_decide (result s = None)
  | _ => bool_decide (result s = None ∧ error s = None)
  end.

(** One move of the task state machine of the specification (there is
    no cancellation in the source), or no move. *)
Definition sm_step (a b : StepStatus) : bool :=
  match a, b with
  | Status.pending, Status.running
  | Status.running, Status.completed
  | Status.running, Status.error => true
  | _, _ => bool_decide (a = b)
  end.

(** Statuses between two executions, the steps in [done] having run. *)
Definition expected (done : list WorkflowStep) (step : WorkflowStep)
  : StepStatus :=
  if bool_decide (step ∈ done) then Status.completed else Status.pending.

(** Statuses while [cur] is being executed and has status [x]. *)
Definition during (done : list WorkflowStep) (cur : WorkflowStep)
    (x : StepStatus) (step : WorkflowStep) : StepStatus :=
  if bool_decide (step = cur) then x else expected done step.

(** Order of the executions of a run: ranks grow, and only the
    simulation step is run more than once. *)
Definition follows (a b : WorkflowStep) : Prop :=
  step_rank a < step_rank b ∨ (a = simulation ∧ b = simulation).

(** [String.concat] with an empty separator. *)
Definition concat_all (l : list string) : string :=
  foldr String.append "" l.

(** The last [n] elements of a list. *)
Definition most_recent {A : Type} (n : nat) (l : list A) : list A :=
  drop (length l - n) l.

(** [existsb] of the id test: some element of the array has this id. *)
Definition id_present (id : string) (storage : list JsObject) : bool :=
  existsb (id_is id) storage.

(** Some element of [agentsStorage] is an object with this id. *)
Definition agent_present (id : string) (storage : list (Stored JsObject))
  : bool :=
  existsb (fun a => match a with
                    | SObj object => id_is id object
                    | _ => false
                    end) storage.

(** The search for [id] passes over the element: it is not [null] and
    not an object with this id. *)
Definition skips (id : string) (a : Stored JsObject) : bool :=
  match a with
  | SNull => false
  | SObj object => negb (id_is id object)
  | _ => true
  end.

(** ** Predicates on runs *)

(** The effects of streamed tokens: output updates of the step and, for
    the aggregator, the report. *)
Definition streamed_by (step : WorkflowStep) (a : Action) : Prop :=
  (exists token, a = UpdateStepOutput step token)
  \/ (exists text, a = SetFinalReport text).

(** The effects appended by the [catch] and [finally] blocks. *)
Definition epilogue (c : Completion unit) : list Action :=
  match c with
  | Returned _ => [SetIsRunning false]
  | Thrown e => [Alert ("Workflow failed: " +:+ e); SetIsRunning false]
  | Suspended => []
  end.

(** [R] holds of every effect of [tr] and the state it is performed in,
    the run having started in [st]. *)
Definition before_each (R : State -> Action -> Prop) (st : State)
    (tr : list Action) : Prop :=
  forall n a, tr !! n = Some a -> R (exec st (take n tr)) a.

(** The statuses of all steps are given by [f]. *)
Definition statuses (st : State) (f : WorkflowStep -> StepStatus) : Prop :=
  forall step, status_of st step = f step.

(** Effects other than a status update. *)
Definition keeps_status (a : Action) : Prop :=
  match a with
  | UpdateStepStatus _ _ _ _ => False
  | _ => True
  end.

(** [full] is the sequence of steps a run executes.  Between two
    executions the steps already executed are completed and the others
    pending. *)
Definition Idle (full : list WorkflowStep) (st : State) : Prop :=
  exists done rest, full = done ++ rest /\ statuses st (expected done).

(** During the execution of [s] that step alone differs: its status is
    [x]. *)
Definition Busy (full : list WorkflowStep) (x : StepStatus) (s : WorkflowStep)
    (st : State) : Prop :=
  exists done rest, full = done ++ s :: rest /\ statuses st (during done s x).

(** The states of a run: between executions, or in an execution that is
    running or has failed. *)
Definition Shape (full : list WorkflowStep) (st : State) : Prop :=
  Idle full st
  \/ exists s x, (x = Status.running \/ x = Status.error) /\ Busy full x s st.

(** What the state must look like when an effect is performed. *)
Definition lawful (full : list WorkflowStep) (st : State) (a : Action) : Prop :=
  match a with
  | UpdateStepStatus s x r e =>
      match x with
      | Status.pending => False
      | Status.running =>
          r = None /\ e = None /\
          exists done rest,
            full = done ++ s :: rest /\ statuses st (expected done)
      | Status.completed => e = None /\ Busy full Status.running s st
      | Status.error => r = None /\ Busy full Status.running s st
      end
  | UpdateStepOutput s _ => Busy full Status.running s st
  | _ => True
  end.

Definition orderly (full : list WorkflowStep) (st : State) (a : Action)
  : Prop :=
  lawful full st a /\ Shape full st.

(** An effect of the execution of [s] for the component [cid]: it writes
    and selects that step only and opens the connection of that step. *)
Definition belongs (cid : string) (s : WorkflowStep) (a : Action) : Prop :=
  match a with
  | UpdateStepStatus t _ _ _ | UpdateStepOutput t _ => t = s
  | SetCurrentStep cur => cur = Some s
  | OpenSocket c _ => c = cid +:+ "-" +:+ step_name s
  | SetFinalReport _ | Send _ | CloseSocket => True
  | SetIsRunning _ | Alert _ => False
  end.

(** An effect that has nothing to do with step [s]: it does not write or
    select it and does not open its connection. *)
Definition untouched (inp : Inputs) (s : WorkflowStep) (a : Action) : Prop :=
  match a with
  | UpdateStepStatus t _ _ _ | UpdateStepOutput t _ => t <> s
  | SetCurrentStep cur => cur <> Some s
  | OpenSocket c _ => c <> socket_id inp s
  | _ => True
  end.

(** The effects that wind a run up: closing the connection, the alert and
    clearing the running flag. *)
Definition closing_effect (a : Action) : Prop :=
  match a with
  | CloseSocket | Alert _ | SetIsRunning false => True
  | _ => False
  end.

(** The number of effects of a run that pass a test. *)
Fixpoint count (p : Action -> bool) (tr : list Action) : nat :=
  match tr with
  | [] => 0
  | a :: tr' => (if p a then 1 else 0) + count p tr'
  end.

(** An execution is started: the step is set running. *)
Definition is_start (a : Action) : bool :=
  match a with
  | UpdateStepStatus _ Status.running _ _ => true
  | _ => false
  end.

(** The promise of an execution is resolved: [onComplete] records the
    completion. *)
Definition is_resolution (a : Action) : bool :=
  match a with
  | UpdateStepStatus _ Status.completed _ _ => true
  | _ => false
  end.

(** An execution of [step] is started. *)
Definition starts (step : WorkflowStep) (a : Action) : bool :=
  match a with
  | UpdateStepStatus s Status.running _ _ => bool_decide (s = step)
  | _ => false
  end.

(** An effect that takes a step out of 'completed', performed in [st]. *)
Definition steps_back (st : State) (a : Action) : bool :=
  match a with
  | UpdateStepStatus s x _ _ =>
      bool_decide (status_of st s = Status.completed)
      && negb (bool_decide (x = Status.completed))
  | _ => false
  end.

(** The number of such effects along a run started in [st]. *)
Fixpoint back_steps (st : State) (tr : list Action) : nat :=
  match tr with
  | [] => 0
  | a :: tr' =>
      (if steps_back st a then 1 else 0) + back_steps (reduce st a) tr'
  end.

(** ** Sample data *)

Definition sample_agent (id status : string) : JsObject :=
  <["id" := JStr id]> (<["name" := JStr "Planner"]>
    (<["status" := JStr status]> ∅)).

Definition sample_agents : list JsObject :=
  [sample_agent "agent-1" "ACTIVE"; sample_agent "agent-2" "ACTIVE";
   sample_agent "agent-1" "PAUSED"].

(** The same records as elements of [agentsStorage]. *)
Definition sample_store : list (Stored JsObject) := SObj <$> sample_agents.

Definition sample_inputs (perspectives : list string) : Inputs :=
  {| clientId := "client-1700000000000";
     politicianName := "Mayor Smith";
     policyGoal := "Build 500 new affordable housing units";
     city := "San Francisco, CA";
     policyDocument := "";
     simulationPerspective := perspectives |}.

(** A connection that opens, streams [tokens] and completes with [r]. *)
Definition completes (tokens : list string) (r : JsVal) : Connection :=
  Socket (mkSession true (MsgStart "agent-7" :: map MsgToken tokens)
            (MsgComplete (Some r))).

(** A connection that opens, streams one token and reports the error
    [e]. *)
Definition fails (e : string) : Connection :=
  Socket (mkSession true [MsgStart "agent-7"; MsgToken "partial"]
            (MsgError (Some e))).

(** A connection that is refused: the socket never opens and ends with an
    error event. *)
Definition refused : Connection := Socket (mkSession false [] SocketError).

(** ** Storage services: list, create and update (services/storage)

    The clock is read by the caller of the model: [now] is the value of
    [Date.now()] (an integer number of milliseconds, printed in decimal
    when appended to a string) and the timestamps are the results of
    [new Date().toISOString()]. *)

(** [{ ...a, ...b }]: the fields of [b] win. *)
Definition spread (a b : JsObject) : JsObject := b ∪ a.

(** [prefix + Date.now()] *)
Definition generated_id (prefix : string) (now : N) : string :=
  prefix +:+ pretty now.

(** [agentsService.list] *)
Definition agentsService_list (agentsStorage : list (Stored JsObject))
  : Promise (list (Stored JsObject)) :=
  Resolved agentsStorage.

(** The object literal of the local fallback of [agentsService.create]:
    [{ id, ...data, status, createdAt, updatedAt, _count }]. *)
Definition newAgent (now : N) (createdAt updatedAt : string)
    (data : JsObject) : JsObject :=
  <["_count" := JObj [("simulations", JNum 0 0); ("debates", JNum 0 0)]]>
    (<["updatedAt" := JStr updatedAt]>
      (<["createdAt" := JStr createdAt]>
        (<["status" := JStr "ACTIVE"]>
          (spread {["id" := JStr (generated_id "agent-" now)]} data)))).

(** [agentsService.create].  [backend] is the body of the response of the
    POST when the request succeeds with an ok status and a body that
    parses, whatever value it parses to: it is pushed and returned as it
    is.  [None] when [fetch] or [response.json()] throws or the status is
    not ok, in which case the local fallback runs. *)
Definition agentsService_create (backend : option (Stored JsObject)) (now : N)
    (createdAt updatedAt : string) (data : JsObject)
    (agentsStorage : list (Stored JsObject))
  : list (Stored JsObject) * Promise (Stored JsObject) :=
  match backend with
  | Some agentData => (agentsStorage ++ [agentData], Resolved agentData)
  | None =>
      let newAgent := SObj (newAgent now createdAt updatedAt data) in
      (agentsStorage ++ [newAgent], Resolved newAgent)
  end.

(** [agentsService.update].  The element at [index] has passed the test
    of the callback, so it is an object (see [try_findIndex_object]); the
    last case is never reached. *)
Definition agentsService_update (id : string) (data : JsObject)
    (updatedAt : string) (agentsStorage : list (Stored JsObject))
  : list (Stored JsObject) * Promise (Stored JsObject) :=
  match try_findIndex (id_matches by_value id) agentsStorage with
  | Throws => (agentsStorage, RejectedTypeError)
  | Ok None => (agentsStorage, Rejected "Agent not found")
  | Ok (Some index) =>
      match agentsStorage !! index with
      | Some (SObj old) =>
          let updated :=
            SObj (<["updatedAt" := JStr updatedAt]> (spread old data)) in
          (<[index := updated]> agentsStorage, Resolved updated)
      | _ => (agentsStorage, RejectedTypeError)
      end
  end.

(** What [agentsStorage] holds after a first [create] that the backend
    answers with the body [null] and a second one that falls back to the
    local record. *)
Definition store_with_null : list (Stored JsObject) :=
  (agentsService_create None 1 "t" "t" ∅
     (agentsService_create (Some SNull) 0 "t" "t" ∅ []).1).1.

(** [{ id, ...data, status, createdAt, results, metrics }] *)
Definition newSimulation (now : N) (createdAt : string) (data : JsObject)
  : JsObject :=
  <["metrics" := JNull]>
    (<["results" := JNull]>
      (<["createdAt" := JStr createdAt]>
        (<["status" := JStr "PENDING"]>
          (spread {["id" := JStr (generated_id "sim-" now)]} data)))).

(** [simulationsService.create] *)
Definition simulationsService_create (now : N) (createdAt : string)
    (data : JsObject) (simulationsStorage : list JsObject)
  : list JsObject * Promise JsObject :=
  let newSimulation := newSimulation now createdAt data in
  (simulationsStorage ++ [newSimulation], Resolved newSimulation).

(** [simulationsService.update] *)
Definition simulationsService_update (id : string) (data : JsObject)
    (simulationsStorage : list JsObject) : list JsObject * Promise JsObject :=
  match findIndex (id_is id) simulationsStorage with
  | None => (simulationsStorage, Rejected "Simulation not found")
  | Some index =>
      let simulationsStorage' :=
        alter (fun old => spread old data) index simulationsStorage in
      (simulationsStorage', Resolved (simulationsStorage' !!! index))
  end.

(** The id under which a created record can be looked up: the [id] of
    the data when it has one, the generated id otherwise. *)
Definition stored_id (prefix : string) (now : N) (data : JsObject) : JsVal :=
  default (JStr (generated_id prefix now)) (data !! "id").

(** The fields that [agentsService.create] sets after spreading the
    data. *)
Definition agent_defaults : list string :=
  ["status"; "createdAt"; "updatedAt"; "_count"].

(** The fields that [simulationsService.create] sets after spreading the
    data. *)
Definition simulation_defaults : list string :=
  ["status"; "createdAt"; "results"; "metrics"].

(** ** Storage with shared objects

    The arrays hold references: [get], [create] and [update] hand out the
    object that is in the array, and [delete] assigns a field of it in
    place.  Objects live in a heap, the address of an object being its
    allocation number; an element of the array is a reference to an
    object, or a value that is not an object. *)
Module Shared.

Record Store : Type := mkStore {
  heap : list JsObject;
  agentsStorage : list (Stored nat)
}.

(** [let agentsStorage: any[] = []] *)
Definition empty : Store := mkStore [] [].

(** The object a reference points to. *)
Definition deref (st : Store) (ref : nat) : JsObject := heap st !!! ref.

(** The array as values. *)
Definition contents (st : Store) : list (Stored JsObject) :=
  stored_map (deref st) <$> agentsStorage st.

(** [agentsService.get]: the element found, if any. *)
Definition get (id : string) (st : Store) : Promise (option (Stored nat)) :=
  match try_find (id_matches (deref st) id) (agentsStorage st) with
  | Ok found => Resolved found
  | Throws => RejectedTypeError
  end.

(** Pushing a value: an object is allocated and its reference pushed. *)
Definition push (a : Stored JsObject) (st : Store) : Store :=
  mkStore
    (match a with
     | SObj object => heap st ++ [object]
     | _ => heap st
     end)
    (agentsStorage st ++ [stored_map (fun _ => length (heap st)) a]).

(** [agentsService.create]: what is pushed is what is returned. *)
Definition create (backend : option (Stored JsObject)) (now : N)
    (createdAt updatedAt : string) (data : JsObject) (st : Store)
  : Store * Promise (Stored nat) :=
  let a := match backend with
           | Some agentData => agentData
           | None => SObj (newAgent now createdAt updatedAt data)
           end in
  (push a st, Resolved (stored_map (fun _ => length (heap st)) a)).

(** [agentsService.update]: the object literal is a new object, which
    replaces the reference in the array; the old object is not written. *)
Definition update (id : string) (data : JsObject) (updatedAt : string)
    (st : Store) : Store * Promise (Stored nat) :=
  match try_findIndex (id_matches (deref st) id) (agentsStorage st) with
  | Throws => (st, RejectedTypeError)
  | Ok None => (st, Rejected "Agent not found")
  | Ok (Some index) =>
      match agentsStorage st !! index with
      | Some (SObj ref) =>
          let object :=
            <["updatedAt" := JStr updatedAt]> (spread (deref st ref) data) in
          (mkStore (heap st ++ [object])
             (<[index := SObj (length (heap st))]> (agentsStorage st)),
           Resolved (SObj (length (heap st))))
      | _ => (st, RejectedTypeError)
      end
  end.

(** [agentsService.delete]: [agentsStorage[index].status = 'ARCHIVED']
    writes the object the array refers to. *)
Definition delete (id : string) (st : Store) : Store * Promise unit :=
  match try_findIndex (id_matches (deref st) id) (agentsStorage st) with
  | Throws => (st, RejectedTypeError)
  | Ok None => (st, Rejected "Agent not found")
  | Ok (Some index) =>
      match agentsStorage st !! index with
      | Some (SObj ref) =>
          (mkStore
             (alter (fun a => <["status" := JStr "ARCHIVED"]> a) ref (heap st))
             (agentsStorage st),
           Resolved tt)
      | _ => (st, RejectedTypeError)
      end
  end.

(** A call of the service, with what it reads from its environment. *)
Inductive Call : Type :=
| Create (backend : option (Stored JsObject)) (now : N)
    (createdAt updatedAt : string) (data : JsObject)
| Update (id : string) (data : JsObject) (updatedAt : string)
| Delete (id : string).

Definition call (st : Store) (c : Call) : Store :=
  match c with
  | Create backend now createdAt updatedAt data =>
      (create backend now createdAt updatedAt data st).1
  | Update id data updatedAt => (update id data updatedAt st).1
  | Delete id => (delete id st).1
  end.

(** The same call on an array of values. *)
Definition call_by_value (storage : list (Stored JsObject)) (c : Call)
  : list (Stored JsObject) :=
  match c with
  | Create backend now createdAt updatedAt data =>
      (agentsService_create backend now createdAt updatedAt data storage).1
  | Update id data updatedAt =>
      (agentsService_update id data updatedAt storage).1
  | Delete id => (agentsService_delete id storage).1
  end.

(** No two slots hold the same reference, and every reference of the
    array points to an allocated object. *)
Definition well_formed (st : Store) : Prop :=
  (forall i j ref,
     agentsStorage st !! i = Some (SObj ref) ->
     agentsStorage st !! j = Some (SObj ref) -> i = j)
  /\ (forall i ref,
        agentsStorage st !! i = Some (SObj ref) -> ref < length (heap st)).

End Shared.

(** ** Workflow runner: what the page shows (pages/WorkflowRunner) *)

(** The [disabled] attribute of the Start button:
    [isRunning || !politicianName || !policyGoal || !city]. *)
Definition startDisabled (st : State) (inp : Inputs) : bool :=
  isRunning st || falsy (politicianName inp) || falsy (policyGoal inp)
  || falsy (city inp).

(** The output panel, a chain of conditional expressions on
    [currentStep].  The simulation metrics and the debate messages are
    parsed from the streamed text into cells of their own; the panel
    only asks whether there are any. *)
Inductive Panel : Type :=
| MetricsPanel
| DebatePanel (isStreaming : bool)
| ReportPanel (content : string)
| OutputPanel (text : string)
| ReadyPanel.

Definition panel (hasMetrics hasDebateMessages : bool) (st : State) : Panel :=
  if bool_decide (currentStep st = Some simulation) && hasMetrics
  then MetricsPanel
  else if bool_decide (currentStep st = Some debate) && hasDebateMessages
  then DebatePanel (bool_decide (status_of st debate = Status.running))
  else if bool_decide (currentStep st = Some aggregator)
          && negb (falsy (finalReport st))
  then ReportPanel (finalReport st)
  else match currentStep st with
       | Some step =>
           OutputPanel
             (if falsy (output (step_state (steps st) step))
              then "Starting..."
              else output (step_state (steps st) step))
       | None => ReadyPanel
       end.

(** The style of the row of a step in the progress list: the current
    step is highlighted before the status is looked at. *)
Inductive RowStyle : Type := RowCurrent | RowCompleted | RowError | RowPlain.

Definition rowStyle (st : State) (step : WorkflowStep) : RowStyle :=
  if bool_decide (currentStep st = Some step) then RowCurrent
  else match status_of st step with
       | Status.completed => RowCompleted
       | Status.error => RowError
       | _ => RowPlain
       end.

(** ** Chains of executions

    A plan run against the connections it is given: the executions follow
    each other as long as the connections complete. *)

(** How a chain of [n] executions ends. *)
Fixpoint chain_outcome (n : nat) (env : list Connection) : Completion unit :=
  match n with
  | 0 => Returned tt
  | S n' =>
      match settlement (hd silent_connection env) with
      | Returned _ => chain_outcome n' (tl env)
      | Thrown e => Thrown e
      | Suspended => Suspended
      end
  end.

(** The effects of the executions of a chain, up to and including the
    first that does not complete. *)
Fixpoint chain_effects (cid : string) (pl : list (WorkflowStep * JsVal))
    (env : list Connection) : list Action :=
  match pl with
  | [] => []
  | (step, request) :: pl' =>
      effects (executeStep cid step request env)
      ++ match settlement (hd silent_connection env) with
         | Returned _ => chain_effects cid pl' (tl env)
         | _ => []
         end
  end.

(** The number of executions a chain of [n] starts. *)
Fixpoint chain_length (n : nat) (env : list Connection) : nat :=
  match n with
  | 0 => 0
  | S n' =>
      S match settlement (hd silent_connection env) with
        | Returned _ => chain_length n' (tl env)
        | _ => 0
        end
  end.

(** The number of sockets a chain of [n] executions creates: one per
    execution started, except for one whose [new WebSocket] throws. *)
Fixpoint chain_sockets (n : nat) (env : list Connection) : nat :=
  match n with
  | 0 => 0
  | S n' =>
      match hd silent_connection env with
      | NoSocket _ => 0
      | Socket session =>
          S match closing session with
            | MsgComplete _ => chain_sockets n' (tl env)
            | _ => 0
            end
      end
  end.

(** The step of the last execution a chain starts. *)
Definition last_started (pl : list (WorkflowStep * JsVal))
    (env : list Connection) : option WorkflowStep :=
  fst <$> last (take (chain_length (length pl) env) pl).

(** The connection given to the [n]-th execution of a run. *)
Definition connection (n : nat) (env : list Connection) : Connection :=
  hd silent_connection (drop n env).

(** Whether the socket of a connection opens. *)
Definition is_open (c : Connection) : bool :=
  match c with
  | NoSocket _ => false
  | Socket session => opens session
  end.

(** Effects that are neither a write of the running flag nor an alert. *)
Definition silent_effect (a : Action) : Prop :=
  match a with
  | SetIsRunning _ | Alert _ => False
  | _ => True
  end.

(** ** The agent service: WebSocket address (services/agents) *)

(** The rest of [s] after the prefix [pattern], if [s] starts with it. *)
Fixpoint strip_prefix (pattern s : string) : option string :=
  match pattern, s with
  | EmptyString, _ => Some s
  | String a pattern', String b s' =>
      if Ascii.eqb a b then strip_prefix pattern' s' else None
  | String _ _, EmptyString => None
  end.

(** [s.includes(pattern)] *)
Fixpoint includes (pattern s : string) : bool :=
  match strip_prefix pattern s with
  | Some _ => true
  | None =>
      match s with
      | EmptyString => false
      | String _ s' => includes pattern s'
      end
  end.

(** [s.replace(pattern, replacement)] for a string pattern and a
    replacement without [$]: the first occurrence is replaced, the
    others are not. *)
Fixpoint replace (pattern replacement s : string) : string :=
  match strip_prefix pattern s with
  | Some rest => replacement +:+ rest
  | None =>
      match s with
      | EmptyString => EmptyString
      | String c s' => String c (replace pattern replacement s')
      end
  end.

(** [import.meta.env.VITE_API_URL || 'http://localhost:8000'] *)
Definition API_BASE_URL (VITE_API_URL : option string) : string :=
  match VITE_API_URL with
  | Some url => if falsy url then "http://localhost:8000" else url
  | None => "http://localhost:8000"
  end.

(** [class AgentService]: the fields set by the constructor. *)
Record AgentService : Type := mkAgentService {
  baseUrl : string;
  wsUrl : string
}.

Definition newAgentService (VITE_API_URL : option string) : AgentService :=
  {| baseUrl := API_BASE_URL VITE_API_URL;
     wsUrl := replace "http" "ws" (API_BASE_URL VITE_API_URL) |}.

(** The address [createWebSocket] connects to. *)
Definition createWebSocket (service : AgentService) (clientId : string)
  : string :=
  wsUrl service +:+ "/ws/" +:+ clientId.

(** ** The workflow widget of the simulations page (pages/SimulationsPage) *)

Module Widget.

(** What awaiting one request gives: the output extracted from the
    answer, an exception (the request fails, the body does not parse, or
    the answer is [null]), or nothing as long as the request is pending. *)
Inductive Reply (A : Type) : Type :=
| Replied (output : A)
| Threw (message : string)
| Pending.
Arguments Replied {A} output.
Arguments Threw {A} message.
Arguments Pending {A}.

(** The replies to the five requests of a run.  The visualization
    request has an output only when the answer carries
    [visualization_data]. *)
Record Replies : Type := mkReplies {
  consultingReply : Reply string;
  simulationReply : Reply string;
  debateReply : Reply string;
  aggregatorReply : Reply string;
  visualizationReply : Reply (option string)
}.

(** The cells of the page that the cards read.  The message list, the
    simulation results and the analytics are written by the same handler
    into cells of their own and are left out. *)
Record State : Type := mkState {
  workflowRunning : bool;
  workflowStep : nat;
  agentFullOutputs : gmap string string
}.

Inductive Action : Type :=
| SetWorkflowRunning (b : bool)
| SetWorkflowStep (n : nat)
| SetAgentFullOutputs (kind output : string)
| Post (agent_type : string)
| Alert (message : string).

Definition reduce (st : State) (a : Action) : State :=
  match a with
  | SetWorkflowRunning b =>
      mkState b (workflowStep st) (agentFullOutputs st)
  | SetWorkflowStep n =>
      mkState (workflowRunning st) n (agentFullOutputs st)
  | SetAgentFullOutputs kind output =>
      mkState (workflowRunning st) (workflowStep st)
        (setAgentFullOutputs kind output (agentFullOutputs st))
  | Post _ | Alert _ => st
  end.

Definition exec (st : State) (effects : list Action) : State :=
  foldl reduce st effects.

(** One request of the [try] block and what follows it. *)
Definition request {A : Type} (before : list Action) (reply : Reply A)
    (next : A -> list Action * Completion unit)
  : list Action * Completion unit :=
  match reply with
  | Replied output => let '(after, c) := next output in (before ++ after, c)
  | Threw message => (before, Thrown message)
  | Pending => (before, Suspended)
  end.

(** The [try] block of the click handler. *)
Definition tryBlock (replies : Replies) : list Action * Completion unit :=
  request [SetWorkflowStep 1; Post "CONSULTING"] (consultingReply replies)
    (fun consultingOutput =>
  request [SetAgentFullOutputs "consulting" consultingOutput;
           SetWorkflowStep 2; Post "SIMULATION"] (simulationReply replies)
    (fun simulationOutput =>
  request [SetAgentFullOutputs "simulation" simulationOutput;
           SetWorkflowStep 3; Post "DEBATE"] (debateReply replies)
    (fun debateOutput =>
  request [SetAgentFullOutputs "debate" debateOutput;
           SetWorkflowStep 4; Post "AGGREGATOR"] (aggregatorReply replies)
    (fun aggregatorOutput =>
  request [SetAgentFullOutputs "aggregator" aggregatorOutput;
           SetWorkflowStep 5; Post "MAPBOX_VISUALIZATION"]
    (visualizationReply replies)
    (fun visualizationData =>
       (match visualizationData with
        | Some text => [SetAgentFullOutputs "mapbox" text]
        | None => []
        end ++ [SetWorkflowRunning false; SetWorkflowStep 0],
        Returned tt)))))).

(** The click handler of the Start button.  [workflowPolicyFile] tells
    whether a file has been chosen. *)
Definition onClick (workflowPolicyFile : bool)
    (workflowPolitician workflowGoal : string) (replies : Replies)
  : list Action * Completion unit :=
  if negb workflowPolicyFile
  then ([Alert "⚠️ Please upload a policy document first!"], Returned tt)
  else if falsy workflowPolitician || falsy workflowGoal
  then ([Alert "Please fill in all fields"], Returned tt)
  else
    let '(body, c) := tryBlock replies in
    match c with
    | Thrown _ =>
        ([SetWorkflowRunning true; SetWorkflowStep 1] ++ body
         ++ [SetWorkflowRunning false; SetWorkflowStep 0], Returned tt)
    | _ => ([SetWorkflowRunning true; SetWorkflowStep 1] ++ body, c)
    end.

(** The [disabled] attribute of the Start button. *)
Definition startDisabled (workflowPolicyFile : bool)
    (workflowPolitician workflowGoal : string) : bool :=
  negb workflowPolicyFile || falsy workflowPolitician || falsy workflowGoal.

(** The cards of the five agents and the status each is given. *)
Inductive Card : Type :=
| ConsultingCard | SimulationCard | DebateCard | AggregatorCard | MapboxCard.

Inductive CardStatus : Type := CardPending | CardRunning | CardCompleted.

Definition cardStatus (card : Card) (workflowStep : nat) : CardStatus :=
  match card with
  | ConsultingCard =>
      if Nat.ltb 1 workflowStep then CardCompleted
      else if Nat.eqb workflowStep 1 then CardRunning else CardPending
  | SimulationCard =>
      if Nat.ltb 2 workflowStep then CardCompleted
      else if Nat.eqb workflowStep 2 then CardRunning else CardPending
  | DebateCard =>
      if Nat.ltb 3 workflowStep then CardCompleted
      else if Nat.eqb workflowStep 3 then CardRunning else CardPending
  | AggregatorCard =>
      if Nat.ltb 4 workflowStep then CardCompleted
      else if Nat.eqb workflowStep 4 then CardRunning else CardPending
  | MapboxCard =>
      if Nat.leb 5 workflowStep then CardCompleted
      else if Nat.eqb workflowStep 5 then CardRunning else CardPending
  end.

(** The number and the output key of a card. *)
Definition stepNumber (card : Card) : nat :=
  match card with
  | ConsultingCard => 1
  | SimulationCard => 2
  | DebateCard => 3
  | AggregatorCard => 4
  | MapboxCard => 5
  end.

Definition kind (card : Card) : string :=
  match card with
  | ConsultingCard => "consulting"
  | SimulationCard => "simulation"
  | DebateCard => "debate"
  | AggregatorCard => "aggregator"
  | MapboxCard => "mapbox"
  end.

(** The [agent_type] of the request whose progress a card shows. *)
Definition agent_type (card : Card) : string :=
  match card with
  | ConsultingCard => "CONSULTING"
  | SimulationCard => "SIMULATION"
  | DebateCard => "DEBATE"
  | AggregatorCard => "AGGREGATOR"
  | MapboxCard => "MAPBOX_VISUALIZATION"
  end.

(** The cards are rendered only while [workflowRunning] holds. *)
Definition cardsShown (st : State) : bool := workflowRunning st.


(** The output a reply records for a card, if any. *)
Definition recorded (replies : Replies) (card : Card) : option string :=
  match card with
  | ConsultingCard =>
      match consultingReply replies with Replied o => Some o | _ => None end
  | SimulationCard =>
      match simulationReply replies with Replied o => Some o | _ => None end
  | DebateCard =>
      match debateReply replies with Replied o => Some o | _ => None end
  | AggregatorCard =>
      match aggregatorReply replies with Replied o => Some o | _ => None end
  | MapboxCard =>
      match visualizationReply replies with
      | Replied (Some o) => Some o
      | _ => None
      end
  end.

End Widget.

(** ** Starting a simulation (pages/SimulationsPage, startSimulation) *)

(** The record handed to [simulationsService.create]. *)
Definition simulationData (city filename uploadedAt : string) : JsObject :=
  <["city" := JStr city]>
    (<["policyDoc" := JObj [("filename", JStr filename);
                            ("uploadedAt", JStr uploadedAt)]]>
      (<["parameters" := JObj [("timeHorizon", JNum 10 0);
                               ("analysisDepth", JStr "detailed");
                               ("focusAreas", JArr [])]]> ∅)).

(** What [startSimulation] leaves behind: the storage, the new value of
    [runningSimulation] when it is set, and the alert shown. *)
Record Started : Type := mkStarted {
  simulationsStorage : list JsObject;
  runningSimulation : option JsVal;
  alerted : string
}.

(** [startSimulation].  [uploadedPolicyDoc] is the name of the uploaded
    file, if any; [runningSimulation] is set to the [id] of the created
    record. *)
Definition startSimulation (uploadedPolicyDoc : option string)
    (city : string) (uploadedAt : string) (now : N) (createdAt : string)
    (storage : list JsObject) : Started :=
  match uploadedPolicyDoc with
  | None =>
      mkStarted storage None "⚠️ Please upload a policy document first!"
  | Some filename =>
      match simulationsService_create now createdAt
              (simulationData city filename uploadedAt) storage with
      | (storage', Resolved created) =>
          mkStarted storage' (created !! "id")
            "✅ Simulation started! Watch the map for live updates!"
      | (storage', _) =>
          mkStarted storage' None "Failed to start simulation"
      end
  end.

(** ** The context aggregator of the orchestrator

    The front end reads the aggregated context from the backend
    ([GET /api/orchestrator/context]) and asks it to clear it; the
    aggregator itself is part of the backend, which is not among the
    sources.  The usage guide says of it: 10 most recent results kept per
    agent type. *)

Module Aggregator.

Section Entries.

(** A retained output. *)
Context {ContextEntry : Type}.

(** Modelled from the spec: the capacity of the backend's context
    aggregator, whose code is not among the sources - the most recent
    N = 10 entries per kind. *)
Definition N : nat := 10.

(** Modelled from the spec: the aggregator of the backend before any task
    has completed; its code is not among the sources.  The aggregator
    owns, for each kind, an ordered list of entries, the oldest first. *)
Definition empty : gmap string (list ContextEntry) := ∅.

(** Modelled from the spec: the list the backend's aggregator, whose code
    is not among the sources, holds for a kind - the empty list if
    nothing was recorded for the kind yet. *)
Definition entries (kind : string) (agg : gmap string (list ContextEntry))
  : list ContextEntry :=
  default [] (agg !! kind).

(** Modelled from the spec: [record(kind, entry)] of the backend's
    aggregator, whose code is not among the sources - writes a new entry
    keyed by the kind, evicting the oldest entry for that kind if at
    capacity. *)
Definition record (kind : string) (entry : ContextEntry)
    (agg : gmap string (list ContextEntry))
  : gmap string (list ContextEntry) :=
  let held := entries kind agg in
  let kept := if Nat.leb N (length held) then tl held else held in
  <[kind := kept ++ [entry]]> agg.

(** Modelled from the spec: [snapshot(kinds)] of the backend's
    aggregator, whose code is not among the sources - the current
    entries of each requested kind, the empty list for a kind without
    any. *)
Definition snapshot (kinds : gset string)
    (agg : gmap string (list ContextEntry))
  : gmap string (list ContextEntry) :=
  map_imap (fun kind _ => Some (entries kind agg)) (gset_to_gmap tt kinds).

(** Modelled from the spec: the aggregator of the backend, whose code is
    not among the sources, after the given completions were recorded in
    this order, starting with none. *)
Definition recorded (completions : list (string * ContextEntry))
  : gmap string (list ContextEntry) :=
  foldl (fun agg completion => record completion.1 completion.2 agg)
    empty completions.

(** The entries of a kind among the completions, in their order. *)
Definition of_kind (kind : string)
    (completions : list (string * ContextEntry)) : list ContextEntry :=
  (filter (fun completion => completion.1 = kind) completions).*2.

End Entries.

End Aggregator.

(** * Properties *)

(** ** Storage services *)

(** *** Searches whose callback may throw *)

Section TrySearch.
Context {A : Type} (p : A -> Try bool).

(** The elements the callback returns false for are passed over. *)
Lemma try_findIndex_skip (l1 l2 : list A) :
  Forall (fun b => p b = Ok false) l1 ->
  try_findIndex p (l1 ++ l2)
  = match try_findIndex p l2 with
    | Ok index => Ok ((fun i => length l1 + i) <$> index)
    | Throws => Throws
    end.
Proof.
  induction l1 as [|x l1 IH]; intros Hl1; simpl.
  - by destruct (try_findIndex p l2) as [[i|]|].
  - inversion Hl1 as [|? ? Hx Hl1']; subst. rewrite Hx, IH by done.
    by destruct (try_findIndex p l2) as [[i|]|].
Qed.

Lemma try_find_skip (l1 l2 : list A) :
  Forall (fun b => p b = Ok false) l1 ->
  try_find p (l1 ++ l2) = try_find p l2.
Proof.
  induction l1 as [|x l1 IH]; intros Hl1; simpl; [done|].
  inversion Hl1 as [|? ? Hx Hl1']; subst. by rewrite Hx, IH.
Qed.

(** [find] gives the element at the index [findIndex] gives. *)
Lemma try_find_index (l : list A) :
  try_find p l
  = match try_findIndex p l with
    | Ok (Some i) => Ok (l !! i)
    | Ok None => Ok None
    | Throws => Throws
    end.
Proof.
  induction l as [|x l IH]; simpl; [done|].
  destruct (p x) as [[|]|]; try done. rewrite IH.
  by destruct (try_findIndex p l) as [[i|]|].
Qed.

(** What the search meets first decides it. *)
Lemma try_search_miss (l : list A) :
  Forall (fun b => p b = Ok false) l ->
  try_findIndex p l = Ok None /\ try_find p l = Ok None.
Proof.
  intros Hl. rewrite <- (app_nil_r l).
  by rewrite try_findIndex_skip, try_find_skip.
Qed.

Lemma try_search_hit (l : list A) (i : nat) (a : A) :
  l !! i = Some a -> p a = Ok true ->
  Forall (fun b => p b = Ok false) (take i l) ->
  try_findIndex p l = Ok (Some i) /\ try_find p l = Ok (Some a).
Proof.
  intros Hi Ha Hbefore. rewrite <- (take_drop_middle l i a Hi).
  rewrite try_findIndex_skip, try_find_skip by done. simpl. rewrite Ha.
  simpl. rewrite length_take_le, Nat.add_0_r; [done|].
  apply lookup_lt_Some in Hi. lia.
Qed.

Lemma try_search_throw (l : list A) (i : nat) (a : A) :
  l !! i = Some a -> p a = Throws ->
  Forall (fun b => p b = Ok false) (take i l) ->
  try_findIndex p l = Throws /\ try_find p l = Throws.
Proof.
  intros Hi Ha Hbefore. rewrite <- (take_drop_middle l i a Hi).
  rewrite try_findIndex_skip, try_find_skip by done. simpl. by rewrite Ha.
Qed.

(** And the other way round. *)
Lemma try_findIndex_inv (l : list A) :
  match try_findIndex p l with
  | Ok (Some i) =>
      exists a, l !! i = Some a /\ p a = Ok true
                /\ Forall (fun b => p b = Ok false) (take i l)
  | Ok None => Forall (fun b => p b = Ok false) l
  | Throws =>
      exists i a, l !! i = Some a /\ p a = Throws
                  /\ Forall (fun b => p b = Ok false) (take i l)
  end.
Proof.
  induction l as [|x l IH]; simpl; [done|].
  destruct (p x) as [[|]|] eqn:Hx.
  - exists x. by repeat split.
  - destruct (try_findIndex p l) as [[i|]|]; simpl.
    + destruct IH as (a & Ha & Hpa & Hbefore). exists a.
      repeat split; try done. simpl. by constructor.
    + by constructor.
    + destruct IH as (i & a & Ha & Hpa & Hbefore). exists (S i), a.
      repeat split; try done. simpl. by constructor.
  - exists 0, x. by repeat split.
Qed.

(** A search that is decided in the array is not changed by what is
    pushed after it. *)
Lemma try_findIndex_app (l1 l2 : list A) :
  try_findIndex p (l1 ++ l2)
  = match try_findIndex p l1 with
    | Ok None =>
        match try_findIndex p l2 with
        | Ok index => Ok ((fun i => length l1 + i) <$> index)
        | Throws => Throws
        end
    | decided => decided
    end.
Proof.
  induction l1 as [|x l1 IH]; simpl.
  - by destruct (try_findIndex p l2) as [[i|]|].
  - destruct (p x) as [[|]|]; try done. rewrite IH.
    destruct (try_findIndex p l1) as [[i|]|]; try done.
    by destruct (try_findIndex p l2) as [[i|]|].
Qed.

Lemma try_find_app (l1 l2 : list A) :
  try_find p (l1 ++ l2)
  = match try_find p l1 with
    | Ok None => try_find p l2
    | decided => decided
    end.
Proof.
  induction l1 as [|x l1 IH]; simpl; [done|].
  by destruct (p x) as [[|]|].
Qed.

(** Replacing the element the search stops at. *)
Lemma try_search_insert_hit (l : list A) (i : nat) (a x : A) :
  l !! i = Some a -> p x = Ok true ->
  Forall (fun b => p b = Ok false) (take i l) ->
  try_findIndex p (<[i := x]> l) = Ok (Some i)
  /\ try_find p (<[i := x]> l) = Ok (Some x).
Proof.
  intros Hi Hx Hbefore. apply try_search_hit; [|done|].
  - apply list_lookup_insert_eq. by apply lookup_lt_Some in Hi.
  - by rewrite take_insert_ge.
Qed.

Lemma try_find_insert_miss (l : list A) (i : nat) (a x : A) :
  l !! i = Some a -> p x = Ok false ->
  Forall (fun b => p b = Ok false) (take i l) ->
  try_find p (<[i := x]> l) = try_find p (delete i l).
Proof.
  intros Hi Hx Hbefore.
  rewrite insert_take_drop by (by apply lookup_lt_Some in Hi).
  rewrite delete_take_drop.
  rewrite !try_find_skip by done. simpl. by rewrite Hx.
Qed.
End TrySearch.

(** The search sees the array through the callback only. *)
Lemma try_findIndex_fmap {A B : Type} (p : A -> Try bool) (f : B -> A)
    (l : list B) :
  try_findIndex p (f <$> l) = try_findIndex (fun b => p (f b)) l.
Proof.
  induction l as [|x l IH]; simpl; [done|]. rewrite <- IH.
  by destruct (p (f x)) as [[|]|].
Qed.

Lemma try_find_fmap {A B : Type} (p : A -> Try bool) (f : B -> A)
    (l : list B) :
  try_find p (f <$> l)
  = match try_find (fun b => p (f b)) l with
    | Ok found => Ok (f <$> found)
    | Throws => Throws
    end.
Proof.
  induction l as [|x l IH]; [done|].
  cbn [fmap list_fmap try_find]. by destruct (p (f x)) as [[|]|].
Qed.

(** Only an object passes the test of the callback. *)
Lemma id_matches_object {O : Type} (fields : O -> JsObject) (id : string)
    (a : Stored O) :
  id_matches fields id a = Ok true ->
  exists object, a = SObj object /\ id_is id (fields object) = true.
Proof.
  destruct a; simpl; try discriminate. intros [= Hid]. eauto.
Qed.

Lemma try_findIndex_object {O : Type} (fields : O -> JsObject) (id : string)
    (l : list (Stored O)) (index : nat) :
  try_findIndex (id_matches fields id) l = Ok (Some index) ->
  exists object,
    l !! index = Some (SObj object) /\ id_is id (fields object) = true
    /\ Forall (fun b => id_matches fields id b = Ok false) (take index l).
Proof.
  intros Hi. pose proof (try_findIndex_inv (id_matches fields id) l) as Hinv.
  rewrite Hi in Hinv. destruct Hinv as (a & Ha & Hpa & Hbefore).
  apply id_matches_object in Hpa as (object & -> & Hid). eauto.
Qed.

Lemma skips_spec (id : string) (a : Stored JsObject) :
  skips id a = true <-> id_matches by_value id a = Ok false.
Proof.
  destruct a; simpl; try (split; (done || discriminate)).
  unfold by_value. destruct (id_is id object); simpl; split;
    (done || discriminate).
Qed.

Lemma skips_Forall (id : string) (l : list (Stored JsObject)) :
  forallb (skips id) l = true <->
  Forall (fun b => id_matches by_value id b = Ok false) l.
Proof.
  induction l as [|x l IH]; simpl; [split; [by constructor|done]|].
  rewrite andb_true_iff, IH, skips_spec. split.
  - intros [Hx Hl]. by constructor.
  - intros H. by inversion H.
Qed.

(** The three ways the search for an id in [agentsStorage] ends. *)
Lemma agents_search_miss (id : string) (l : list (Stored JsObject)) :
  forallb (skips id) l = true ->
  try_findIndex (id_matches by_value id) l = Ok None
  /\ try_find (id_matches by_value id) l = Ok None.
Proof. intros Hl. by apply try_search_miss, skips_Forall. Qed.

Lemma agents_search_hit (id : string) (l : list (Stored JsObject))
    (index : nat) (a : JsObject) :
  l !! index = Some (SObj a) -> id_is id a = true ->
  forallb (skips id) (take index l) = true ->
  try_findIndex (id_matches by_value id) l = Ok (Some index)
  /\ try_find (id_matches by_value id) l = Ok (Some (SObj a)).
Proof.
  intros Hi Ha Hbefore. apply try_search_hit; [done| |by apply skips_Forall].
  simpl. by rewrite <- Ha.
Qed.

Lemma agents_search_null (id : string) (l : list (Stored JsObject))
    (index : nat) :
  l !! index = Some SNull ->
  forallb (skips id) (take index l) = true ->
  try_findIndex (id_matches by_value id) l = Throws
  /\ try_find (id_matches by_value id) l = Throws.
Proof.
  intros Hi Hbefore.
  by apply (try_search_throw _ _ index SNull); [| |apply skips_Forall].
Qed.

(** When some record has the id, the search is decided in the array: it
    stops at the first such record or at a [null] before it. *)
Lemma agent_present_decided (id : string) (l : list (Stored JsObject)) :
  agent_present id l = true ->
  try_findIndex (id_matches by_value id) l <> Ok None.
Proof.
  intros Hp Hnone.
  pose proof (try_findIndex_inv (id_matches by_value id) l) as Hinv.
  rewrite Hnone in Hinv. unfold agent_present in Hp.
  apply existsb_exists in Hp as (a & Ha & Hid).
  apply list_elem_of_In in Ha. rewrite Forall_forall in Hinv.
  specialize (Hinv a Ha). destruct a; try discriminate.
  simpl in Hinv. unfold by_value in Hinv. congruence.
Qed.

(** X23. The frame of [agentsService.delete].  When the search stops at
    a record with the id, the call resolves, that record gets
    [status = 'ARCHIVED'] and keeps every other field, and every other
    element is untouched; when the search passes over every element, the
    call rejects with "Agent not found"; when it meets [null] first, the
    call rejects with a TypeError.  In the last two cases the array is
    unchanged, and in all three it keeps its length. *)
Theorem agentsService_delete_cases
    (id : string) (agentsStorage : list (Stored JsObject)) :
  (forall index a,
     agentsStorage !! index = Some (SObj a) -> id_is id a = true ->
     forallb (skips id) (take index agentsStorage) = true ->
     exists a',
       agentsService_delete id agentsStorage
       = (<[index := SObj a']> agentsStorage, Resolved tt)
       /\ a' !! "status" = Some (JStr "ARCHIVED")
       /\ (forall field, field <> "status" -> a' !! field = a !! field)
       /\ (forall j, j <> index ->
             <[index := SObj a']> agentsStorage !! j = agentsStorage !! j))
  /\ (forallb (skips id) agentsStorage = true ->
      agentsService_delete id agentsStorage
      = (agentsStorage, Rejected "Agent not found"))
  /\ (forall index,
        agentsStorage !! index = Some SNull ->
        forallb (skips id) (take index agentsStorage) = true ->
        agentsService_delete id agentsStorage
        = (agentsStorage, RejectedTypeError))
  /\ length (agentsService_delete id agentsStorage).1 = length agentsStorage.
Proof.
  unfold agentsService_delete. split; [|split; [|split]].
  - intros index a Hi Ha Hbefore.
    destruct (agents_search_hit id _ index a Hi Ha Hbefore) as [-> _].
    rewrite Hi. exists (<["status" := JStr "ARCHIVED"]> a).
    split; [done|]. split; [apply lookup_insert_eq|]. split.
    + intros field Hf. apply lookup_insert_ne. congruence.
    + intros j Hj. apply list_lookup_insert_ne. congruence.
  - intros Hmiss. by destruct (agents_search_miss id _ Hmiss) as [-> _].
  - intros index Hi Hbefore.
    by destruct (agents_search_null id _ index Hi Hbefore) as [-> _].
  - destruct (try_findIndex _ agentsStorage) as [[index|]|]; try done.
    destruct (agentsStorage !! index) as [[]|]; try done.
    apply length_insert.
Qed.

Lemma agentsService_delete_cases_witness :
  agentsService_delete "agent-9" sample_store
  = (sample_store, Rejected "Agent not found")
  /\ exists archived,
       agentsService_delete "agent-2" sample_store
       = (<[1 := SObj archived]> sample_store, Resolved tt)
       /\ archived !! "status" = Some (JStr "ARCHIVED").
Proof.
  split.
  - apply (proj1 (proj2 (agentsService_delete_cases "agent-9" sample_store))).
    reflexivity.
  - destruct (proj1 (agentsService_delete_cases "agent-2" sample_store)
                1 (sample_agent "agent-2" "ACTIVE") eq_refl eq_refl eq_refl)
      as (archived & Hcall & Hstatus & _).
    exists archived. split; [exact Hcall | exact Hstatus].
Defined.

(** C10 fails on the code.  The array holds [null] after a [create] that
    the backend answered with the body [null]; a second [create] then
    stores a record with the id "agent-1".  [delete] of that id, which is
    present, does not archive the record: the callback of [findIndex]
    reads [id] of the [null] element first and throws, the call rejects
    with a TypeError and the array is as it was. *)
Lemma agentsService_delete_null_entry :
  store_with_null = [SNull; SObj (newAgent 1 "t" "t" ∅)]
  /\ newAgent 1 "t" "t" ∅ !! "id" = Some (JStr "agent-1")
  /\ agent_present "agent-1" store_with_null = true
  /\ agentsService_delete "agent-1" store_with_null
     = (store_with_null, RejectedTypeError)
  /\ agentsService_get "agent-1" store_with_null = RejectedTypeError
  /\ agentsService_delete "agent-2" store_with_null
     = (store_with_null, RejectedTypeError).
Proof. repeat split; vm_compute; reflexivity. Qed.

Section ArraySearch.
Context {A : Type} (p : A -> bool).

Lemma findIndex_None (l : list A) :
  findIndex p l = None <-> existsb p l = false.
Proof.
  induction l as [|x l IH]; simpl; [tauto|].
  destruct (p x); simpl; [split; discriminate|].
  rewrite <- IH. destruct (findIndex p l); simpl; split; congruence.
Qed.

Lemma findIndex_Some (l : list A) (i : nat) :
  findIndex p l = Some i ->
  exists a, l !! i = Some a /\ p a = true /\
    forall j b, j < i -> l !! j = Some b -> p b = false.
Proof.
  revert i. induction l as [|x l IH]; simpl; intros i Hi; [discriminate|].
  destruct (p x) eqn:Hx.
  - injection Hi as <-. exists x. repeat split; auto. intros j b Hj. lia.
  - destruct (findIndex p l) as [k|] eqn:Hk; simpl in Hi; [|discriminate].
    injection Hi as <-. destruct (IH k eq_refl) as (a & Ha & Hpa & Hbefore).
    exists a. repeat split; auto.
    intros [|j] b Hj Hb; simpl in Hb; [congruence|].
    apply (Hbefore j); [lia|done].
Qed.

Lemma find_findIndex (l : list A) :
  find p l = match findIndex p l with
             | Some i => l !! i
             | None => None
             end.
Proof.
  induction l as [|x l IH]; simpl; [done|].
  destruct (p x); [done|]. rewrite IH.
  destruct (findIndex p l); done.
Qed.
End ArraySearch.

(** C9 (as amended). Looking up an id that is not stored does not fail:
    [get] resolves with [undefined].  For the simulation store this holds
    of every id no record has, and for an id some record has [get]
    resolves with the first record carrying it (and so with its status).
    For the agent store, whose elements need not be objects, the same
    holds as far as the search gets: when it passes over every element
    [get] resolves with [undefined], and when the first element it does
    not pass over is a record with the id [get] resolves with that
    record; [get] never rejects with an error of its own, and it rejects
    at all only when the search meets a [null] element first. *)
Theorem service_get_resolves_unknown_id
    (id : string) (simulationsStorage : list JsObject)
    (agentsStorage : list (Stored JsObject)) :
  (forall msg, simulationsService_get id simulationsStorage <> Rejected msg)
  /\ simulationsService_get id simulationsStorage <> RejectedTypeError
  /\ (id_present id simulationsStorage = false ->
      simulationsService_get id simulationsStorage = Resolved None)
  /\ (id_present id simulationsStorage = true ->
      exists index a,
        simulationsStorage !! index = Some a /\ id_is id a = true /\
        (forall j b, j < index -> simulationsStorage !! j = Some b ->
                     id_is id b = false) /\
        simulationsService_get id simulationsStorage = Resolved (Some a))
  /\ (forall msg, agentsService_get id agentsStorage <> Rejected msg)
  /\ (forallb (skips id) agentsStorage = true ->
      agentsService_get id agentsStorage = Resolved None)
  /\ (forall index a,
        agentsStorage !! index = Some (SObj a) -> id_is id a = true ->
        forallb (skips id) (take index agentsStorage) = true ->
        agentsService_get id agentsStorage = Resolved (Some (SObj a)))
  /\ (agentsService_get id agentsStorage = RejectedTypeError <->
      exists index,
        agentsStorage !! index = Some SNull
        /\ forallb (skips id) (take index agentsStorage) = true).
Proof.
  unfold simulationsService_get, id_present.
  split; [discriminate|]. split; [discriminate|]. split; [|split].
  - intros Hp. apply findIndex_None in Hp. by rewrite find_findIndex, Hp.
  - intros Hp. rewrite find_findIndex.
    destruct (findIndex (id_is id) simulationsStorage) as [index|] eqn:Hi.
    + destruct (findIndex_Some _ _ _ Hi) as (a & Ha & Hid & Hfirst).
      exists index, a. rewrite Ha. auto.
    + apply findIndex_None in Hi. congruence.
  - unfold agentsService_get. split; [|split; [|split]].
    + intros msg. by destruct (try_find _ agentsStorage).
    + intros Hmiss. by destruct (agents_search_miss id _ Hmiss) as [_ ->].
    + intros index a Hi Ha Hbefore.
      by destruct (agents_search_hit id _ index a Hi Ha Hbefore) as [_ ->].
    + split.
      * intros Hget. rewrite try_find_index in Hget.
        pose proof (try_findIndex_inv (id_matches by_value id) agentsStorage)
          as Hinv.
        destruct (try_findIndex _ agentsStorage) as [[i|]|]; try done.
        destruct Hinv as (i & a & Ha & Hpa & Hbefore).
        exists i. destruct a; try discriminate.
        split; [done|]. by apply skips_Forall.
      * intros (index & Hi & Hbefore).
        by destruct (agents_search_null id _ index Hi Hbefore) as [_ ->].
Qed.

Lemma service_get_witness :
  agentsService_get "agent-9" sample_store = Resolved None
  /\ agentsService_get "agent-1" sample_store
     = Resolved (Some (SObj (sample_agent "agent-1" "ACTIVE")))
  /\ simulationsService_get "sim-1" [] = Resolved None.
Proof.
  split; [|split].
  - apply (proj1 (proj2 (proj2 (proj2 (proj2 (proj2
             (service_get_resolves_unknown_id "agent-9" [] sample_store))))))).
    reflexivity.
  - apply (proj1 (proj2 (proj2 (proj2 (proj2 (proj2 (proj2
             (service_get_resolves_unknown_id "agent-1" [] sample_store)))))))
             0 (sample_agent "agent-1" "ACTIVE")); reflexivity.
  - apply (proj1 (proj2 (proj2
             (service_get_resolves_unknown_id "sim-1" [] sample_store)))).
    reflexivity.
Defined.

(** C9 as stated fails: looking up an id that is in neither store does not
    report a failure, the promise is fulfilled with [undefined]. *)
Lemma service_get_unknown_id_not_rejected :
  agent_present "agent-9" sample_store = false
  /\ agentsService_get "agent-9" sample_store = Resolved None
  /\ id_present "sim-1" [] = false
  /\ simulationsService_get "sim-1" [] = Resolved None.
Proof. repeat split; reflexivity. Qed.

(** ** The context aggregator *)

Lemma most_recent_snoc {A : Type} (n : nat) (l : list A) (x : A) :
  most_recent (S n) (l ++ [x])
  = (if Nat.leb (S n) (length (most_recent (S n) l))
     then tl (most_recent (S n) l) else most_recent (S n) l) ++ [x].
Proof.
  unfold most_recent. rewrite length_drop, length_app. cbn [length].
  destruct (Nat.leb_spec (S n) (length l - (length l - S n))) as [Hle|Hlt].
  - replace (tl (drop (length l - S n) l))
      with (drop 1 (drop (length l - S n) l))
      by (by destruct (drop (length l - S n) l)).
    rewrite drop_drop, <- drop_app_le by lia. f_equal. lia.
  - replace (length l - S n) with 0 by lia.
    replace (length l + 1 - S n) with 0 by lia. by rewrite !drop_0.
Qed.

Lemma most_recent_length {A : Type} (n : nat) (l : list A) :
  length (most_recent n l) <= n.
Proof. unfold most_recent. rewrite length_drop. lia. Qed.

Section AggregatorEntries.

Context {ContextEntry : Type}.

Implicit Types (agg : gmap string (list ContextEntry)).

Lemma entries_record_same (kind : string) (entry : ContextEntry) agg :
  Aggregator.entries kind (Aggregator.record kind entry agg)
  = (if Nat.leb Aggregator.N (length (Aggregator.entries kind agg))
     then tl (Aggregator.entries kind agg)
     else Aggregator.entries kind agg) ++ [entry].
Proof.
  unfold Aggregator.entries at 1. unfold Aggregator.record.
  by rewrite lookup_insert_eq.
Qed.

Lemma entries_record_other (kind other : string) (entry : ContextEntry) agg :
  other <> kind ->
  Aggregator.entries other (Aggregator.record kind entry agg)
  = Aggregator.entries other agg.
Proof.
  intros Hne. unfold Aggregator.record, Aggregator.entries.
  by rewrite lookup_insert_ne.
Qed.

(** What the aggregator holds for a kind is the last [N] of what was
    recorded for it. *)
Lemma entries_recorded (completions : list (string * ContextEntry))
    (kind : string) :
  Aggregator.entries kind (Aggregator.recorded completions)
  = most_recent Aggregator.N (Aggregator.of_kind kind completions).
Proof.
  unfold Aggregator.recorded, Aggregator.of_kind.
  induction completions as [|[k entry] completions IH] using rev_ind.
  - done.
  - rewrite foldl_app, filter_app, fmap_app. simpl.
    destruct (decide (k = kind)) as [->|Hne].
    + rewrite entries_record_same, IH.
      rewrite filter_cons_True by done. simpl.
      unfold Aggregator.N. by rewrite most_recent_snoc.
    + rewrite entries_record_other by done.
      rewrite filter_cons_False by done. simpl.
      by rewrite app_nil_r.
Qed.

(** C6. The context aggregator keeps, for every kind, the 10 most recent
    entries in the order they were recorded: after any sequence of
    completions the list of a kind is the last 10 of what was recorded
    for it, so it never has more than 10 entries; recording one more
    entry when it has 10 drops exactly the oldest and puts the new one
    last, with fewer than 10 nothing is dropped, and the lists of the
    other kinds are as they were.  A snapshot gives these lists for the
    kinds asked for. *)
Theorem aggregator_keeps_ten_most_recent
    (completions : list (string * ContextEntry)) (kind : string)
    (entry : ContextEntry) :
  let agg := Aggregator.recorded completions in
  Aggregator.entries kind agg
  = most_recent 10 (Aggregator.of_kind kind completions)
  /\ length (Aggregator.entries kind agg) <= 10
  /\ (length (Aggregator.entries kind agg) = 10 ->
      Aggregator.entries kind (Aggregator.record kind entry agg)
      = tl (Aggregator.entries kind agg) ++ [entry])
  /\ (length (Aggregator.entries kind agg) < 10 ->
      Aggregator.entries kind (Aggregator.record kind entry agg)
      = Aggregator.entries kind agg ++ [entry])
  /\ (forall other,
        other <> kind ->
        Aggregator.entries other (Aggregator.record kind entry agg)
        = Aggregator.entries other agg)
  /\ (forall kinds,
        Aggregator.snapshot kinds agg !! kind
        = if decide (kind ∈ kinds)
          then Some (Aggregator.entries kind agg) else None).
Proof.
  cbv zeta. split; [apply entries_recorded|].
  split; [rewrite entries_recorded; apply most_recent_length|].
  split; [|split; [|split]].
  - intros Hfull. rewrite entries_record_same, Hfull. done.
  - intros Hroom. rewrite entries_record_same.
    by destruct (Nat.leb_spec Aggregator.N
                   (length (Aggregator.entries kind
                              (Aggregator.recorded completions))));
      [unfold Aggregator.N in *; lia|].
  - intros other Hne. by apply entries_record_other.
  - intros kinds. unfold Aggregator.snapshot.
    rewrite map_lookup_imap, lookup_gset_to_gmap.
    by destruct (decide (kind ∈ kinds)); simplify_option_eq.
Qed.

End AggregatorEntries.

(** Eleven completions of one kind, with one of another kind among them:
    the first is gone, the other ten are held in their order. *)
Lemma aggregator_eleventh_evicts_first :
  Aggregator.entries "debate"
    (Aggregator.recorded
       [("debate", 1); ("debate", 2); ("debate", 3); ("simulation", 0);
        ("debate", 4); ("debate", 5); ("debate", 6); ("debate", 7);
        ("debate", 8); ("debate", 9); ("debate", 10); ("debate", 11)])
  = [2; 3; 4; 5; 6; 7; 8; 9; 10; 11].
Proof. vm_compute. reflexivity. Qed.

(** ** Workflow runner: state updates *)

Lemma append_cons (ch : Ascii.ascii) (a b : string) :
  String ch a +:+ b = String ch (a +:+ b).
Proof. reflexivity. Qed.

Lemma append_assoc (a b c : string) : (a +:+ b) +:+ c = a +:+ (b +:+ c).
Proof.
  induction a as [|ch a IH]; [reflexivity|].
  by rewrite !append_cons, IH.
Qed.

Lemma append_nil_r (a : string) : a +:+ "" = a.
Proof.
  induction a as [|ch a IH]; [reflexivity|].
  by rewrite append_cons, IH.
Qed.

Lemma step_state_with_eq (prev : Steps) (step : WorkflowStep) (x : StepState) :
  step_state (with_step prev step x) step = x.
Proof. by destruct step. Qed.

Lemma step_state_with_ne (prev : Steps) (step other : WorkflowStep)
    (x : StepState) :
  step <> other -> step_state (with_step prev step x) other = step_state prev other.
Proof. by destruct step, other. Qed.

Lemma exec_app (st : State) (tr1 tr2 : list Action) :
  exec st (tr1 ++ tr2) = exec (exec st tr1) tr2.
Proof. apply foldl_app. Qed.

Lemma exec_cons (st : State) (a : Action) (tr : list Action) :
  exec st (a :: tr) = exec (reduce st a) tr.
Proof. done. Qed.

(** An effect changes the state of its target step only. *)
Lemma reduce_other_step (st : State) (a : Action) (step : WorkflowStep) :
  target a <> Some step ->
  step_state (steps (reduce st a)) step = step_state (steps st) step.
Proof.
  destruct a; simpl; intros Hne; try done;
    unfold updateStepStatus, updateStepOutput;
    apply step_state_with_ne; congruence.
Qed.

Lemma exec_other_step (st : State) (tr : list Action) (step : WorkflowStep) :
  Forall (fun a => target a <> Some step) tr ->
  step_state (steps (exec st tr)) step = step_state (steps st) step.
Proof.
  revert st. induction tr as [|a tr IH]; intros st Htr; [done|].
  inversion Htr; subst. rewrite exec_cons, IH by done.
  by apply reduce_other_step.
Qed.

(** ** Token accumulation *)

Lemma deliver_token (step : WorkflowStep) (token : string)
    (msgs : list Message) (fullOutput : string) :
  deliver step fullOutput (MsgToken token :: msgs)
  = ((deliver step (fullOutput +:+ token) msgs).1,
     (onToken step fullOutput token).2
     ++ (deliver step (fullOutput +:+ token) msgs).2).
Proof.
  unfold deliver. simpl.
  by destruct (onmessage (onToken step) (fullOutput +:+ token) msgs).
Qed.

Lemma onToken_streamed (step : WorkflowStep) (fullOutput token : string) :
  Forall (streamed_by step) (onToken step fullOutput token).2.
Proof.
  unfold onToken. simpl. constructor; [left; eauto|].
  destruct step; try done. constructor; [right; eauto | done].
Qed.

Lemma deliver_streamed (step : WorkflowStep) (msgs : list Message)
    (fullOutput : string) :
  Forall (streamed_by step) (deliver step fullOutput msgs).2.
Proof.
  revert fullOutput. induction msgs as [|m msgs IH]; intros fo; [done|].
  destruct m as [agent|token|]; try apply IH.
  rewrite deliver_token. apply Forall_app. split; [|apply IH].
  apply onToken_streamed.
Qed.

Lemma deliver_fullOutput (step : WorkflowStep) (msgs : list Message)
    (fullOutput : string) :
  (deliver step fullOutput msgs).1
  = fullOutput +:+ concat_all (tokens_of msgs).
Proof.
  revert fullOutput. induction msgs as [|m msgs IH]; intros fo.
  - simpl. by rewrite append_nil_r.
  - destruct m as [agent|token|]; try apply IH.
    rewrite deliver_token. cbn [fst]. rewrite IH.
    apply append_assoc.
Qed.

(** What a sequence of streamed effects does to the state of the step:
    only its output grows. *)
Lemma streamed_step_state (step : WorkflowStep) (tr : list Action) (st : State) :
  Forall (streamed_by step) tr ->
  status (step_state (steps (exec st tr)) step)
    = status (step_state (steps st) step)
  /\ result (step_state (steps (exec st tr)) step)
    = result (step_state (steps st) step)
  /\ error (step_state (steps (exec st tr)) step)
    = error (step_state (steps st) step).
Proof.
  revert st. induction tr as [|a tr IH]; intros st Htr; [done|].
  inversion Htr as [|? ? Ha Htr']; subst. rewrite exec_cons.
  destruct (IH (reduce st a) Htr') as (-> & -> & ->).
  destruct Ha as [[token ->]|[text ->]]; simpl; [|done].
  unfold updateStepOutput. by rewrite step_state_with_eq.
Qed.

Lemma onToken_output (step : WorkflowStep) (fullOutput token : string)
    (st : State) :
  output (step_state (steps (exec st (onToken step fullOutput token).2)) step)
  = output (step_state (steps st) step) +:+ token.
Proof.
  unfold onToken. cbn [snd]. rewrite exec_cons.
  assert (output (step_state (steps (reduce st (UpdateStepOutput step token)))
                    step)
          = output (step_state (steps st) step) +:+ token) as <-.
  { simpl. unfold updateStepOutput. by rewrite step_state_with_eq. }
  by destruct step.
Qed.

Lemma deliver_output (step : WorkflowStep) (msgs : list Message)
    (fullOutput : string) (st : State) :
  output (step_state (steps (exec st (deliver step fullOutput msgs).2)) step)
  = output (step_state (steps st) step) +:+ concat_all (tokens_of msgs).
Proof.
  revert fullOutput st.
  induction msgs as [|m msgs IH]; intros fo st.
  - simpl. by rewrite append_nil_r.
  - destruct m as [agent|token|]; try apply IH.
    rewrite deliver_token. cbn [snd]. rewrite exec_app, IH, onToken_output.
    apply append_assoc.
Qed.

(** The shape of one execution. *)
Lemma executeStep_unfold (cid : string) (step : WorkflowStep)
    (request : JsVal) (env : list Connection) :
  executeStep cid step request env
  = mkOutcome
      ([SetCurrentStep (Some step);
        UpdateStepStatus step Status.running None None]
       ++ streamed_effects (cid +:+ "-" +:+ step_name step) step request
            (hd silent_connection env))
      (settlement (hd silent_connection env))
      (tl env).
Proof.
  unfold executeStep, streamAgentExecution, streamed_effects, settlement,
    deliver.
  destruct (hd silent_connection env) as [exception|session]; [done|].
  destruct (onmessage (onToken step) "" (messages session))
    as [final streamed].
  destruct (closing session); simpl; rewrite ?app_nil_r; reflexivity.
Qed.

(** The settlement of a socket is that of its last event. *)
Lemma settlement_socket (step : WorkflowStep) (session : Session) :
  settlement (Socket session) = (settle step (closing session)).2.
Proof. unfold settlement. by destruct (closing session). Qed.

(** Sending the request writes no state. *)
Lemma exec_onopen (request : JsVal) (session : Session) (st : State) :
  exec st (onopen request session) = st.
Proof. unfold onopen. by destruct (opens session). Qed.

Lemma exec_opening (cid : string) (request : JsVal) (session : Session)
    (tr : list Action) (st : State) :
  exec st (OpenSocket cid request :: onopen request session ++ tr)
  = exec st tr.
Proof. by rewrite exec_cons, exec_app, exec_onopen. Qed.

Lemma settle_output (step : WorkflowStep) (c : Closing) (st : State) :
  output (step_state (steps (exec st (settle step c).1)) step)
  = output (step_state (steps st) step).
Proof.
  destruct c; simpl; unfold updateStepStatus;
    by rewrite ?step_state_with_eq.
Qed.

(** C3 (as amended). The tokens a task execution delivers are accumulated
    in delivery order.  Each token is appended at the end of the step's
    output buffer; the subscriber-side [fullOutput], which starts empty at
    every execution, is exactly the concatenation of the delivered tokens;
    after the execution the step's buffer is what it held before followed
    by that same concatenation - the buffer is not cleared when a step is
    executed again - so it is exactly the concatenation when it was empty
    before, as for the first execution of a step of a freshly mounted
    component. *)
Theorem tokens_accumulate_in_delivery_order
    (cid : string) (step : WorkflowStep) (request : JsVal)
    (session : Session) (env : list Connection) (st : State)
    (prev : Steps) (token : string) :
  output (step_state (updateStepOutput step token prev) step)
    = output (step_state prev step) +:+ token
  /\ (deliver step "" (messages session)).1
    = concat_all (tokens_of (messages session))
  /\ output (step_state
       (steps (exec st (effects (executeStep cid step request
                                   (Socket session :: env))))) step)
    = output (step_state (steps st) step)
      +:+ concat_all (tokens_of (messages session))
  /\ output (step_state
       (steps (exec initialState (effects (executeStep cid step request
                                             (Socket session :: env))))) step)
    = concat_all (tokens_of (messages session)).
Proof.
  assert (forall st',
            output (step_state
              (steps (exec st' (effects (executeStep cid step request
                                           (Socket session :: env))))) step)
            = output (step_state (steps st') step)
              +:+ concat_all (tokens_of (messages session))) as Hexec.
  { intros st'. rewrite executeStep_unfold. cbn [effects hd streamed_effects].
    rewrite exec_app, exec_opening, exec_app, settle_output, deliver_output.
    simpl. unfold updateStepStatus. by rewrite step_state_with_eq. }
  split; [|split; [|split]].
  - unfold updateStepOutput. by rewrite step_state_with_eq.
  - by rewrite deliver_fullOutput.
  - apply Hexec.
  - rewrite Hexec. by destruct step.
Qed.

(** C3 as stated fails: the second execution of the simulation step (the
    third connection of the run) delivers the single token "c", and the
    output buffer of the step then holds "bc", not the concatenation of
    the tokens of that execution. *)
Lemma output_buffer_kept_across_executions :
  tokens_of (delivered (completes ["c"] JNull)) = ["c"]
  /\ output
       (step_state
          (steps (exec initialState
                    (take 22 (effects
                       (runWorkflow (sample_inputs ["traffic"; "housing"])
                          [completes ["a"] JNull; completes ["b"] JNull;
                           completes ["c"] JNull])))))
          simulation) = "bc"
  /\ "bc" <> concat_all ["c"].
Proof. split; [reflexivity | split; [reflexivity | discriminate]]. Qed.

(** ** Sequencing of asynchronous computations *)

Lemma outcome_eta {A : Type} (o : Outcome A) :
  mkOutcome (effects o) (completion o) (unread o) = o.
Proof. by destruct o. Qed.

Lemma bind_unfold {A B : Type} (m : Async A) (k : A -> Async B)
    (env : list Connection) :
  (m ≫= k) env
  = match completion (m env) with
    | Returned a =>
        mkOutcome (effects (m env) ++ effects (k a (unread (m env))))
          (completion (k a (unread (m env))))
          (unread (k a (unread (m env))))
    | Thrown e => mkOutcome (effects (m env)) (Thrown e) (unread (m env))
    | Suspended => mkOutcome (effects (m env)) Suspended (unread (m env))
    end.
Proof. reflexivity. Qed.

Lemma bind_ext {A B : Type} (m : Async A) (k k' : A -> Async B)
    (env : list Connection) :
  (forall a env', k a env' = k' a env') -> (m ≫= k) env = (m ≫= k') env.
Proof.
  intros Hk. rewrite !bind_unfold.
  destruct (completion (m env)); try done. by rewrite Hk.
Qed.

Lemma bind_assoc {A B C : Type} (m : Async A) (f : A -> Async B)
    (g : B -> Async C) (env : list Connection) :
  ((m ≫= f) ≫= g) env = (m ≫= (fun a => f a ≫= g)) env.
Proof.
  rewrite (bind_unfold (m ≫= f)), (bind_unfold m (fun a => f a ≫= g)).
  rewrite (bind_unfold m f).
  destruct (completion (m env)) as [a| |]; simpl; try done.
  rewrite bind_unfold.
  destruct (completion (f a (unread (m env)))); simpl; try done.
  by rewrite app_assoc.
Qed.

Lemma ret_bind {A B : Type} (a : A) (k : A -> Async B) (env : list Connection) :
  (mret a ≫= k) env = k a env.
Proof. rewrite bind_unfold. simpl. apply outcome_eta. Qed.

Lemma runPlan_app {A : Type} (cid : string)
    (pl1 pl2 : list (WorkflowStep * JsVal)) (k : Async A) (env : list Connection) :
  runPlan cid (pl1 ++ pl2) k env = runPlan cid pl1 (runPlan cid pl2 k) env.
Proof.
  revert env. induction pl1 as [|[step request] pl1 IH]; intros env; [done|].
  simpl. apply bind_ext. intros _ env'. apply IH.
Qed.

(** The loop over the perspectives is a run of one simulation execution
    per perspective. *)
Lemma for_of_runPlan {A : Type} (inp : Inputs) (l : list string)
    (k : Async A) (env : list Connection) :
  (for_of l (fun perspective =>
     simulationResult ← executeStep (clientId inp) simulation
                          (simulationRequest inp perspective);
     mret tt) ;; k) env
  = runPlan (clientId inp)
      (map (fun perspective => (simulation, simulationRequest inp perspective))
         l) k env.
Proof.
  revert env. induction l as [|perspective l IH]; intros env.
  - simpl. apply ret_bind.
  - simpl. rewrite bind_assoc, bind_assoc. apply bind_ext.
    intros _ env'. rewrite ret_bind. apply IH.
Qed.

(** The [try] block is the run of the plan followed by
    [setCurrentStep(null)]. *)
Lemma workflowSteps_plan (inp : Inputs) (env : list Connection) :
  workflowSteps inp env
  = runPlan (clientId inp) (plan inp) (perform (SetCurrentStep None)) env.
Proof.
  unfold workflowSteps, plan. simpl. apply bind_ext. intros _ env'.
  rewrite runPlan_app. apply for_of_runPlan.
Qed.

Lemma runWorkflow_valid (inp : Inputs) (env : list Connection) :
  falsy (politicianName inp) || falsy (policyGoal inp) || falsy (city inp)
    = false ->
  effects (runWorkflow inp env)
  = SetIsRunning true
    :: effects (workflowSteps inp env)
    ++ epilogue (completion (workflowSteps inp env)).
Proof.
  intros Hvalid. unfold runWorkflow. rewrite Hvalid.
  rewrite bind_unfold. simpl. unfold try_finally, try_catch.
  destruct (completion (workflowSteps inp env)) eqn:Hc; simpl;
    rewrite ?Hc; simpl; rewrite ?Hc; simpl; try done.
  - by rewrite <- app_assoc.
  - by rewrite app_nil_r.
Qed.

(** ** States along a run *)

Section BeforeEach.
Context (R : State -> Action -> Prop).

Lemma before_each_nil (st : State) : before_each R st [].
Proof. intros n a Hn. by rewrite lookup_nil in Hn. Qed.

Lemma before_each_cons (st : State) (a : Action) (tr : list Action) :
  R st a -> before_each R (reduce st a) tr -> before_each R st (a :: tr).
Proof.
  intros Ha Htr [|n] b Hn; simpl in *.
  - by injection Hn as <-.
  - by apply Htr.
Qed.

Lemma before_each_app (st : State) (tr1 tr2 : list Action) :
  before_each R st tr1 -> before_each R (exec st tr1) tr2 ->
  before_each R st (tr1 ++ tr2).
Proof.
  revert st. induction tr1 as [|a tr1 IH]; intros st H1 H2; [done|].
  simpl. apply before_each_cons.
  - by apply (H1 0).
  - apply IH; [|done]. intros n b Hn. by apply (H1 (S n)).
Qed.

Lemma before_each_take (st : State) (tr : list Action) (n : nat) (a : Action) :
  tr !! n = Some a ->
  exec st (take (S n) tr) = reduce (exec st (take n tr)) a.
Proof.
  intros Hn. rewrite (take_S_r _ _ _ Hn), exec_app. done.
Qed.
End BeforeEach.

Lemma before_each_impl (R R' : State -> Action -> Prop) (st : State)
    (tr : list Action) :
  (forall st' a, R st' a -> R' st' a) ->
  before_each R st tr -> before_each R' st tr.
Proof. intros HR Htr n a Hn. apply HR, Htr, Hn. Qed.

(** A property of the states before every effect and of the final state
    holds after every prefix of the run. *)
Lemma at_each_prefix (P : State -> Prop) (st : State) (tr : list Action) :
  before_each (fun st' _ => P st') st tr -> P (exec st tr) ->
  forall n, P (exec st (take n tr)).
Proof.
  intros Hbefore Hfinal n.
  destruct (tr !! n) as [a|] eqn:Hn.
  - apply (Hbefore n a Hn).
  - apply lookup_ge_None in Hn. by rewrite take_ge by lia.
Qed.

Lemma statuses_ext (st : State) (f g : WorkflowStep -> StepStatus) :
  (forall step, f step = g step) -> statuses st f -> statuses st g.
Proof. intros Hfg Hf step. by rewrite <- Hfg. Qed.

Lemma reduce_keeps_status (st : State) (a : Action) (step : WorkflowStep) :
  keeps_status a -> status_of (reduce st a) step = status_of st step.
Proof.
  unfold status_of. destruct a; simpl; try done.
  intros _. unfold updateStepOutput.
  destruct (decide (step0 = step)) as [->|Hne].
  - by rewrite step_state_with_eq.
  - by rewrite step_state_with_ne.
Qed.

Lemma exec_keeps_status (st : State) (tr : list Action) (step : WorkflowStep) :
  Forall keeps_status tr -> status_of (exec st tr) step = status_of st step.
Proof.
  revert st. induction tr as [|a tr IH]; intros st Htr; [done|].
  inversion Htr; subst. rewrite exec_cons, IH by done.
  by apply reduce_keeps_status.
Qed.

Lemma statuses_keep (st : State) (tr : list Action)
    (f : WorkflowStep -> StepStatus) :
  Forall keeps_status tr -> statuses st f -> statuses (exec st tr) f.
Proof. intros Htr Hf step. by rewrite exec_keeps_status. Qed.

Lemma statuses_update (st : State) (step : WorkflowStep) (x : StepStatus)
    (r : option JsVal) (e : option string) (f : WorkflowStep -> StepStatus) :
  statuses st f ->
  statuses (reduce st (UpdateStepStatus step x r e))
    (fun s => if bool_decide (s = step) then x else f s).
Proof.
  intros Hf s. unfold status_of. simpl. unfold updateStepStatus.
  case_bool_decide as Hs.
  - subst. by rewrite step_state_with_eq.
  - rewrite step_state_with_ne by congruence. apply Hf.
Qed.

Lemma streamed_keeps_status (step : WorkflowStep) (tr : list Action) :
  Forall (streamed_by step) tr -> Forall keeps_status tr.
Proof.
  intros Htr. eapply Forall_impl; [exact Htr|].
  intros a [[token ->]|[text ->]]; done.
Qed.

(** ** The executions of a run, one at a time *)

Lemma during_completed (done : list WorkflowStep) (s step : WorkflowStep) :
  during done s Status.completed step = expected (done ++ [s]) step.
Proof.
  unfold during, expected. destruct (decide (step = s)) as [->|Hne].
  - rewrite !bool_decide_true; [done| |done].
    apply elem_of_app. right. by apply list_elem_of_singleton.
  - rewrite (bool_decide_false (step = s)) by done.
    apply (f_equal (fun b : bool => if b then _ else _)).
    apply bool_decide_ext. rewrite elem_of_app, list_elem_of_singleton. tauto.
Qed.

Lemma during_update (done : list WorkflowStep) (s step : WorkflowStep)
    (x y : StepStatus) :
  (if bool_decide (step = s) then y else during done s x step)
  = during done s y step.
Proof. unfold during. by case_bool_decide. Qed.

Lemma Shape_same_statuses (full : list WorkflowStep) (st st' : State) :
  (forall step, status_of st' step = status_of st step) ->
  Shape full st -> Shape full st'.
Proof.
  intros Heq [(done & rest & -> & Hst)|(s & x & Hx & done & rest & -> & Hst)].
  - left. exists done, rest. split; [done|]. intros step. by rewrite Heq.
  - right. exists s, x. split; [done|]. exists done, rest.
    split; [done|]. intros step. by rewrite Heq.
Qed.

(** Effects without a target step are lawful anywhere. *)
Lemma before_each_passive (full : list WorkflowStep) (tr : list Action)
    (st : State) :
  Forall (fun a => target a = None) tr -> Shape full st ->
  before_each (orderly full) st tr /\ Shape full (exec st tr).
Proof.
  revert st. induction tr as [|a tr IH]; intros st Htr Hst.
  - split; [apply before_each_nil | done].
  - inversion Htr as [|? ? Ha Htr']; subst.
    assert (Shape full (reduce st a)) as Hst'.
    { apply (Shape_same_statuses _ st); [|done].
      intros step. apply reduce_keeps_status. by destruct a. }
    destruct (IH _ Htr' Hst') as [Hbefore Hfinal].
    split; [|done]. apply before_each_cons; [|done].
    split; [|done]. by destruct a.
Qed.

Lemma before_each_streamed (full done rest : list WorkflowStep)
    (s : WorkflowStep) (tr : list Action) (st : State) :
  full = done ++ s :: rest ->
  Forall (streamed_by s) tr ->
  statuses st (during done s Status.running) ->
  before_each (orderly full) st tr.
Proof.
  intros Hfull. revert st. induction tr as [|a tr IH]; intros st Htr Hst.
  - apply before_each_nil.
  - inversion Htr as [|? ? Ha Htr']; subst.
    assert (Busy (done ++ s :: rest) Status.running s st) as Hbusy
      by (by exists done, rest).
    apply before_each_cons.
    + split; [|right; exists s, Status.running; auto].
      by destruct Ha as [[token ->]|[text ->]].
    + apply IH; [done|]. intros step.
      rewrite reduce_keeps_status; [apply Hst|].
      by destruct Ha as [[token ->]|[text ->]].
Qed.

(** One execution, started between two executions. *)
Lemma executeStep_orderly (cid : string) (full done rest : list WorkflowStep)
    (s : WorkflowStep) (request : JsVal) (env : list Connection) (st : State) :
  full = done ++ s :: rest ->
  statuses st (expected done) ->
  before_each (orderly full) st (effects (executeStep cid s request env))
  /\ match completion (executeStep cid s request env) with
     | Returned _ =>
         statuses (exec st (effects (executeStep cid s request env)))
           (expected (done ++ [s]))
     | Thrown _ =>
         statuses (exec st (effects (executeStep cid s request env)))
           (during done s Status.error)
         \/ statuses (exec st (effects (executeStep cid s request env)))
              (during done s Status.running)
     | Suspended =>
         statuses (exec st (effects (executeStep cid s request env)))
           (during done s Status.running)
     end.
Proof.
  intros Hfull Hst. rewrite executeStep_unfold. cbn [effects completion].
  set (st2 := reduce (reduce st (SetCurrentStep (Some s)))
                (UpdateStepStatus s Status.running None None)).
  assert (statuses st2 (during done s Status.running)) as Hst2.
  { unfold st2. intros step.
    rewrite (statuses_update _ s Status.running None None (expected done));
      [done|].
    intros step'. by rewrite reduce_keeps_status. }
  assert (Idle full st) as Hidle by (exists done, (s :: rest); auto).
  assert (forall st', statuses st' (during done s Status.running) ->
            Busy full Status.running s st') as Hbusy
    by (intros st' Hst'; by exists done, rest).
  assert (forall st', statuses st' (during done s Status.running) ->
            Shape full st') as Hshape
    by (intros st' Hst'; right; exists s, Status.running; auto).
  assert (before_each (orderly full) st
            [SetCurrentStep (Some s);
             UpdateStepStatus s Status.running None None]) as Hstart.
  { apply before_each_cons; [split; [done|by left]|].
    apply before_each_cons; [|apply before_each_nil].
    split; [|left].
    - cbn [lawful]. repeat split; try done. exists done, rest. split; [done|].
      intros step. by rewrite reduce_keeps_status.
    - destruct Hidle as (d & r & -> & Hd). exists d, r. split; [done|].
      intros step. by rewrite reduce_keeps_status. }
  destruct (hd silent_connection env) as [exception|session];
    cbn [streamed_effects settlement].
  { rewrite app_nil_r. split; [done|]. by right. }
  set (streamed := (deliver s "" (messages session)).2).
  assert (Forall (streamed_by s) streamed) as Hstreamed
    by apply deliver_streamed.
  assert (statuses (exec st2 streamed) (during done s Status.running)) as Hst3.
  { apply statuses_keep; [by eapply streamed_keeps_status|done]. }
  split.
  - apply before_each_app; [done|].
    change (exec st [SetCurrentStep (Some s);
                     UpdateStepStatus s Status.running None None]) with st2.
    apply before_each_cons; [split; simpl; eauto|].
    change (reduce st2 (OpenSocket (cid +:+ "-" +:+ step_name s) request))
      with st2.
    apply before_each_app.
    { unfold onopen. destruct (opens session); [|apply before_each_nil].
      apply before_each_cons; [split; simpl; eauto|apply before_each_nil]. }
    rewrite exec_onopen.
    apply before_each_app; [by eapply before_each_streamed|].
    destruct (closing session) as [r|e| |]; simpl.
    + apply before_each_cons; [split; simpl; eauto|].
      apply before_each_cons; [|apply before_each_nil].
      split; [done|]. left. exists (done ++ [s]), rest.
      split; [by rewrite <- app_assoc|].
      eapply statuses_ext; [apply during_completed|].
      eapply statuses_ext; [intros; apply during_update|].
      by apply statuses_update.
    + apply before_each_cons; [split; simpl; eauto|].
      apply before_each_cons; [|apply before_each_nil].
      split; [done|]. right. exists s, Status.error. split; [auto|].
      exists done, rest. split; [done|].
      eapply statuses_ext; [intros; apply during_update|].
      by apply statuses_update.
    + apply before_each_cons; [split; simpl; eauto|apply before_each_nil].
    + apply before_each_nil.
  - rewrite exec_app.
    change (exec st [SetCurrentStep (Some s);
                     UpdateStepStatus s Status.running None None]) with st2.
    rewrite exec_opening, exec_app. fold streamed.
    destruct (closing session) as [r|e| |]; simpl.
    + eapply statuses_ext; [apply during_completed|].
      eapply statuses_ext; [intros; apply during_update|].
      by apply statuses_update.
    + left. eapply statuses_ext; [intros; apply during_update|].
      by apply statuses_update.
    + left. eapply statuses_ext; [intros; apply during_update|].
      by apply statuses_update.
    + done.
Qed.

Lemma expected_nil (st : State) :
  (forall step, status_of st step = Status.pending) ->
  statuses st (expected []).
Proof.
  intros Hst step. rewrite Hst. unfold expected.
  rewrite bool_decide_false; [done|]. apply not_elem_of_nil.
Qed.

(** A run of a plan, started between two executions. *)
Lemma runPlan_orderly (cid : string) (full : list WorkflowStep)
    (pl : list (WorkflowStep * JsVal)) (done : list WorkflowStep)
    (st : State) (env : list Connection) (k : Async unit) :
  full = done ++ map fst pl ->
  statuses st (expected done) ->
  (forall env', Forall (fun a => target a = None) (effects (k env'))) ->
  before_each (orderly full) st (effects (runPlan cid pl k env))
  /\ Shape full (exec st (effects (runPlan cid pl k env))).
Proof.
  intros Hfull Hst Hk. revert done st env Hfull Hst.
  induction pl as [|[s request] pl IH]; intros done st env Hfull Hst.
  - simpl. apply before_each_passive; [apply Hk|].
    left. exists done, []. by split.
  - simpl in Hfull. simpl runPlan. rewrite bind_unfold.
    destruct (executeStep_orderly cid full done (map fst pl) s request env st
                Hfull Hst) as [Hbefore Hfinal].
    destruct (completion (executeStep cid s request env)) as [r|e|];
      cbn [effects].
    + destruct (IH (done ++ [s])
                  (exec st (effects (executeStep cid s request env)))
                  (unread (executeStep cid s request env)))
        as [Hbefore' Hfinal']; [by rewrite <- app_assoc|done|].
      split; [by apply before_each_app|by rewrite exec_app].
    + split; [done|]. destruct Hfinal as [Hfinal|Hfinal].
      * right. exists s, Status.error. split; [auto|].
        by exists done, (map fst pl).
      * right. exists s, Status.running. split; [auto|].
        by exists done, (map fst pl).
    + split; [done|]. right. exists s, Status.running. split; [auto|].
      by exists done, (map fst pl).
Qed.

Lemma epilogue_passive (c : Completion unit) :
  Forall (fun a => target a = None) (epilogue c).
Proof. destruct c; repeat constructor. Qed.

(** Every run of the workflow, started with all steps pending, is a
    sequence of executions of the steps of its plan, one at a time. *)
Lemma runWorkflow_orderly (inp : Inputs) (env : list Connection) (st : State) :
  (forall step, status_of st step = Status.pending) ->
  before_each (orderly (map fst (plan inp))) st (effects (runWorkflow inp env))
  /\ Shape (map fst (plan inp)) (exec st (effects (runWorkflow inp env))).
Proof.
  intros Hst. apply expected_nil in Hst.
  assert (Shape (map fst (plan inp)) st) as Hshape
    by (left; by exists [], (map fst (plan inp))).
  destruct (falsy (politicianName inp) || falsy (policyGoal inp)
            || falsy (city inp)) eqn:Hvalid.
  - unfold runWorkflow. rewrite Hvalid.
    apply before_each_passive; [by repeat constructor|done].
  - rewrite (runWorkflow_valid _ _ Hvalid), workflowSteps_plan.
    destruct (runPlan_orderly (clientId inp) (map fst (plan inp)) (plan inp)
                [] (reduce st (SetIsRunning true)) env
                (perform (SetCurrentStep None))) as [Hbefore Hfinal];
      [done| |by repeat constructor|].
    { intros step. by rewrite reduce_keeps_status. }
    destruct (before_each_passive (map fst (plan inp)) _ _
                (epilogue_passive (completion (runPlan (clientId inp)
                   (plan inp) (perform (SetCurrentStep None)) env))) Hfinal)
      as [Hbefore' Hfinal'].
    split.
    + apply before_each_cons; [by split|].
      by apply before_each_app.
    + by rewrite exec_cons, exec_app.
Qed.

Lemma Shape_prefix (inp : Inputs) (env : list Connection) (n : nat) :
  Shape (map fst (plan inp))
    (exec initialState (take n (effects (runWorkflow inp env)))).
Proof.
  destruct (runWorkflow_orderly inp env initialState) as [Hbefore Hfinal];
    [by intros []|].
  apply (at_each_prefix (Shape (map fst (plan inp)))); [|done].
  intros k a Hk. apply (Hbefore k a Hk).
Qed.

Lemma lawful_prefix (inp : Inputs) (env : list Connection) (n : nat) (a : Action) :
  effects (runWorkflow inp env) !! n = Some a ->
  lawful (map fst (plan inp))
    (exec initialState (take n (effects (runWorkflow inp env)))) a.
Proof.
  intros Hn.
  destruct (runWorkflow_orderly inp env initialState) as [Hbefore _];
    [by intros []|].
  apply (Hbefore n a Hn).
Qed.

(** ** The order of the executions *)

Lemma plan_steps (inp : Inputs) :
  map fst (plan inp)
  = consulting :: replicate (length (simulationPerspective inp)) simulation
    ++ [debate; aggregator].
Proof.
  unfold plan. simpl. f_equal. rewrite map_app. simpl. f_equal.
  induction (simulationPerspective inp) as [|p l IH]; simpl; [done|].
  by rewrite IH.
Qed.

Lemma plan_steps_sorted (inp : Inputs) :
  StronglySorted follows (map fst (plan inp)).
Proof.
  rewrite plan_steps.
  constructor.
  - apply StronglySorted_app_2.
    + intros x1 x2 Hx1 Hx2. apply elem_of_replicate in Hx1 as [-> _].
      left. apply elem_of_cons in Hx2 as [->|Hx2]; simpl; [lia|].
      apply list_elem_of_singleton in Hx2 as ->. simpl. lia.
    + induction (length (simulationPerspective inp)) as [|n IH]; simpl;
        constructor; [done|].
      apply Forall_forall. intros x Hx.
      apply elem_of_replicate in Hx as [-> _]. by right.
    + apply SSorted_cons;
        [apply SSorted_cons; [apply SSorted_nil | constructor]|].
      constructor; [left; simpl; lia | constructor].
  - apply Forall_forall. intros x Hx. left.
    apply elem_of_app in Hx as [Hx|Hx].
    + apply elem_of_replicate in Hx as [-> _]. simpl. lia.
    + apply elem_of_cons in Hx as [->|Hx]; simpl; [lia|].
      apply list_elem_of_singleton in Hx as ->. simpl. lia.
Qed.

Lemma follows_rank (a b : WorkflowStep) :
  follows a b -> step_rank a <= step_rank b.
Proof. intros [Hlt|[-> ->]]; lia. Qed.

Lemma follows_self (a : WorkflowStep) : follows a a -> a = simulation.
Proof. intros [Hlt|[-> _]]; [lia|done]. Qed.

(** Around an execution of [s]: what ran before does not come after [s]
    in the declared order, what runs later does not come before it. *)
Lemma plan_split (inp : Inputs) (done rest : list WorkflowStep)
    (s : WorkflowStep) :
  map fst (plan inp) = done ++ s :: rest ->
  (forall d, d ∈ done -> follows d s) /\ (forall r, r ∈ rest -> follows s r).
Proof.
  intros Hsplit. pose proof (plan_steps_sorted inp) as Hsorted.
  rewrite Hsplit in Hsorted. split.
  - intros d Hd.
    apply (StronglySorted_app_1_elem_of _ _ _ _ _ Hsorted Hd).
    apply elem_of_cons. by left.
  - intros r Hr. apply StronglySorted_app_1_r in Hsorted.
    apply StronglySorted_cons in Hsorted as [Hall _].
    by apply (proj1 (Forall_forall _ _) Hall).
Qed.

(** The only step a plan can leave out is the simulation, when no
    perspective is selected. *)
Lemma not_in_plan (inp : Inputs) (s : WorkflowStep) :
  s ∉ map fst (plan inp) <-> s = simulation /\ simulationPerspective inp = [].
Proof.
  rewrite plan_steps. unfold not.
  rewrite elem_of_cons, elem_of_app, elem_of_replicate, elem_of_cons,
    list_elem_of_singleton.
  destruct s, (simulationPerspective inp) as [|p l]; simpl;
    intuition (discriminate || lia).
Qed.

(** ** Validation *)

(** C7. A run with an empty politician name, policy goal or city is
    turned down before anything is started: [runWorkflow] only shows the
    alert and returns, no connection is opened or consumed, the component
    state is the same after every prefix of the run (so no step is ever
    running), and a pending step remains pending. *)
Theorem runWorkflow_rejects_missing_field
    (inp : Inputs) (env : list Connection) (st : State) (n : nat) :
  politicianName inp = "" \/ policyGoal inp = "" \/ city inp = "" ->
  runWorkflow inp env
    = mkOutcome [Alert "Please fill in all required fields"] (Returned tt) env
  /\ opened (effects (runWorkflow inp env)) = []
  /\ exec st (take n (effects (runWorkflow inp env))) = st
  /\ (forall step, status_of st step = Status.pending ->
        status_of (exec st (take n (effects (runWorkflow inp env)))) step
        = Status.pending).
Proof.
  intros Hempty.
  assert (falsy (politicianName inp) || falsy (policyGoal inp)
          || falsy (city inp) = true) as Hguard.
  { destruct Hempty as [->|[->| ->]]; simpl;
      rewrite ?orb_true_r; reflexivity. }
  unfold runWorkflow. rewrite Hguard. unfold perform. cbn [effects].
  assert (exec st (take n [Alert "Please fill in all required fields"]) = st)
    as Hsame by (by destruct n as [|[|n]]).
  rewrite Hsame. done.
Qed.

Lemma runWorkflow_rejects_missing_field_witness :
  opened (effects (runWorkflow
            (mkInputs "client-1" "" "housing" "Oakland" "" ["traffic"])
            [completes ["a"] JNull])) = [].
Proof.
  apply (runWorkflow_rejects_missing_field
           (mkInputs "client-1" "" "housing" "Oakland" "" ["traffic"])
           [completes ["a"] JNull] initialState 0).
  left. reflexivity.
Defined.

(** ** Result and error of a step *)

Lemma lawful_exclusive (full : list WorkflowStep) (st0 st : State)
    (a : Action) :
  lawful full st0 a ->
  (forall step, exclusive (step_state (steps st) step) = true) ->
  forall step, exclusive (step_state (steps (reduce st a)) step) = true.
Proof.
  intros Hlaw Hst step.
  destruct a as [cur|s x r e|s token|text|b|cid request|request| |msg]; simpl;
    try apply Hst.
  - unfold updateStepStatus. destruct (decide (s = step)) as [->|Hne].
    + rewrite step_state_with_eq. unfold exclusive. simpl.
      destruct x; simpl in Hlaw; try done;
        apply bool_decide_eq_true; tauto.
    + rewrite step_state_with_ne by done. apply Hst.
  - unfold updateStepOutput. destruct (decide (s = step)) as [->|Hne].
    + rewrite step_state_with_eq. apply Hst.
    + rewrite step_state_with_ne by done. apply Hst.
Qed.

Lemma exclusive_spec (ss : StepState) :
  exclusive ss = true ->
  (status ss = Status.completed -> error ss = None)
  /\ (status ss = Status.error -> result ss = None)
  /\ ~ (is_Some (result ss) /\ is_Some (error ss)).
Proof.
  unfold exclusive. intros Hex.
  destruct (status ss); apply bool_decide_eq_true in Hex;
    (split; [|split]); try done;
    intros [[r Hr] [e He]]; intuition congruence.
Qed.

(** The state of the step after one execution on a socket: status,
    result and error are those of the way the connection ended. *)
Lemma executeStep_settled (cid : string) (step : WorkflowStep)
    (request : JsVal) (session : Session) (env : list Connection)
    (st : State) :
  let ss := step_state
              (steps (exec st (effects (executeStep cid step request
                                          (Socket session :: env))))) step in
  match closing session with
  | MsgComplete r =>
      status ss = Status.completed /\ result ss = r /\ error ss = None
  | MsgError e =>
      status ss = Status.error /\ error ss = e /\ result ss = None
  | SocketError =>
      status ss = Status.error /\ error ss = Some "WebSocket error"
      /\ result ss = None
  | Silent =>
      status ss = Status.running /\ result ss = None /\ error ss = None
  end.
Proof.
  cbv zeta. rewrite executeStep_unfold. cbn [effects hd streamed_effects].
  rewrite exec_app, exec_opening, exec_app.
  set (st1 := exec st _).
  assert (H1 : status (step_state (steps st1) step) = Status.running
               /\ result (step_state (steps st1) step) = None
               /\ error (step_state (steps st1) step) = None).
  { unfold st1. simpl. unfold updateStepStatus.
    by rewrite step_state_with_eq. }
  destruct H1 as (Hs1 & Hr1 & He1).
  destruct (streamed_step_state step _ st1
              (deliver_streamed step (messages session) ""))
    as (Hs2 & Hr2 & He2).
  destruct (closing session); simpl;
    unfold updateStepStatus; rewrite ?step_state_with_eq; simpl;
    rewrite ?Hs2, ?Hr2, ?He2; done.
Qed.

(** C2 (as amended). Result and error of a step agree with its status and
    are never set together.  Along every run - started in a state where
    they agree, as the initial state or the state left by an earlier run -
    after every prefix of the run a completed step has no error and a step
    in the error state has no result.  An execution whose connection ends
    with a 'complete' message leaves the step completed, with the result
    the message carries (none when it carries none) and no error; one
    whose connection ends with an 'error' message or a socket error leaves
    it in the error state, with the error the message carries (none when
    it carries none; "WebSocket error" for a socket error) and no
    result. *)
Theorem result_and_error_exclusive
    (inp : Inputs) (env : list Connection) (n : nat) (step : WorkflowStep)
    (st : State) (cid : string) (request : JsVal) (session : Session) :
  ((forall s, exclusive (step_state (steps st) s) = true) ->
   let ss := step_state
               (steps (exec st (take n (effects (runWorkflow inp env)))))
               step in
   (status ss = Status.completed -> error ss = None)
   /\ (status ss = Status.error -> result ss = None)
   /\ ~ (is_Some (result ss) /\ is_Some (error ss)))
  /\ (let ss := step_state
                  (steps (exec st (effects (executeStep cid step request
                                              (Socket session :: env)))))
                  step in
      match closing session with
      | MsgComplete r =>
          status ss = Status.completed /\ result ss = r /\ error ss = None
      | MsgError e =>
          status ss = Status.error /\ error ss = e /\ result ss = None
      | SocketError =>
          status ss = Status.error /\ error ss = Some "WebSocket error"
          /\ result ss = None
      | Silent =>
          status ss = Status.running /\ result ss = None /\ error ss = None
      end).
Proof.
  split.
  - intros Hst. apply exclusive_spec.
    revert step. induction n as [|n IH]; [exact Hst|].
    destruct (effects (runWorkflow inp env) !! n) as [a|] eqn:Hn.
    + rewrite (before_each_take _ _ _ _ Hn).
      apply (lawful_exclusive (map fst (plan inp))
               (exec initialState (take n (effects (runWorkflow inp env)))));
        [|done].
      by apply lawful_prefix.
    + apply lookup_ge_None in Hn.
      rewrite take_ge by lia. by rewrite take_ge in IH by lia.
  - apply executeStep_settled.
Qed.

Lemma result_and_error_exclusive_witness :
  result
    (step_state
       (steps (exec initialState
                 (take 7 (effects (runWorkflow (sample_inputs ["traffic"])
                                     [fails "model overloaded"])))))
       consulting)
  = None.
Proof.
  apply (proj1 (result_and_error_exclusive (sample_inputs ["traffic"])
                  [fails "model overloaded"] 7 consulting initialState
                  "" JNull silent_session)).
  - intros []; reflexivity.
  - reflexivity.
Defined.

(** C2 as stated fails: a 'complete' message without a result completes
    the step with no result recorded, so a step in a terminal state has
    neither of the two fields populated. *)
Lemma completed_step_without_result :
  let final :=
    exec initialState
      (effects (runWorkflow (sample_inputs [])
                  [Socket (mkSession true [MsgToken "a"] (MsgComplete None))]))
  in
  status_of final consulting = Status.completed
  /\ Status.terminal (status_of final consulting) = true
  /\ result (step_state (steps final) consulting) = None
  /\ error (step_state (steps final) consulting) = None.
Proof. repeat split; reflexivity. Qed.

(** ** One execution at a time, in the declared order *)

Lemma expected_not_running (done : list WorkflowStep) (step : WorkflowStep) :
  expected done step <> Status.running.
Proof. unfold expected. by case_bool_decide. Qed.

Lemma Shape_one_running (full : list WorkflowStep) (st : State)
    (s1 s2 : WorkflowStep) :
  Shape full st ->
  status_of st s1 = Status.running -> status_of st s2 = Status.running ->
  s1 = s2.
Proof.
  intros [(done & rest & _ & Hst)|(s & x & _ & done & rest & _ & Hst)] H1 H2;
    rewrite Hst in H1, H2.
  - by apply expected_not_running in H1.
  - unfold during in H1, H2.
    destruct (decide (s1 = s)) as [->|Hne1];
      [|rewrite bool_decide_false in H1 by done;
        by apply expected_not_running in H1].
    destruct (decide (s2 = s)) as [->|Hne2];
      [done|rewrite bool_decide_false in H2 by done;
            by apply expected_not_running in H2].
Qed.

Lemma count_app (p : Action -> bool) (tr1 tr2 : list Action) :
  count p (tr1 ++ tr2) = count p tr1 + count p tr2.
Proof. induction tr1 as [|a tr1 IH]; simpl; [done|]. rewrite IH. lia. Qed.

Lemma count_none (p : Action -> bool) (tr : list Action) :
  Forall (fun a => p a = false) tr -> count p tr = 0.
Proof.
  induction tr as [|a tr IH]; intros Htr; [done|].
  inversion Htr as [|? ? Ha Htr']; subst. simpl. rewrite Ha, IH; done.
Qed.

Lemma not_start_lookup (tr : list Action) (n : nat) (s : WorkflowStep)
    (r : option JsVal) (e : option string) :
  Forall (fun a => is_start a = false) tr ->
  tr !! n = Some (UpdateStepStatus s Status.running r e) -> False.
Proof.
  intros Htr Hn. by apply (proj1 (Forall_lookup _ _) Htr) in Hn.
Qed.

Lemma streamed_not_start (s : WorkflowStep) (tr : list Action) :
  Forall (streamed_by s) tr -> Forall (fun a => is_start a = false) tr.
Proof.
  intros Htr. eapply Forall_impl; [exact Htr|].
  by intros a [[token ->]|[text ->]].
Qed.

Lemma streamed_not_resolution (s : WorkflowStep) (tr : list Action) :
  Forall (streamed_by s) tr -> Forall (fun a => is_resolution a = false) tr.
Proof.
  intros Htr. eapply Forall_impl; [exact Htr|].
  by intros a [[token ->]|[text ->]].
Qed.

(** One execution sets its step running once, as its second effect, and
    records one completion exactly when its promise resolves. *)
Lemma executeStep_counts (cid : string) (s : WorkflowStep) (request : JsVal)
    (env : list Connection) :
  (forall n s' r e,
     effects (executeStep cid s request env) !! n
       = Some (UpdateStepStatus s' Status.running r e) -> n = 1)
  /\ count is_start (effects (executeStep cid s request env)) = 1
  /\ (forall r, completion (executeStep cid s request env) = Returned r ->
        count is_resolution (effects (executeStep cid s request env)) = 1).
Proof.
  rewrite executeStep_unfold. cbn [effects completion].
  set (rest := streamed_effects (cid +:+ "-" +:+ step_name s) s request
                 (hd silent_connection env)).
  assert (Forall (fun a => is_start a = false) rest) as Hrest.
  { unfold rest, streamed_effects.
    destruct (hd silent_connection env) as [exception|session]; [done|].
    constructor; [done|]. apply Forall_app. split.
    { unfold onopen. destruct (opens session); by repeat constructor. }
    apply Forall_app. split.
    - eapply streamed_not_start, deliver_streamed.
    - destruct (closing session); by repeat constructor. }
  split; [|split].
  - intros [|[|n]] s' r e Hn; try done.
    simpl in Hn. by apply not_start_lookup in Hn.
  - simpl. by rewrite (count_none _ _ Hrest).
  - intros r Hr. unfold rest, streamed_effects.
    destruct (hd silent_connection env) as [exception|session]; [done|].
    simpl. rewrite !count_app.
    rewrite (count_none is_resolution (onopen _ _))
      by (unfold onopen; destruct (opens session); by repeat constructor).
    rewrite (count_none is_resolution (deliver _ _ _).2)
      by (eapply streamed_not_resolution, deliver_streamed).
    cbn [settlement] in Hr.
    destruct (closing session); simpl in Hr |- *; done.
Qed.

(** When a run of a plan starts an execution, every execution started
    before has resolved. *)
Lemma runPlan_start_after_resolutions (cid : string)
    (pl : list (WorkflowStep * JsVal)) (k : Async unit) (env : list Connection)
    (n : nat) (s : WorkflowStep) (r : option JsVal) (e : option string) :
  (forall env', Forall (fun a => is_start a = false) (effects (k env'))) ->
  effects (runPlan cid pl k env) !! n
    = Some (UpdateStepStatus s Status.running r e) ->
  n < length (effects (runPlan cid pl k env))
  /\ count is_start (take n (effects (runPlan cid pl k env)))
     = count is_resolution (take n (effects (runPlan cid pl k env))).
Proof.
  intros Hk. revert env n.
  induction pl as [|[s0 request0] pl IH]; intros env n Hn.
  - simpl in Hn. by apply not_start_lookup in Hn.
  - split; [by apply lookup_lt_Some in Hn|].
    simpl in Hn |- *. rewrite bind_unfold in Hn |- *.
    destruct (executeStep_counts cid s0 request0 env)
      as (Hindex & Hstart & Hres).
    set (E := effects (executeStep cid s0 request0 env)) in *.
    assert (n < length E -> count is_start (take n E)
                            = count is_resolution (take n E)) as Hin.
    { intros Hlt.
      assert (E !! n = Some (UpdateStepStatus s Status.running r e)
              -> count is_start (take n E) = count is_resolution (take n E))
        as Hhere.
      { intros Hstart'. rewrite (Hindex _ _ _ _ Hstart').
        unfold E. rewrite executeStep_unfold. done. }
      destruct (completion (executeStep cid s0 request0 env));
        cbn [effects] in Hn; fold E in Hn;
        rewrite ?lookup_app_l in Hn by done; by apply Hhere. }
    destruct (completion (executeStep cid s0 request0 env)) as [r0|e0|] eqn:Hc;
      cbn [effects] in Hn |- *; fold E in Hn |- *.
    + destruct (decide (n < length E)) as [Hlt|Hge].
      * rewrite take_app_le by lia. by apply Hin.
      * rewrite lookup_app_r in Hn by lia.
        rewrite take_app_ge by lia. rewrite !count_app.
        destruct (IH _ _ Hn) as [_ ->].
        by rewrite Hstart, (Hres r0 eq_refl).
    + apply Hin. by apply lookup_lt_Some in Hn.
    + apply Hin. by apply lookup_lt_Some in Hn.
Qed.

Lemma runWorkflow_start_after_resolutions (inp : Inputs) (env : list Connection)
    (n : nat) (s : WorkflowStep) (r : option JsVal) (e : option string) :
  effects (runWorkflow inp env) !! n
    = Some (UpdateStepStatus s Status.running r e) ->
  count is_start (take n (effects (runWorkflow inp env)))
  = count is_resolution (take n (effects (runWorkflow inp env))).
Proof.
  destruct (falsy (politicianName inp) || falsy (policyGoal inp)
            || falsy (city inp)) eqn:Hvalid.
  - unfold runWorkflow. rewrite Hvalid. by destruct n as [|[|n]].
  - rewrite (runWorkflow_valid _ _ Hvalid), workflowSteps_plan.
    set (P := runPlan (clientId inp) (plan inp)
                (perform (SetCurrentStep None)) env).
    destruct n as [|n]; [done|]. simpl. intros Hn.
    assert (effects P !! n = Some (UpdateStepStatus s Status.running r e))
      as HP.
    { destruct (decide (n < length (effects P))) as [Hlt|Hge].
      - by rewrite lookup_app_l in Hn.
      - rewrite lookup_app_r in Hn by lia. exfalso.
        assert (Forall (fun a => is_start a = false) (epilogue (completion P)))
          as Hquiet by (destruct (completion P); by repeat constructor).
        by apply (not_start_lookup _ _ _ _ _ Hquiet Hn). }
    assert (forall env', Forall (fun a => is_start a = false)
                           (effects (perform (SetCurrentStep None) env')))
      as Hk by (intros env'; by repeat constructor).
    destruct (runPlan_start_after_resolutions _ _ _ _ _ _ _ _ Hk HP)
      as [Hlt Heq].
    fold P in Hlt, Heq. rewrite take_app_le; [done|lia].
Qed.

(** C4 (as amended). In a run started with all steps pending, the
    executions of a chain happen one at a time and in the declared order.
    After every prefix of the run at most one step is running.  When the
    execution of a step is started (the step is set running), every
    execution started before has resolved, no step is running, every step
    after it in the order is still pending, and every step before it has
    completed - except that the simulation step, which is run once per
    selected perspective, is skipped and still pending when no perspective
    is selected. *)
Theorem executions_one_at_a_time
    (inp : Inputs) (env : list Connection) (n : nat) :
  (forall s1 s2,
     status_of (exec initialState (take n (effects (runWorkflow inp env)))) s1
       = Status.running ->
     status_of (exec initialState (take n (effects (runWorkflow inp env)))) s2
       = Status.running ->
     s1 = s2)
  /\
  (forall s r e,
     effects (runWorkflow inp env) !! n
       = Some (UpdateStepStatus s Status.running r e) ->
     count is_start (take n (effects (runWorkflow inp env)))
       = count is_resolution (take n (effects (runWorkflow inp env)))
     /\ forall s',
         status_of (exec initialState
                      (take n (effects (runWorkflow inp env)))) s'
           <> Status.running
         /\ (step_rank s' < step_rank s ->
             status_of (exec initialState
                          (take n (effects (runWorkflow inp env)))) s'
               = Status.completed
             \/ (s' = simulation /\ simulationPerspective inp = []
                 /\ status_of (exec initialState
                                 (take n (effects (runWorkflow inp env)))) s'
                    = Status.pending))
         /\ (step_rank s < step_rank s' ->
             status_of (exec initialState
                          (take n (effects (runWorkflow inp env)))) s'
               = Status.pending)).
Proof.
  split.
  - intros s1 s2. apply (Shape_one_running (map fst (plan inp))).
    apply Shape_prefix.
  - intros s r e Hn.
    split; [by eapply runWorkflow_start_after_resolutions|].
    apply lawful_prefix in Hn as (_ & _ & done & rest & Hfull & Hst).
    destruct (plan_split inp done rest s Hfull) as [Hdone Hrest].
    intros s'. rewrite !Hst. split; [apply expected_not_running|].
    split; intros Hrank.
    + unfold expected. case_bool_decide as Hin; [by left|right].
      assert (s' ∉ map fst (plan inp)) as Hout.
      { rewrite Hfull. intros [Hd|Hr]%elem_of_app; [done|].
        apply elem_of_cons in Hr as [->|Hr]; [lia|].
        apply Hrest, follows_rank in Hr. lia. }
      apply not_in_plan in Hout as [-> ->]. done.
    + unfold expected. case_bool_decide as Hin; [|done].
      apply Hdone, follows_rank in Hin. lia.
Qed.

Lemma executions_one_at_a_time_witness :
  status_of
    (exec initialState
       (take 10 (effects (runWorkflow (sample_inputs ["traffic"])
                           [completes ["a"; "b"] JNull;
                            completes ["c"] JNull]))))
    debate = Status.pending.
Proof.
  apply (proj2 (proj2 (proj2 (proj2 (executions_one_at_a_time
                   (sample_inputs ["traffic"])
                   [completes ["a"; "b"] JNull; completes ["c"] JNull] 10)
                 simulation None None eq_refl) debate))).
  simpl. lia.
Defined.

(** C4 as stated fails: with no perspective selected the debate step is
    started while the step immediately before it in the declared order,
    the simulation step, has not reached a terminal state. *)
Lemma debate_started_before_simulation_terminal :
  effects (runWorkflow (sample_inputs [])
             [completes ["a"] JNull; completes ["b"] JNull]) !! 9
  = Some (UpdateStepStatus debate Status.running None None)
  /\ effects (runWorkflow (sample_inputs [])
                [completes ["a"] JNull; completes ["b"] JNull]) !! 10
     = Some (OpenSocket "client-1700000000000-debate"
               (debateRequest (sample_inputs [])))
  /\ Status.terminal
       (status_of
          (exec initialState
             (take 10 (effects (runWorkflow (sample_inputs [])
                                 [completes ["a"] JNull;
                                  completes ["b"] JNull]))))
          simulation) = false.
Proof. split; [reflexivity | split; reflexivity]. Qed.

(** ** Status transitions *)

Lemma sm_step_refl (x : StepStatus) : sm_step x x = true.
Proof. by destruct x. Qed.

(** The simulation step is executed again only when two or more
    perspectives are selected. *)
Lemma plan_rerun (inp : Inputs) (done rest : list WorkflowStep) :
  map fst (plan inp) = done ++ simulation :: rest ->
  simulation ∈ done ->
  2 <= length (simulationPerspective inp).
Proof.
  rewrite plan_steps. intros Hsplit Hin.
  destruct done as [|d done]; [by apply elem_of_nil in Hin|].
  injection Hsplit as <- Hsplit.
  apply elem_of_cons in Hin as [Hin|Hin]; [done|].
  destruct (length (simulationPerspective inp)) as [|[|k]]; [| |lia].
  - simpl in Hsplit.
    assert (simulation ∈ [debate; aggregator]) as Hbad.
    { rewrite Hsplit. apply elem_of_app. right. apply elem_of_cons. by left. }
    apply elem_of_cons in Hbad as [Hbad|Hbad]; [done|].
    by apply list_elem_of_singleton in Hbad.
  - simpl in Hsplit. destruct done as [|d done]; [by apply elem_of_nil in Hin|].
    injection Hsplit as <- Hsplit.
    assert (simulation ∈ [debate; aggregator]) as Hbad.
    { rewrite Hsplit. apply elem_of_app. right. apply elem_of_cons. by left. }
    apply elem_of_cons in Hbad as [Hbad|Hbad]; [done|].
    by apply list_elem_of_singleton in Hbad.
Qed.

(** *** Counting the steps back *)

Lemma back_steps_app (st : State) (tr1 tr2 : list Action) :
  back_steps st (tr1 ++ tr2)
  = back_steps st tr1 + back_steps (exec st tr1) tr2.
Proof.
  revert st. induction tr1 as [|a tr1 IH]; intros st; [done|].
  simpl. rewrite IH. lia.
Qed.

Lemma back_steps_keeps (st : State) (tr : list Action) :
  Forall keeps_status tr -> back_steps st tr = 0.
Proof.
  revert st. induction tr as [|a tr IH]; intros st Htr; [done|].
  inversion Htr as [|? ? Ha Htr']; subst. simpl. rewrite IH by done.
  by destruct a.
Qed.

Lemma starts_keeps (step : WorkflowStep) (tr : list Action) :
  Forall keeps_status tr -> count (starts step) tr = 0.
Proof.
  intros Htr. apply count_none. eapply Forall_impl; [exact Htr|].
  by intros [].
Qed.

Lemma onopen_keeps_status (request : JsVal) (session : Session) :
  Forall keeps_status (onopen request session).
Proof. unfold onopen. destruct (opens session); by repeat constructor. Qed.

(** One execution takes its step out of 'completed' when it finds it
    there, and does nothing of the kind otherwise. *)
Lemma executeStep_back_steps (cid : string) (s : WorkflowStep)
    (request : JsVal) (env : list Connection) (st : State) :
  back_steps st (effects (executeStep cid s request env))
  = if bool_decide (status_of st s = Status.completed) then 1 else 0.
Proof.
  rewrite executeStep_unfold. cbn [effects app back_steps steps_back].
  set (st2 := reduce (reduce st (SetCurrentStep (Some s)))
                (UpdateStepStatus s Status.running None None)).
  assert (Hcur : status_of (reduce st (SetCurrentStep (Some s))) s
                 = status_of st s) by done.
  rewrite Hcur. cbn [negb andb].
  assert (Hst2 : status_of st2 s = Status.running).
  { unfold st2, status_of. simpl. unfold updateStepStatus.
    by rewrite step_state_with_eq. }
  assert (Hrest : back_steps st2
                    (streamed_effects (cid +:+ "-" +:+ step_name s) s request
                       (hd silent_connection env)) = 0).
  { destruct (hd silent_connection env) as [exception|session]; [done|].
    cbn [streamed_effects].
    change (OpenSocket ?c ?r :: ?l) with ([OpenSocket c r] ++ l).
    rewrite !app_assoc, back_steps_app.
    set (quiet := ([OpenSocket _ _] ++ onopen request session)
                  ++ (deliver s "" (messages session)).2).
    assert (Hquiet : Forall keeps_status quiet).
    { unfold quiet. apply Forall_app. split.
      - apply Forall_app. split; [by repeat constructor|].
        apply onopen_keeps_status.
      - eapply streamed_keeps_status, deliver_streamed. }
    rewrite (back_steps_keeps _ _ Hquiet).
    assert (Hst3 : status_of (exec st2 quiet) s = Status.running)
      by (by rewrite exec_keeps_status).
    destruct (closing session); cbn [settle fst back_steps steps_back];
      rewrite ?Hst3; done. }
  rewrite andb_true_r.
  destruct (bool_decide (status_of st s = Status.completed));
    simpl; rewrite Hrest; done.
Qed.

Lemma executeStep_starts (cid : string) (s step : WorkflowStep)
    (request : JsVal) (env : list Connection) :
  count (starts step) (effects (executeStep cid s request env))
  = if bool_decide (s = step) then 1 else 0.
Proof.
  rewrite executeStep_unfold. cbn [effects app count starts].
  rewrite (count_none (starts step) (streamed_effects _ _ _ _)); [lia|].
  destruct (hd silent_connection env) as [exception|session]; [done|].
  cbn [streamed_effects]. constructor; [done|]. apply Forall_app. split.
  { unfold onopen. destruct (opens session); by repeat constructor. }
  apply Forall_app. split.
  - eapply Forall_impl; [apply deliver_streamed|].
    by intros a [[token ->]|[text ->]].
  - destruct (closing session); by repeat constructor.
Qed.

(** Along a run of a plan the steps back are the executions of the
    simulation step that the run starts after the first. *)
Lemma runPlan_back_steps (cid : string) (pl : list (WorkflowStep * JsVal))
    (k : Async unit) (env : list Connection) (done : list WorkflowStep)
    (st : State) :
  StronglySorted follows (map fst pl) ->
  (forall t, t ∈ map fst pl -> t ∈ done -> t = simulation) ->
  statuses st (expected done) ->
  (forall env', Forall keeps_status (effects (k env'))) ->
  back_steps st (effects (runPlan cid pl k env))
  = count (starts simulation) (effects (runPlan cid pl k env))
    - (if bool_decide (simulation ∈ done) then 0 else 1).
Proof.
  intros Hsorted Hdone Hst Hk. revert env done st Hsorted Hdone Hst.
  induction pl as [|[s request] pl IH]; intros env done st Hsorted Hdone Hst.
  - simpl. rewrite back_steps_keeps, starts_keeps by apply Hk. done.
  - simpl in Hsorted. apply StronglySorted_cons in Hsorted as [Hs Hsorted'].
    assert (Hback := executeStep_back_steps cid s request env st).
    assert (Hstarts := executeStep_starts cid s simulation request env).
    assert (Hin : bool_decide (status_of st s = Status.completed)
                  = bool_decide (s ∈ done)).
    { rewrite Hst. unfold expected. by destruct (bool_decide (s ∈ done)). }
    rewrite Hin in Hback.
    assert (Hsim : s ∈ done -> s = simulation).
    { intros Hd. apply Hdone; [|done]. simpl. apply elem_of_cons. by left. }
    destruct (executeStep_orderly cid (done ++ s :: map fst pl) done
                (map fst pl) s request env st eq_refl Hst) as [_ Hafter].
    simpl runPlan. rewrite bind_unfold.
    set (E := effects (executeStep cid s request env)) in *.
    destruct (completion (executeStep cid s request env)) as [r|e|];
      cbn [effects].
    + rewrite back_steps_app, count_app, Hback, Hstarts.
      rewrite (IH _ (done ++ [s]) _ Hsorted'); [| |done].
      * set (X := count (starts simulation) _).
        destruct (decide (s = simulation)) as [->|Hne].
        -- rewrite (bool_decide_true (simulation = simulation)) by done.
           rewrite (bool_decide_true (simulation ∈ done ++ [simulation]))
             by (apply elem_of_app; right; by apply list_elem_of_singleton).
           destruct (bool_decide (simulation ∈ done)); lia.
        -- rewrite (bool_decide_false (s = simulation)) by done.
           rewrite (bool_decide_false (s ∈ done)) by (intros Hd; auto).
           assert (Heq : bool_decide (simulation ∈ done ++ [s])
                         = bool_decide (simulation ∈ done)).
           { apply bool_decide_ext. rewrite elem_of_app, list_elem_of_singleton.
             split; [intros [?|?]; [done|congruence] | auto]. }
           rewrite Heq. lia.
      * intros t Ht [Hd|Heq]%elem_of_app.
        -- apply Hdone; [|done]. simpl. apply elem_of_cons. by right.
        -- apply list_elem_of_singleton in Heq. subst t.
           rewrite Forall_forall in Hs. by apply follows_self, Hs.
    + fold E. rewrite Hback, Hstarts.
      destruct (decide (s = simulation)) as [->|Hne].
      * rewrite (bool_decide_true (simulation = simulation)) by done.
        destruct (bool_decide (simulation ∈ done)); lia.
      * rewrite (bool_decide_false (s = simulation)) by done.
        rewrite (bool_decide_false (s ∈ done)) by (intros Hd; auto). lia.
    + fold E. rewrite Hback, Hstarts.
      destruct (decide (s = simulation)) as [->|Hne].
      * rewrite (bool_decide_true (simulation = simulation)) by done.
        destruct (bool_decide (simulation ∈ done)); lia.
      * rewrite (bool_decide_false (s = simulation)) by done.
        rewrite (bool_decide_false (s ∈ done)) by (intros Hd; auto). lia.
Qed.

(** A run of a plan starts each execution at most once, and all of them
    when it returns. *)
Lemma runPlan_starts (cid : string) (pl : list (WorkflowStep * JsVal))
    (k : Async unit) (env : list Connection) (step : WorkflowStep) :
  (forall env', Forall keeps_status (effects (k env'))) ->
  count (starts step) (effects (runPlan cid pl k env))
  <= length (filter (fun t => t = step) (map fst pl))
  /\ (forall v, completion (runPlan cid pl k env) = Returned v ->
        count (starts step) (effects (runPlan cid pl k env))
        = length (filter (fun t => t = step) (map fst pl))).
Proof.
  intros Hk. revert env. induction pl as [|[s request] pl IH]; intros env.
  - simpl. rewrite starts_keeps by apply Hk. done.
  - simpl runPlan. rewrite bind_unfold.
    assert (Hstarts := executeStep_starts cid s step request env).
    cbn [map fst]. rewrite filter_cons.
    destruct (completion (executeStep cid s request env)) as [r|e|];
      cbn [effects completion]; rewrite ?count_app, Hstarts.
    + destruct (IH (unread (executeStep cid s request env))) as [Hle Heq].
      destruct (decide (s = step)) as [->|Hne].
      * rewrite bool_decide_true by done. simpl.
        split; [lia|]. intros v Hv. by rewrite (Heq v Hv).
      * rewrite bool_decide_false by done. simpl.
        split; [lia|]. intros v Hv. by rewrite (Heq v Hv).
    + split; [|discriminate].
      destruct (decide (s = step)) as [->|Hne].
      * rewrite bool_decide_true by done. simpl. lia.
      * rewrite bool_decide_false by done. lia.
    + split; [|discriminate].
      destruct (decide (s = step)) as [->|Hne].
      * rewrite bool_decide_true by done. simpl. lia.
      * rewrite bool_decide_false by done. lia.
Qed.

Lemma plan_simulations (inp : Inputs) :
  length (filter (fun t => t = simulation) (map fst (plan inp)))
  = length (simulationPerspective inp).
Proof.
  rewrite plan_steps. rewrite filter_cons. simpl.
  rewrite filter_app. simpl. rewrite length_app. simpl.
  induction (length (simulationPerspective inp)) as [|n IH]; simpl; [done|].
  lia.
Qed.

(** The steps back of a whole run. *)
Lemma runWorkflow_back_steps (inp : Inputs) (env : list Connection) :
  back_steps initialState (effects (runWorkflow inp env))
  = count (starts simulation) (effects (runWorkflow inp env)) - 1
  /\ count (starts simulation) (effects (runWorkflow inp env))
     <= length (simulationPerspective inp)
  /\ (falsy (politicianName inp) || falsy (policyGoal inp)
      || falsy (city inp) = false ->
      completion (workflowSteps inp env) = Returned tt ->
      count (starts simulation) (effects (runWorkflow inp env))
      = length (simulationPerspective inp)).
Proof.
  destruct (falsy (politicianName inp) || falsy (policyGoal inp)
            || falsy (city inp)) eqn:Hvalid.
  - unfold runWorkflow. rewrite Hvalid. simpl. split; [done|].
    split; [lia|discriminate].
  - rewrite (runWorkflow_valid _ _ Hvalid), workflowSteps_plan.
    set (k := perform (SetCurrentStep None)).
    assert (Hk : forall env', Forall keeps_status (effects (k env')))
      by (intros env'; by repeat constructor).
    assert (Hepi : Forall keeps_status
                     (epilogue (completion (runPlan (clientId inp) (plan inp)
                                              k env))))
      by (destruct (completion _); by repeat constructor).
    change (SetIsRunning true :: ?l) with ([SetIsRunning true] ++ l).
    rewrite !back_steps_app, !count_app.
    rewrite (back_steps_keeps _ _ Hepi), (starts_keeps _ _ Hepi).
    cbn [back_steps steps_back count starts exec foldl].
    rewrite (runPlan_back_steps (clientId inp) (plan inp) k env []
               (reduce initialState (SetIsRunning true))
               (plan_steps_sorted inp)); [| |by intros []|done].
    + rewrite bool_decide_false by apply not_elem_of_nil.
      destruct (runPlan_starts (clientId inp) (plan inp) k env simulation Hk)
        as [Hle Heq].
      rewrite plan_simulations in Hle, Heq.
      split; [lia|]. split; [lia|]. intros _ Hc.
      rewrite (Heq tt Hc). lia.
    + intros t _ Ht. by apply elem_of_nil in Ht.
Qed.

(** C5 (as amended). In a run started with all steps pending, every
    effect moves the status of every step along the state machine (pending
    to running, running to completed or to error) or leaves it alone, so a
    step in the error state never leaves it and the consulting, debate and
    aggregator steps never leave 'completed' - with one exception: the
    simulation step is set back from 'completed' to 'running' when it is
    executed for a further perspective, which takes two or more selected
    perspectives.  The number of times a step leaves 'completed' in a run
    is the number of executions of the simulation step the run starts
    after the first; the run starts at most one per selected perspective,
    and exactly one per selected perspective when no execution fails or
    stalls. *)
Theorem status_moves_forward_except_simulation_rerun
    (inp : Inputs) (env : list Connection) (n : nat) (a : Action)
    (step : WorkflowStep) :
  effects (runWorkflow inp env) !! n = Some a ->
  status_of initialState step = Status.pending
  /\ (sm_step
        (status_of (exec initialState
                      (take n (effects (runWorkflow inp env)))) step)
        (status_of (exec initialState
                      (take (S n) (effects (runWorkflow inp env)))) step)
      = true
      \/ (step = simulation
          /\ status_of (exec initialState
                          (take n (effects (runWorkflow inp env)))) step
             = Status.completed
          /\ status_of (exec initialState
                          (take (S n) (effects (runWorkflow inp env)))) step
             = Status.running
          /\ 2 <= length (simulationPerspective inp)))
  /\ (status_of (exec initialState
                   (take n (effects (runWorkflow inp env)))) step
        = Status.error ->
      status_of (exec initialState
                   (take (S n) (effects (runWorkflow inp env)))) step
        = Status.error)
  /\ (step <> simulation \/ length (simulationPerspective inp) <= 1 ->
      status_of (exec initialState
                   (take n (effects (runWorkflow inp env)))) step
        = Status.completed ->
      status_of (exec initialState
                   (take (S n) (effects (runWorkflow inp env)))) step
        = Status.completed)
  /\ back_steps initialState (effects (runWorkflow inp env))
     = count (starts simulation) (effects (runWorkflow inp env)) - 1
  /\ count (starts simulation) (effects (runWorkflow inp env))
     <= length (simulationPerspective inp)
  /\ (falsy (politicianName inp) || falsy (policyGoal inp)
      || falsy (city inp) = false ->
      completion (workflowSteps inp env) = Returned tt ->
      count (starts simulation) (effects (runWorkflow inp env))
      = length (simulationPerspective inp)).
Proof.
  intros Hn. split; [by destruct step|].
  assert (sm_step
            (status_of (exec initialState
                          (take n (effects (runWorkflow inp env)))) step)
            (status_of (exec initialState
                          (take (S n) (effects (runWorkflow inp env)))) step)
          = true
          \/ (step = simulation
              /\ status_of (exec initialState
                              (take n (effects (runWorkflow inp env)))) step
                 = Status.completed
              /\ status_of (exec initialState
                              (take (S n) (effects (runWorkflow inp env)))) step
                 = Status.running
              /\ 2 <= length (simulationPerspective inp))) as Hmove.
  { rewrite (before_each_take _ _ _ _ Hn).
    apply lawful_prefix in Hn.
    set (st := exec initialState (take n (effects (runWorkflow inp env))))
      in *.
    destruct a as [cur|s x r e|s token|text|b|cid request|request| |msg];
      try (left; rewrite reduce_keeps_status by done; apply sm_step_refl).
    destruct (decide (step = s)) as [->|Hne].
    - rewrite (statuses_update st s x r e (status_of st)) by done.
      rewrite bool_decide_true by done.
      destruct x; simpl in Hn; try done.
      + destruct Hn as (_ & _ & done & rest & Hfull & Hst).
        rewrite Hst. unfold expected.
        case_bool_decide as Hin; [right|by left].
        destruct (plan_split inp done rest s Hfull) as [Hdone _].
        pose proof (follows_self _ (Hdone _ Hin)) as ->.
        repeat split; try done. by apply (plan_rerun inp done rest).
      + destruct Hn as (_ & done & rest & _ & Hst).
        rewrite Hst. unfold during. by rewrite bool_decide_true; [left|].
      + destruct Hn as (_ & done & rest & _ & Hst).
        rewrite Hst. unfold during. by rewrite bool_decide_true; [left|].
    - left. unfold status_of. rewrite reduce_other_step; [apply sm_step_refl|].
      simpl. congruence. }
  split; [exact Hmove|]. split; [|split].
  - intros Herr. destruct Hmove as [Hsm|(_ & Hc & _)]; [|congruence].
    rewrite Herr in Hsm. simpl in Hsm. by apply bool_decide_eq_true in Hsm.
  - intros Hone Hc. destruct Hmove as [Hsm|(-> & _ & _ & Htwo)].
    + rewrite Hc in Hsm. simpl in Hsm. by apply bool_decide_eq_true in Hsm.
    + destruct Hone as [Hne|Hle]; [done|lia].
  - apply runWorkflow_back_steps.
Qed.

Lemma status_moves_forward_witness :
  sm_step
    (status_of (exec initialState
                  (take 2 (effects (runWorkflow (sample_inputs ["traffic"])
                                      [completes ["a"] JNull])))) consulting)
    (status_of (exec initialState
                  (take 3 (effects (runWorkflow (sample_inputs ["traffic"])
                                      [completes ["a"] JNull])))) consulting)
  = true.
Proof.
  destruct (proj1 (proj2 (status_moves_forward_except_simulation_rerun
                     (sample_inputs ["traffic"]) [completes ["a"] JNull] 2
                     (UpdateStepStatus consulting Status.running None None)
                     consulting eq_refl))) as [Hok|(Habs & _)].
  - exact Hok.
  - discriminate Habs.
Defined.

(** C5 as stated fails: with two perspectives selected the simulation
    step, completed for the first perspective, is set back to 'running'
    for the second one within the same run. *)
Lemma simulation_completed_then_running :
  effects (runWorkflow (sample_inputs ["traffic"; "housing"])
             [completes ["a"] JNull; completes ["b"] JNull;
              completes ["c"] JNull]) !! 16
  = Some (UpdateStepStatus simulation Status.running None None)
  /\ status_of
       (exec initialState
          (take 16 (effects (runWorkflow (sample_inputs ["traffic"; "housing"])
                               [completes ["a"] JNull; completes ["b"] JNull;
                                completes ["c"] JNull]))))
       simulation = Status.completed
  /\ status_of
       (exec initialState
          (take 17 (effects (runWorkflow (sample_inputs ["traffic"; "housing"])
                               [completes ["a"] JNull; completes ["b"] JNull;
                                completes ["c"] JNull]))))
       simulation = Status.running
  /\ sm_step Status.completed Status.running = false.
Proof. repeat split; reflexivity. Qed.

(** ** A rejected execution stops the chain *)

(** The client id tells the step. *)
Lemma socket_id_inj (inp : Inputs) (s s' : WorkflowStep) :
  socket_id inp s = socket_id inp s' -> s = s'.
Proof.
  unfold socket_id. intros Heq. apply (inj (String.app _)) in Heq.
  by destruct s, s'; vm_compute in Heq.
Qed.

Lemma belongs_untouched (inp : Inputs) (t s : WorkflowStep) (a : Action) :
  belongs (clientId inp) t a -> t <> s -> untouched inp s a.
Proof.
  destruct a as [cur|t' x r e|t' token|text|b|cid request|request| |msg];
    simpl; try done; try congruence.
  intros -> Hne Heq. by apply socket_id_inj in Heq.
Qed.

Lemma untouched_target (inp : Inputs) (s : WorkflowStep) (a : Action) :
  untouched inp s a -> target a <> Some s.
Proof. destruct a; simpl; congruence. Qed.

Lemma closing_effect_untouched (inp : Inputs) (s : WorkflowStep) (a : Action) :
  closing_effect a -> untouched inp s a.
Proof. by destruct a. Qed.

Lemma closing_effect_passive (a : Action) :
  closing_effect a -> target a = None /\ forall cur, a <> SetCurrentStep cur.
Proof. by destruct a. Qed.

Lemma executeStep_belongs (cid : string) (s : WorkflowStep) (request : JsVal)
    (env : list Connection) :
  Forall (belongs cid s) (effects (executeStep cid s request env)).
Proof.
  rewrite executeStep_unfold. cbn [effects].
  repeat (apply Forall_cons; split; [done|]).
  destruct (hd silent_connection env) as [exception|session]; [done|].
  cbn [streamed_effects]. constructor; [done|]. apply Forall_app. split.
  { unfold onopen. destruct (opens session); by repeat constructor. }
  apply Forall_app. split.
  - eapply Forall_impl; [apply deliver_streamed|].
    by intros a [[token ->]|[text ->]].
  - destruct (closing session); by repeat constructor.
Qed.

Lemma drop_S_tl {A : Type} (n : nat) (l : list A) :
  drop (S n) l = drop n (tl l).
Proof. destruct l; simpl; [by rewrite drop_nil | done]. Qed.

Lemma connection_S (n : nat) (env : list Connection) :
  connection (S n) env = connection n (tl env).
Proof. unfold connection. by rewrite drop_S_tl. Qed.

Lemma executeStep_completion (cid : string) (s : WorkflowStep)
    (request : JsVal) (env : list Connection) :
  completion (executeStep cid s request env)
  = settlement (hd silent_connection env)
  /\ unread (executeStep cid s request env) = tl env.
Proof. by rewrite executeStep_unfold. Qed.

(** A run of a plan that throws: the executions before the rejected one,
    which have all resolved, then the rejected one. *)
Lemma runPlan_thrown (cid : string) (pl : list (WorkflowStep * JsVal))
    (k : Async unit) (env : list Connection) (e : string) :
  (forall env', completion (k env') = Returned tt) ->
  completion (runPlan cid pl k env) = Thrown e ->
  exists pl1 s request pl2 pre,
    pl = pl1 ++ (s, request) :: pl2
    /\ effects (runPlan cid pl k env)
       = pre ++ effects (executeStep cid s request (drop (length pl1) env))
    /\ settlement (connection (length pl1) env) = Thrown e
    /\ (forall j, j < length pl1 ->
          exists r, settlement (connection j env) = Returned r)
    /\ Forall (fun a => exists t, t ∈ map fst pl1 /\ belongs cid t a) pre.
Proof.
  intros Hk. revert env.
  induction pl as [|[s request] pl IH]; intros env Hc.
  - simpl in Hc. by rewrite Hk in Hc.
  - simpl in Hc |- *. rewrite bind_unfold in Hc |- *.
    destruct (executeStep_completion cid s request env) as [Hs Hu].
    rewrite Hs, Hu in Hc |- *.
    destruct (settlement (hd silent_connection env)) as [r|e'|] eqn:Hset;
      simpl in Hc; try discriminate.
    + destruct (IH _ Hc) as (pl1 & s1 & r1 & pl2 & pre & -> & Heff
                             & Hthrown & Hbefore & Hpre).
      exists ((s, request) :: pl1), s1, r1, pl2,
        (effects (executeStep cid s request env) ++ pre).
      cbn [effects length]. rewrite Heff, app_assoc, drop_S_tl, connection_S.
      repeat split; [done| |].
      * intros [|j] Hj; [exists r; by rewrite <- Hset|].
        rewrite connection_S. apply Hbefore. simpl in Hj. lia.
      * apply Forall_app. split.
        -- eapply Forall_impl; [apply executeStep_belongs|].
           intros a Ha. exists s. split; [|done]. apply elem_of_cons. by left.
        -- eapply Forall_impl; [exact Hpre|].
           intros a (t & Ht & Ha). exists t. split; [|done].
           apply elem_of_cons. by right.
    + injection Hc as ->.
      exists [], s, request, pl, []. simpl. rewrite drop_0.
      repeat split; try done. intros j Hj. lia.
Qed.

Lemma exec_currentStep (st : State) (tr : list Action) :
  Forall (fun a => forall cur, a <> SetCurrentStep cur) tr ->
  currentStep (exec st tr) = currentStep st.
Proof.
  revert st. induction tr as [|a tr IH]; intros st Htr; [done|].
  inversion Htr as [|? ? Ha Htr']; subst. rewrite exec_cons, IH by done.
  destruct a as [cur|s x r e|s token|text|b|cid request|request| |msg];
    try done.
  by destruct (Ha cur).
Qed.

Lemma streamed_quiet (s : WorkflowStep) (tr : list Action) :
  Forall (streamed_by s) tr ->
  Forall (fun a => forall cur, a <> SetCurrentStep cur) tr.
Proof.
  intros Htr. eapply Forall_impl; [exact Htr|].
  intros a [[token ->]|[text ->]] cur; discriminate.
Qed.

(** ** The requests of a run *)

Lemma opened_app (tr1 tr2 : list Action) :
  opened (tr1 ++ tr2) = opened tr1 ++ opened tr2.
Proof. apply omap_app. Qed.

Lemma opened_none (tr : list Action) :
  Forall (fun a => forall cid request, a <> OpenSocket cid request) tr ->
  opened tr = [].
Proof.
  induction tr as [|a tr IH]; intros Htr; [done|].
  inversion Htr as [|? ? Ha Htr']; subst.
  unfold opened in *. simpl.
  destruct a as [cur|s x r e|s token|text|b|cid request|request| |msg];
    try (by apply IH).
  by destruct (Ha cid request).
Qed.

Lemma opened_streamed (cid : string) (s : WorkflowStep) (request : JsVal)
    (session : Session) :
  opened (onopen request session ++ (deliver s "" (messages session)).2
          ++ (settle s (closing session)).1) = [].
Proof.
  apply opened_none. apply Forall_app. split.
  { unfold onopen. destruct (opens session); repeat constructor;
      discriminate. }
  apply Forall_app. split.
  - eapply Forall_impl; [apply deliver_streamed|].
    intros a [[token ->]|[text ->]]; discriminate.
  - destruct (closing session); simpl; repeat constructor; discriminate.
Qed.

Lemma opened_executeStep (cid : string) (s : WorkflowStep) (request : JsVal)
    (env : list Connection) :
  opened (effects (executeStep cid s request env))
  = match hd silent_connection env with
    | NoSocket _ => []
    | Socket _ => [(cid +:+ "-" +:+ step_name s, request)]
    end.
Proof.
  rewrite executeStep_unfold. cbn [effects].
  destruct (hd silent_connection env) as [exception|session]; [done|].
  cbn [streamed_effects].
  change ([SetCurrentStep (Some s);
           UpdateStepStatus s Status.running None None]
          ++ OpenSocket (cid +:+ "-" +:+ step_name s) request :: ?l)
    with ([SetCurrentStep (Some s);
           UpdateStepStatus s Status.running None None]
          ++ [OpenSocket (cid +:+ "-" +:+ step_name s) request] ++ l).
  rewrite opened_app, (opened_app [OpenSocket _ _]).
  by rewrite (opened_streamed cid).
Qed.

Lemma opened_runPlan (cid : string) (pl : list (WorkflowStep * JsVal))
    (k : Async unit) (env : list Connection) :
  (forall env', opened (effects (k env')) = []) ->
  opened (effects (runPlan cid pl k env))
  `prefix_of` map (fun sr => (cid +:+ "-" +:+ step_name sr.1, sr.2)) pl.
Proof.
  intros Hk. revert env.
  induction pl as [|[s request] pl IH]; intros env.
  - simpl. rewrite Hk. done.
  - simpl. rewrite bind_unfold.
    destruct (executeStep_completion cid s request env) as [Hs _].
    rewrite Hs.
    destruct (settlement (hd silent_connection env)) eqn:Hset; cbn [effects];
      rewrite ?opened_app, opened_executeStep;
      destruct (hd silent_connection env) as [exception|session];
      try discriminate; try apply prefix_nil.
    + apply prefix_cons, IH.
    + apply prefix_cons, prefix_nil.
    + apply prefix_cons, prefix_nil.
Qed.

Lemma opened_runWorkflow (inp : Inputs) (env : list Connection) :
  opened (effects (runWorkflow inp env)) `prefix_of` planned inp.
Proof.
  destruct (falsy (politicianName inp) || falsy (policyGoal inp)
            || falsy (city inp)) eqn:Hvalid.
  - unfold runWorkflow. rewrite Hvalid. apply prefix_nil.
  - rewrite (runWorkflow_valid _ _ Hvalid), workflowSteps_plan.
    change (SetIsRunning true :: ?l) with ([SetIsRunning true] ++ l).
    rewrite !opened_app.
    rewrite (opened_none (epilogue _)), app_nil_r.
    + by apply opened_runPlan.
    + destruct (completion _); repeat constructor; discriminate.
Qed.

Lemma planned_request (inp : Inputs) (s : WorkflowStep) (request : JsVal) :
  (socket_id inp s, request) ∈ planned inp ->
  match s with
  | consulting => request = consultingRequest inp
  | simulation =>
      exists perspective,
        perspective ∈ simulationPerspective inp
        /\ request = simulationRequest inp perspective
  | debate => request = debateRequest inp
  | aggregator => request = aggregatorRequest inp
  end.
Proof.
  unfold planned. intros Hin.
  apply list_elem_of_fmap in Hin as ([s' request'] & Heq & Hin).
  injection Heq as Hid ->. apply socket_id_inj in Hid as <-.
  revert Hin. unfold plan. intros Hin.
  apply elem_of_cons in Hin as [Hin|Hin]; [by injection Hin as -> ->|].
  apply elem_of_app in Hin as [Hin|Hin].
  - apply list_elem_of_fmap in Hin as (perspective & Heq & Hp).
    injection Heq as -> ->. eauto.
  - apply elem_of_cons in Hin as [Hin|Hin]; [by injection Hin as -> ->|].
    apply list_elem_of_singleton in Hin. by injection Hin as -> ->.
Qed.

(** C8 (as amended). The request of every step is built from the form
    inputs alone and carries no result of an earlier step: the requests a
    run submits are an initial part of the requests planned from its
    inputs, so the i-th request is the same whatever the connections
    deliver, the debate request is the one built from the policy goal and
    the selected perspectives, and the aggregator request the one built
    from the policy goal. *)
Theorem requests_built_from_inputs_only
    (inp : Inputs) (env env' : list Connection) (i : nat)
    (x x' : string * JsVal) (request : JsVal) :
  opened (effects (runWorkflow inp env)) `prefix_of` planned inp
  /\ (opened (effects (runWorkflow inp env)) !! i = Some x ->
      opened (effects (runWorkflow inp env')) !! i = Some x' ->
      x = x')
  /\ ((socket_id inp debate, request) ∈ opened (effects (runWorkflow inp env))
      -> request = debateRequest inp)
  /\ ((socket_id inp aggregator, request)
        ∈ opened (effects (runWorkflow inp env))
      -> request = aggregatorRequest inp).
Proof.
  pose proof (opened_runWorkflow inp env) as [rest Hrest].
  pose proof (opened_runWorkflow inp env') as [rest' Hrest'].
  split; [by exists rest|]. split; [|split].
  - intros Hx Hx'.
    apply (lookup_app_l_Some _ rest) in Hx.
    apply (lookup_app_l_Some _ rest') in Hx'.
    rewrite <- Hrest in Hx. rewrite <- Hrest' in Hx'. congruence.
  - intros Hin. apply (planned_request inp debate).
    rewrite Hrest. apply elem_of_app. by left.
  - intros Hin. apply (planned_request inp aggregator).
    rewrite Hrest. apply elem_of_app. by left.
Qed.

Lemma requests_built_from_inputs_only_witness :
  ("client-1700000000000-debate", debateRequest (sample_inputs ["traffic"]))
  = ("client-1700000000000-debate", debateRequest (sample_inputs ["traffic"])).
Proof.
  apply (proj1 (proj2 (requests_built_from_inputs_only
                         (sample_inputs ["traffic"])
                         [completes ["a"] JNull;
                          completes ["b"] (JStr "simulation result");
                          completes ["c"] (JStr "debate result")]
                         [completes [] JNull; completes [] JNull;
                          completes [] JNull]
                         2
                         ("client-1700000000000-debate",
                          debateRequest (sample_inputs ["traffic"]))
                         ("client-1700000000000-debate",
                          debateRequest (sample_inputs ["traffic"]))
                         JNull))); reflexivity.
Defined.

(** C8 as stated fails: the simulation step resolves with a result, and
    the request then submitted for the debate step contains it nowhere;
    likewise the aggregator request does not contain the debate result. *)
Lemma later_requests_lack_previous_result :
  result (step_state
            (steps (exec initialState
                      (take 25 (effects (runWorkflow (sample_inputs ["traffic"])
                                  [completes ["a"] JNull;
                                   completes ["b"] (JStr "simulation result");
                                   completes ["c"] (JStr "debate result")])))))
            simulation) = Some (JStr "simulation result")
  /\ opened (effects (runWorkflow (sample_inputs ["traffic"])
                        [completes ["a"] JNull;
                         completes ["b"] (JStr "simulation result");
                         completes ["c"] (JStr "debate result")]))
     = [("client-1700000000000-consulting",
         consultingRequest (sample_inputs ["traffic"]));
        ("client-1700000000000-simulation",
         simulationRequest (sample_inputs ["traffic"]) "traffic");
        ("client-1700000000000-debate",
         debateRequest (sample_inputs ["traffic"]));
        ("client-1700000000000-aggregator",
         aggregatorRequest (sample_inputs ["traffic"]))]
  /\ Forall (fun v => v <> JStr "simulation result")
       (subvalues (debateRequest (sample_inputs ["traffic"])))
  /\ Forall (fun v => v <> JStr "debate result")
       (subvalues (aggregatorRequest (sample_inputs ["traffic"]))).
Proof.
  split; [reflexivity|]. split; [reflexivity|].
  split; vm_compute; repeat constructor; discriminate.
Qed.

(** ** Storage services: create, update and how the calls compose *)

Section ArraySearchAppend.
Context {A : Type} (p : A -> bool).

Lemma find_app (l l' : list A) :
  find p (l ++ l')
  = match find p l with
    | Some a => Some a
    | None => find p l'
    end.
Proof. induction l as [|x l IH]; simpl; [done|]. by destruct (p x). Qed.

Lemma find_None (l : list A) : find p l = None <-> existsb p l = false.
Proof.
  induction l as [|x l IH]; simpl; [tauto|].
  destruct (p x); simpl; [split; discriminate | exact IH].
Qed.

Lemma find_present (l l' : list A) :
  existsb p l = true -> find p (l ++ l') = find p l.
Proof.
  intros Hp. rewrite find_app. destruct (find p l) eqn:Hf; [done|].
  apply find_None in Hf. congruence.
Qed.

Lemma find_absent (l l' : list A) :
  existsb p l = false -> find p (l ++ l') = find p l'.
Proof. intros Hp. apply find_None in Hp. by rewrite find_app, Hp. Qed.

Lemma findIndex_present (l l' : list A) (i : nat) :
  findIndex p l = Some i -> findIndex p (l ++ l') = Some i.
Proof.
  revert i. induction l as [|x l IH]; simpl; intros i Hi; [discriminate|].
  destruct (p x); [done|].
  destruct (findIndex p l) as [k|]; [|discriminate].
  by rewrite (IH k eq_refl).
Qed.

Lemma findIndex_bound (l : list A) (i : nat) :
  findIndex p l = Some i -> i < length l.
Proof.
  intros Hi. destruct (findIndex_Some p l i Hi) as (a & Ha & _).
  by apply lookup_lt_Some in Ha.
Qed.

Lemma findIndex_present_Some (l : list A) :
  existsb p l = true -> exists i, findIndex p l = Some i.
Proof.
  intros Hp. destruct (findIndex p l) as [i|] eqn:Hi; [by exists i|].
  apply findIndex_None in Hi. congruence.
Qed.

(** The search sees the array through the test only. *)
Lemma findIndex_fmap {B : Type} (f : B -> A) (l : list B) :
  findIndex p (f <$> l) = findIndex (fun b => p (f b)) l.
Proof.
  induction l as [|x l IH]; simpl; [done|]. rewrite <- IH.
  by destruct (p (f x)).
Qed.

Lemma find_fmap {B : Type} (f : B -> A) (l : list B) :
  find p (f <$> l) = f <$> find (fun b => p (f b)) l.
Proof.
  induction l as [|x l IH]; simpl; [done|].
  destruct (p (f x)); [done | exact IH].
Qed.

(** Replacing the first match by an element that fails the test leaves
    the search with the elements around it. *)
Lemma find_insert_miss (l : list A) (i : nat) (x : A) :
  findIndex p l = Some i -> p x = false ->
  find p (<[i := x]> l) = find p (delete i l).
Proof.
  revert i. induction l as [|y l IH]; simpl; intros i Hi Hx; [discriminate|].
  destruct (p y) eqn:Hy.
  - injection Hi as <-. simpl. by rewrite Hx.
  - destruct (findIndex p l) as [k|] eqn:Hk; [|discriminate].
    injection Hi as <-. simpl. rewrite Hy. by apply IH.
Qed.

(** Replacing the first match by an element that passes the test makes it
    the result of the search. *)
Lemma find_insert_hit (l : list A) (i : nat) (x : A) :
  findIndex p l = Some i -> p x = true ->
  find p (<[i := x]> l) = Some x
  /\ findIndex p (<[i := x]> l) = Some i.
Proof.
  revert i. induction l as [|y l IH]; simpl; intros i Hi Hx; [discriminate|].
  destruct (p y) eqn:Hy.
  - injection Hi as <-. simpl. by rewrite Hx.
  - destruct (findIndex p l) as [k|] eqn:Hk; [|discriminate].
    injection Hi as <-. simpl. rewrite Hy.
    destruct (IH k eq_refl Hx) as [-> ->]. done.
Qed.
End ArraySearchAppend.

Lemma alter_as_insert {A : Type} (f : A -> A) (l : list A) (i : nat) (x : A) :
  l !! i = Some x -> alter f i l = <[i := f x]> l.
Proof.
  intros Hx. apply list_eq. intros j. destruct (decide (j = i)) as [->|Hne].
  - rewrite list_lookup_alter_eq, Hx.
    rewrite list_lookup_insert_eq; [done|]. by apply lookup_lt_Some in Hx.
  - rewrite list_lookup_alter_ne, list_lookup_insert_ne; done.
Qed.

Lemma id_is_spec (id : string) (a : JsObject) :
  id_is id a = true <-> a !! "id" = Some (JStr id).
Proof.
  unfold id_is. destruct (a !! "id") as [[]|]; try (split; discriminate).
  rewrite String.eqb_eq. split; congruence.
Qed.

Lemma id_is_same_id (id : string) (a b : JsObject) :
  a !! "id" = b !! "id" -> id_is id a = id_is id b.
Proof. unfold id_is. by intros ->. Qed.

Lemma id_is_other (id other : string) (a : JsObject) :
  a !! "id" = Some (JStr id) -> other <> id -> id_is other a = false.
Proof.
  intros Ha Hne. destruct (id_is other a) eqn:Hid; [|done].
  apply id_is_spec in Hid. congruence.
Qed.

Lemma spread_lookup_data (old data : JsObject) (field : string) (v : JsVal) :
  data !! field = Some v -> spread old data !! field = Some v.
Proof. intros Hv. unfold spread. by apply lookup_union_Some_l. Qed.

Lemma spread_lookup_old (old data : JsObject) (field : string) :
  data !! field = None -> spread old data !! field = old !! field.
Proof. intros Hv. unfold spread. by apply lookup_union_r. Qed.

Lemma spread_id (prefix : string) (now : N) (data : JsObject) :
  spread {["id" := JStr (generated_id prefix now)]} data !! "id"
  = Some (stored_id prefix now data).
Proof.
  unfold stored_id. destruct (data !! "id") as [v|] eqn:Hv; simpl.
  - by apply spread_lookup_data.
  - rewrite spread_lookup_old by done. apply lookup_singleton_eq.
Qed.

Lemma spread_other (prefix : string) (now : N) (data : JsObject)
    (field : string) :
  field <> "id" ->
  spread {["id" := JStr (generated_id prefix now)]} data !! field
  = data !! field.
Proof.
  intros Hne. destruct (data !! field) as [v|] eqn:Hv.
  - by apply spread_lookup_data.
  - rewrite spread_lookup_old by done. apply lookup_singleton_ne. congruence.
Qed.

Lemma newAgent_id (now : N) (createdAt updatedAt : string) (data : JsObject) :
  newAgent now createdAt updatedAt data !! "id"
  = Some (stored_id "agent-" now data).
Proof.
  unfold newAgent. rewrite !lookup_insert_ne by done. apply spread_id.
Qed.

Lemma newSimulation_id (now : N) (createdAt : string) (data : JsObject) :
  newSimulation now createdAt data !! "id" = Some (stored_id "sim-" now data).
Proof.
  unfold newSimulation. rewrite !lookup_insert_ne by done. apply spread_id.
Qed.

Lemma newAgent_matches (now : N) (createdAt updatedAt : string)
    (data : JsObject) (id : string) :
  stored_id "agent-" now data = JStr id ->
  id_is id (newAgent now createdAt updatedAt data) = true
  /\ forall other, other <> id ->
       id_is other (newAgent now createdAt updatedAt data) = false.
Proof.
  intros Hid.
  assert (Hnew : newAgent now createdAt updatedAt data !! "id"
                 = Some (JStr id)) by (by rewrite newAgent_id, Hid).
  split; [by apply id_is_spec|].
  intros other Hne. by apply (id_is_other id).
Qed.

(** X1. A record created by the local fallback can be fetched: when the
    search for the id of the new record (the id of the data if it has
    one, ['agent-' + Date.now()] otherwise) passes over every element of
    the array - none is a record with that id and none is [null] - [get]
    of that id resolves with the record [create] resolved with.  Its
    status is ['ACTIVE'] whatever the data says, the fields of the data
    that [create] does not set are kept, and lookups of other ids are not
    affected. *)
Theorem agentsService_create_then_get
    (now : N) (createdAt updatedAt : string) (data : JsObject)
    (agentsStorage : list (Stored JsObject)) (id : string) :
  stored_id "agent-" now data = JStr id ->
  forallb (skips id) agentsStorage = true ->
  let call :=
    agentsService_create None now createdAt updatedAt data agentsStorage in
  exists created,
    call.2 = Resolved (SObj created)
    /\ agentsService_get id call.1 = Resolved (Some (SObj created))
    /\ agentsService_list call.1 = Resolved (agentsStorage ++ [SObj created])
    /\ created !! "status" = Some (JStr "ACTIVE")
    /\ (forall field, field ∉ "id" :: agent_defaults ->
          created !! field = data !! field)
    /\ (forall other, other <> id ->
          agentsService_get other call.1
          = agentsService_get other agentsStorage).
Proof.
  intros Hid Hmiss. simpl.
  exists (newAgent now createdAt updatedAt data).
  destruct (newAgent_matches now createdAt updatedAt data id Hid)
    as [Hself Hother].
  unfold agentsService_get, agentsService_list.
  split; [done|]. split; [|split; [done|split; [|split]]].
  - rewrite try_find_app.
    destruct (agents_search_miss id _ Hmiss) as [_ ->].
    simpl. unfold by_value. by rewrite Hself.
  - unfold newAgent. rewrite !lookup_insert_ne by done.
    apply lookup_insert_eq.
  - intros field Hf. unfold agent_defaults in Hf.
    rewrite !not_elem_of_cons in Hf.
    destruct Hf as (H0 & H1 & H2 & H3 & H4 & _).
    unfold newAgent. rewrite !lookup_insert_ne by congruence.
    by apply spread_other.
  - intros other Hne. rewrite try_find_app.
    destruct (try_find (id_matches by_value other) agentsStorage)
      as [[found|]|]; try done.
    simpl. unfold by_value. by rewrite (Hother other Hne).
Qed.

Lemma agentsService_create_then_get_witness :
  exists a,
    agentsService_get "agent-1700000000000"
      (agentsService_create None 1700000000000 "2023-11-14T22:13:20.000Z"
         "2023-11-14T22:13:20.000Z"
         (<["name" := JStr "Zoning"]> (<["status" := JStr "PAUSED"]> ∅))
         sample_store).1
    = Resolved (Some (SObj a))
    /\ a !! "status" = Some (JStr "ACTIVE").
Proof.
  assert (Hid : stored_id "agent-" 1700000000000
                  (<["name" := JStr "Zoning"]>
                     (<["status" := JStr "PAUSED"]> ∅))
                = JStr "agent-1700000000000") by (vm_compute; reflexivity).
  assert (Hmiss : forallb (skips "agent-1700000000000") sample_store = true)
    by (vm_compute; reflexivity).
  destruct (agentsService_create_then_get 1700000000000
              "2023-11-14T22:13:20.000Z" "2023-11-14T22:13:20.000Z"
              (<["name" := JStr "Zoning"]> (<["status" := JStr "PAUSED"]> ∅))
              sample_store "agent-1700000000000" Hid Hmiss)
    as (a & _ & Hget & _ & Hstatus & _).
  exists a. split; [exact Hget | exact Hstatus].
Defined.

(** X2. [create] never checks whether the id is taken.  The new element
    is appended after the others, so for an id that a stored agent
    already has, [get], [update] and [delete] keep acting as before the
    push and never reach the new element; with the local fallback two
    calls within the same millisecond produce such a pair. *)
Theorem agentsService_create_keeps_earlier
    (backend : option (Stored JsObject)) (now : N)
    (createdAt updatedAt : string) (data : JsObject)
    (agentsStorage : list (Stored JsObject)) :
  exists created,
    agentsService_create backend now createdAt updatedAt data agentsStorage
    = (agentsStorage ++ [created], Resolved created)
    /\ forall id, agent_present id agentsStorage = true ->
         agentsService_get id (agentsStorage ++ [created])
         = agentsService_get id agentsStorage
         /\ (forall patch stamp,
               agentsService_update id patch stamp (agentsStorage ++ [created])
               = ((agentsService_update id patch stamp agentsStorage).1
                    ++ [created],
                  (agentsService_update id patch stamp agentsStorage).2))
         /\ agentsService_delete id (agentsStorage ++ [created])
            = ((agentsService_delete id agentsStorage).1 ++ [created],
               (agentsService_delete id agentsStorage).2).
Proof.
  exists (match backend with
          | Some agentData => agentData
          | None => SObj (newAgent now createdAt updatedAt data)
          end).
  split; [by destruct backend|].
  intros id Hp. apply agent_present_decided in Hp.
  set (created := match backend with
                  | Some agentData => agentData
                  | None => SObj (newAgent now createdAt updatedAt data)
                  end).
  unfold agentsService_get, agentsService_update, agentsService_delete.
  rewrite !try_find_index, try_findIndex_app.
  destruct (try_findIndex (id_matches by_value id) agentsStorage)
    as [[index|]|] eqn:Hi; [|done|done].
  destruct (try_findIndex_object _ _ _ _ Hi) as (object & Hobject & _).
  pose proof (lookup_lt_Some _ _ _ Hobject) as Hlt.
  rewrite (lookup_app_l agentsStorage) by done. rewrite Hobject.
  split; [done|]. split.
  - intros patch stamp. cbn [fst snd]. by rewrite insert_app_l.
  - cbn [fst snd]. by rewrite insert_app_l.
Qed.

Lemma agentsService_create_keeps_earlier_witness :
  agentsService_get "agent-1"
    (agentsService_create None 1 "t" "t" (<["name" := JStr "Second"]> ∅)
       [SObj (newAgent 1 "t" "t" (<["name" := JStr "First"]> ∅))]).1
  = Resolved (Some (SObj (newAgent 1 "t" "t" (<["name" := JStr "First"]> ∅)))).
Proof.
  destruct (agentsService_create_keeps_earlier None 1 "t" "t"
              (<["name" := JStr "Second"]> ∅)
              [SObj (newAgent 1 "t" "t" (<["name" := JStr "First"]> ∅))])
    as (created & Hcall & Hkeep).
  rewrite Hcall. cbn [fst].
  rewrite (proj1 (Hkeep "agent-1" eq_refl)). reflexivity.
Defined.

(** X3. [agentsService.update] rewrites one element: the first record
    with the id, when the search reaches it.  The array keeps its length
    and its other elements; in the new record [updatedAt] is the time of
    the call, every other field of the data has the value of the data,
    and the remaining fields keep the old value.  When the search passes
    over every element the call rejects with "Agent not found", when it
    meets [null] first it rejects with a TypeError; the array is then
    unchanged. *)
Theorem agentsService_update_rewrites_first
    (id : string) (data : JsObject) (updatedAt : string)
    (agentsStorage : list (Stored JsObject)) :
  (forall index old,
     agentsStorage !! index = Some (SObj old) -> id_is id old = true ->
     forallb (skips id) (take index agentsStorage) = true ->
     exists updated,
       agentsService_update id data updatedAt agentsStorage
       = (<[index := SObj updated]> agentsStorage, Resolved (SObj updated))
       /\ updated !! "updatedAt" = Some (JStr updatedAt)
       /\ (forall field v, field <> "updatedAt" -> data !! field = Some v ->
             updated !! field = Some v)
       /\ (forall field, field <> "updatedAt" -> data !! field = None ->
             updated !! field = old !! field))
  /\ (forallb (skips id) agentsStorage = true ->
      agentsService_update id data updatedAt agentsStorage
      = (agentsStorage, Rejected "Agent not found"))
  /\ (forall index,
        agentsStorage !! index = Some SNull ->
        forallb (skips id) (take index agentsStorage) = true ->
        agentsService_update id data updatedAt agentsStorage
        = (agentsStorage, RejectedTypeError)).
Proof.
  unfold agentsService_update. split; [|split].
  - intros index old Hi Hold Hbefore.
    destruct (agents_search_hit id _ index old Hi Hold Hbefore) as [-> _].
    rewrite Hi.
    exists (<["updatedAt" := JStr updatedAt]> (spread old data)).
    split; [done|]. split; [apply lookup_insert_eq|]. split.
    + intros field v Hne Hv. rewrite lookup_insert_ne by congruence.
      by apply spread_lookup_data.
    + intros field Hne Hv. rewrite lookup_insert_ne by congruence.
      by apply spread_lookup_old.
  - intros Hmiss. by destruct (agents_search_miss id _ Hmiss) as [-> _].
  - intros index Hi Hbefore.
    by destruct (agents_search_null id _ index Hi Hbefore) as [-> _].
Qed.

Lemma agentsService_update_rewrites_first_witness :
  agentsService_update "agent-9" (<["name" := JStr "Zoning"]> ∅) "t"
    sample_store
  = (sample_store, Rejected "Agent not found")
  /\ agentsService_update "agent-1" (<["name" := JStr "Zoning"]> ∅) "t"
       store_with_null
     = (store_with_null, RejectedTypeError)
  /\ exists updated,
       (agentsService_update "agent-1" (<["name" := JStr "Zoning"]> ∅) "t"
          sample_store).1
       = <[0 := SObj updated]> sample_store.
Proof.
  split; [|split].
  - apply (proj1 (proj2 (agentsService_update_rewrites_first "agent-9"
                           (<["name" := JStr "Zoning"]> ∅) "t" sample_store))).
    reflexivity.
  - apply (proj2 (proj2 (agentsService_update_rewrites_first "agent-1"
                           (<["name" := JStr "Zoning"]> ∅) "t"
                           store_with_null)) 0); reflexivity.
  - destruct (proj1 (agentsService_update_rewrites_first "agent-1"
                       (<["name" := JStr "Zoning"]> ∅) "t" sample_store)
                0 (sample_agent "agent-1" "ACTIVE") eq_refl eq_refl eq_refl)
      as (updated & Hcall & _).
    exists updated. by rewrite Hcall.
Defined.

(** X4. An update that does not touch the id is seen by the next lookup:
    when the search reaches a record with the id, [get] of the id then
    resolves with the record [update] resolved with, and a second update
    of the same id rewrites the same slot. *)
Theorem agentsService_update_then_get
    (id : string) (data : JsObject) (updatedAt : string)
    (agentsStorage : list (Stored JsObject)) (index : nat) (old : JsObject) :
  agentsStorage !! index = Some (SObj old) -> id_is id old = true ->
  forallb (skips id) (take index agentsStorage) = true ->
  data !! "id" = None ->
  let call := agentsService_update id data updatedAt agentsStorage in
  exists updated,
    call.2 = Resolved (SObj updated)
    /\ agentsService_get id call.1 = Resolved (Some (SObj updated))
    /\ try_findIndex (id_matches by_value id) call.1 = Ok (Some index)
    /\ length call.1 = length agentsStorage.
Proof.
  intros Hi Hold Hbefore Hdata. simpl. unfold agentsService_update.
  destruct (agents_search_hit id _ index old Hi Hold Hbefore) as [-> _].
  rewrite Hi. cbn [fst snd].
  set (updated := <["updatedAt" := JStr updatedAt]> (spread old data)).
  assert (Hupd : id_matches by_value id (SObj updated) = Ok true).
  { simpl. unfold by_value. rewrite <- Hold. f_equal.
    apply id_is_same_id. unfold updated.
    rewrite lookup_insert_ne by done. by apply spread_lookup_old. }
  destruct (try_search_insert_hit (id_matches by_value id) agentsStorage
              index (SObj old) (SObj updated) Hi Hupd)
    as [Hindex Hfind]; [by apply skips_Forall|].
  exists updated. split; [done|]. split; [|split; [done|]].
  - unfold agentsService_get. by rewrite Hfind.
  - apply length_insert.
Qed.

Lemma agentsService_update_then_get_witness :
  exists updated,
    agentsService_get "agent-2"
      (agentsService_update "agent-2" (<["name" := JStr "Zoning"]> ∅) "t"
         sample_store).1
    = Resolved (Some (SObj updated))
    /\ (agentsService_update "agent-2" (<["name" := JStr "Zoning"]> ∅) "t"
          sample_store).2
       = Resolved (SObj updated).
Proof.
  assert (Hdata : (<["name" := JStr "Zoning"]> ∅ : JsObject) !! "id" = None)
    by (vm_compute; reflexivity).
  destruct (agentsService_update_then_get "agent-2"
              (<["name" := JStr "Zoning"]> ∅) "t" sample_store
              1 (sample_agent "agent-2" "ACTIVE")
              eq_refl eq_refl eq_refl Hdata)
    as (updated & Hcall & Hget & _).
  exists updated. split; [exact Hget | exact Hcall].
Defined.

(** X5. The data of an update may overwrite the id.  The record then no
    longer answers for the old id: the next [get] of the old id gives
    what the array would give without that record - the next record with
    the id if the search reaches one, [undefined] if it passes over the
    rest. *)
Theorem agentsService_update_can_rename
    (id : string) (data : JsObject) (updatedAt : string)
    (agentsStorage : list (Stored JsObject)) (index : nat) (old : JsObject)
    (v : JsVal) :
  agentsStorage !! index = Some (SObj old) -> id_is id old = true ->
  forallb (skips id) (take index agentsStorage) = true ->
  data !! "id" = Some v -> v <> JStr id ->
  exists updated,
    agentsService_update id data updatedAt agentsStorage
    = (<[index := SObj updated]> agentsStorage, Resolved (SObj updated))
    /\ updated !! "id" = Some v
    /\ agentsService_get id (<[index := SObj updated]> agentsStorage)
       = agentsService_get id (delete index agentsStorage).
Proof.
  intros Hi Hold Hbefore Hdata Hv. unfold agentsService_update.
  destruct (agents_search_hit id _ index old Hi Hold Hbefore) as [-> _].
  rewrite Hi.
  set (updated := <["updatedAt" := JStr updatedAt]> (spread old data)).
  assert (Hupd : updated !! "id" = Some v).
  { unfold updated. rewrite lookup_insert_ne by done.
    by apply spread_lookup_data. }
  exists updated. split; [done|]. split; [done|].
  unfold agentsService_get.
  rewrite (try_find_insert_miss (id_matches by_value id) agentsStorage index
             (SObj old) (SObj updated) Hi); [done| |by apply skips_Forall].
  simpl. unfold by_value. f_equal.
  destruct (id_is id updated) eqn:Hu; [|done].
  apply id_is_spec in Hu. congruence.
Qed.

Lemma agentsService_update_can_rename_witness :
  agentsService_get "agent-2"
    (agentsService_update "agent-2" (<["id" := JStr "agent-7"]> ∅) "t"
       sample_store).1
  = Resolved None.
Proof.
  assert (Hdata : (<["id" := JStr "agent-7"]> ∅ : JsObject) !! "id"
                  = Some (JStr "agent-7")) by (vm_compute; reflexivity).
  destruct (agentsService_update_can_rename "agent-2"
              (<["id" := JStr "agent-7"]> ∅) "t" sample_store
              1 (sample_agent "agent-2" "ACTIVE") (JStr "agent-7")
              eq_refl eq_refl eq_refl Hdata)
    as (updated & Hcall & _ & Hget); [discriminate|].
  rewrite Hcall. cbn [fst]. rewrite Hget. reflexivity.
Defined.

(** X6. Deleting is a soft delete that later calls can see and repeat:
    when the search reaches a record with the id, after [delete] the
    record is still listed, [get] of its id resolves with the same record
    with status ['ARCHIVED'], and deleting the same id again resolves and
    changes nothing. *)
Theorem agentsService_delete_then_get
    (id : string) (agentsStorage : list (Stored JsObject)) (index : nat)
    (a : JsObject) :
  agentsStorage !! index = Some (SObj a) -> id_is id a = true ->
  forallb (skips id) (take index agentsStorage) = true ->
  let after := (agentsService_delete id agentsStorage).1 in
  agentsService_get id agentsStorage = Resolved (Some (SObj a))
  /\ agentsService_get id after
     = Resolved (Some (SObj (<["status" := JStr "ARCHIVED"]> a)))
  /\ (exists listed, agentsService_list after = Resolved listed
                     /\ length listed = length agentsStorage)
  /\ agentsService_delete id after = (after, Resolved tt).
Proof.
  intros Hi Ha Hbefore. simpl. unfold agentsService_delete.
  destruct (agents_search_hit id _ index a Hi Ha Hbefore) as [Hindex Hfind].
  rewrite Hindex, Hi. cbn [fst snd].
  set (archived := <["status" := JStr "ARCHIVED"]> a).
  assert (Harch : id_matches by_value id (SObj archived) = Ok true).
  { simpl. unfold by_value. rewrite <- Ha. f_equal.
    apply id_is_same_id. unfold archived. by rewrite lookup_insert_ne. }
  destruct (try_search_insert_hit (id_matches by_value id) agentsStorage
              index (SObj a) (SObj archived) Hi Harch)
    as [Hindex' Hfind']; [by apply skips_Forall|].
  split; [|split; [|split]].
  - unfold agentsService_get. by rewrite Hfind.
  - unfold agentsService_get. by rewrite Hfind'.
  - eexists. split; [reflexivity|]. apply length_insert.
  - rewrite Hindex'.
    rewrite list_lookup_insert_eq by (by apply lookup_lt_Some in Hi).
    f_equal. rewrite list_insert_insert_eq. unfold archived.
    by rewrite insert_insert_eq.
Qed.

Lemma agentsService_delete_then_get_witness :
  agentsService_get "agent-2" (agentsService_delete "agent-2" sample_store).1
  = Resolved (Some (SObj (sample_agent "agent-2" "ARCHIVED"))).
Proof.
  destruct (agentsService_delete_then_get "agent-2" sample_store 1
              (sample_agent "agent-2" "ACTIVE") eq_refl eq_refl eq_refl)
    as (_ & Hafter & _).
  rewrite Hafter. reflexivity.
Defined.

(** X7. A simulation record starts from a fixed state: whatever the data
    carries, the created record has status ['PENDING'] and [results] and
    [metrics] are [null].  When no stored simulation has its id, [get]
    finds it, and an update that leaves the id alone is seen by the next
    [get] with the fields of the update taking precedence. *)
Theorem simulationsService_create_update_get
    (now : N) (createdAt : string) (data patch : JsObject)
    (simulationsStorage : list JsObject) (id : string) :
  stored_id "sim-" now data = JStr id ->
  id_present id simulationsStorage = false ->
  patch !! "id" = None ->
  let created := simulationsService_create now createdAt data
                   simulationsStorage in
  let updated := simulationsService_update id patch created.1 in
  exists simulation,
    created = (simulationsStorage ++ [simulation], Resolved simulation)
    /\ simulation !! "status" = Some (JStr "PENDING")
    /\ simulation !! "results" = Some JNull
    /\ simulation !! "metrics" = Some JNull
    /\ (forall field, field ∉ "id" :: simulation_defaults ->
          simulation !! field = data !! field)
    /\ simulationsService_get id created.1 = Resolved (Some simulation)
    /\ updated = (simulationsStorage ++ [spread simulation patch],
                  Resolved (spread simulation patch))
    /\ simulationsService_get id updated.1
       = Resolved (Some (spread simulation patch)).
Proof.
  intros Hid Habsent Hpatch. simpl.
  set (simulation := newSimulation now createdAt data).
  assert (Hnew : simulation !! "id" = Some (JStr id))
    by (unfold simulation; by rewrite newSimulation_id, Hid).
  assert (Hself : id_is id simulation = true) by by apply id_is_spec.
  assert (Hindex : findIndex (id_is id) (simulationsStorage ++ [simulation])
                   = Some (length simulationsStorage)).
  { unfold id_present in Habsent. clear -Habsent Hself.
    induction simulationsStorage as [|x l IH]; simpl in *.
    - by rewrite Hself.
    - apply orb_false_iff in Habsent as [-> Hl]. by rewrite IH. }
  assert (Hafter : id_is id (spread simulation patch) = true).
  { rewrite <- Hself. apply id_is_same_id. by apply spread_lookup_old. }
  exists simulation. unfold simulationsService_create. fold simulation.
  split; [done|]. split; [|split; [|split; [|split; [|split; [|split]]]]].
  - unfold simulation, newSimulation. rewrite !lookup_insert_ne by done.
    apply lookup_insert_eq.
  - unfold simulation, newSimulation. rewrite lookup_insert_ne by done.
    apply lookup_insert_eq.
  - apply lookup_insert_eq.
  - intros field Hf. unfold simulation_defaults in Hf.
    rewrite !not_elem_of_cons in Hf.
    destruct Hf as (H0 & H1 & H2 & H3 & H4 & _).
    unfold simulation, newSimulation. rewrite !lookup_insert_ne by congruence.
    by apply spread_other.
  - unfold simulationsService_get, id_present in *. simpl.
    rewrite find_absent by done. simpl. by rewrite Hself.
  - unfold simulationsService_update. simpl. rewrite Hindex.
    assert (Halter : alter (fun old => spread old patch)
                       (length simulationsStorage)
                       (simulationsStorage ++ [simulation])
                     = simulationsStorage ++ [spread simulation patch]).
    { by rewrite <- (Nat.add_0_r (length simulationsStorage)), alter_app_r. }
    rewrite Halter. f_equal. f_equal. by apply list_lookup_total_middle.
  - unfold simulationsService_update. simpl. rewrite Hindex. simpl.
    rewrite <- (Nat.add_0_r (length simulationsStorage)) at 1.
    rewrite alter_app_r. simpl.
    unfold simulationsService_get, id_present in *.
    rewrite find_absent by done. simpl. by rewrite Hafter.
Qed.

Lemma simulationsService_create_update_get_witness :
  exists simulation,
    simulationsService_get "sim-1700000000000"
      (simulationsService_update "sim-1700000000000"
         (<["status" := JStr "COMPLETED"]> ∅)
         (simulationsService_create 1700000000000 "t"
            (<["city" := JStr "San Francisco, CA"]>
               (<["status" := JStr "COMPLETED"]> ∅)) []).1).1
    = Resolved (Some (spread simulation (<["status" := JStr "COMPLETED"]> ∅)))
    /\ simulation !! "status" = Some (JStr "PENDING").
Proof.
  assert (Hid : stored_id "sim-" 1700000000000
                  (<["city" := JStr "San Francisco, CA"]>
                     (<["status" := JStr "COMPLETED"]> ∅))
                = JStr "sim-1700000000000") by (vm_compute; reflexivity).
  assert (Hpatch : (<["status" := JStr "COMPLETED"]> ∅ : JsObject) !! "id"
                   = None) by (vm_compute; reflexivity).
  destruct (simulationsService_create_update_get 1700000000000 "t"
              (<["city" := JStr "San Francisco, CA"]>
                 (<["status" := JStr "COMPLETED"]> ∅))
              (<["status" := JStr "COMPLETED"]> ∅) [] "sim-1700000000000"
              Hid eq_refl Hpatch)
    as (simulation & _ & Hstatus & _ & _ & _ & _ & _ & Hget).
  exists simulation. split; [exact Hget | exact Hstatus].
Defined.

(** X8. [simulationsService.update] merges the data into the first
    record with the id and nothing else: no timestamp is written, so an
    update with empty data leaves the array as it was, and every field the
    data does not name keeps its value.  With no such record the call
    rejects with "Simulation not found" and the array is unchanged. *)
Theorem simulationsService_update_merges
    (id : string) (data : JsObject) (simulationsStorage : list JsObject) :
  (id_present id simulationsStorage = true ->
   exists index old,
     findIndex (id_is id) simulationsStorage = Some index
     /\ simulationsStorage !! index = Some old
     /\ simulationsService_update id data simulationsStorage
        = (<[index := spread old data]> simulationsStorage,
           Resolved (spread old data))
     /\ (forall field v, data !! field = Some v ->
           spread old data !! field = Some v)
     /\ (forall field, data !! field = None ->
           spread old data !! field = old !! field)
     /\ simulationsService_update id ∅ simulationsStorage
        = (simulationsStorage, Resolved old))
  /\ (id_present id simulationsStorage = false ->
      simulationsService_update id data simulationsStorage
      = (simulationsStorage, Rejected "Simulation not found")).
Proof.
  unfold simulationsService_update, id_present. split; intros Hp.
  - destruct (findIndex_present_Some _ _ Hp) as [index Hi]. rewrite Hi.
    destruct (findIndex_Some _ _ _ Hi) as (old & Hold & Hid & _).
    pose proof (lookup_lt_Some _ _ _ Hold) as Hlt.
    exists index, old. split; [done|]. split; [done|].
    rewrite !(alter_as_insert _ _ _ _ Hold).
    split; [|split; [|split]].
    + f_equal. f_equal.
      by apply list_lookup_total_correct, list_lookup_insert_eq.
    + intros field v. apply spread_lookup_data.
    + intros field. apply spread_lookup_old.
    + assert (Hempty : spread old ∅ = old)
        by (unfold spread; apply (left_id_L ∅ (∪))).
      rewrite Hempty, list_insert_id by done. f_equal. f_equal.
      by apply list_lookup_total_correct.
  - apply findIndex_None in Hp. by rewrite Hp.
Qed.

Lemma simulationsService_update_merges_witness :
  simulationsService_update "sim-9" (<["status" := JStr "RUNNING"]> ∅)
    sample_agents
  = (sample_agents, Rejected "Simulation not found")
  /\ (simulationsService_update "agent-2" ∅ sample_agents).1 = sample_agents.
Proof.
  split.
  - exact (proj2 (simulationsService_update_merges "sim-9"
                    (<["status" := JStr "RUNNING"]> ∅) sample_agents)
             eq_refl).
  - destruct (proj1 (simulationsService_update_merges "agent-2" ∅
                       sample_agents) eq_refl)
      as (index & old & _ & _ & _ & _ & _ & Hempty).
    by rewrite Hempty.
Defined.

(** ** Storage with shared objects *)

Lemma try_findIndex_ext {A : Type} (p q : A -> Try bool) (l : list A) :
  Forall (fun a => p a = q a) l -> try_findIndex p l = try_findIndex q l.
Proof.
  induction l as [|x l IH]; intros Hl; [done|].
  inversion Hl as [|? ? Hx Hl']; subst. simpl. by rewrite Hx, IH.
Qed.

Lemma try_find_ext {A : Type} (p q : A -> Try bool) (l : list A) :
  Forall (fun a => p a = q a) l -> try_find p l = try_find q l.
Proof.
  induction l as [|x l IH]; intros Hl; [done|].
  inversion Hl as [|? ? Hx Hl']; subst. simpl. by rewrite Hx, IH.
Qed.

Lemma id_matches_by_value (st : Shared.Store) (id : string)
    (a : Stored nat) :
  id_matches by_value id (stored_map (Shared.deref st) a)
  = id_matches (Shared.deref st) id a.
Proof. by destruct a. Qed.

Lemma deref_after_alloc (st : Shared.Store) (object : JsObject)
    (slots : list (Stored nat)) (ref : nat) :
  ref < length (Shared.heap st) ->
  Shared.deref (Shared.mkStore (Shared.heap st ++ [object]) slots) ref
  = Shared.deref st ref.
Proof. intros Hlt. unfold Shared.deref. simpl. by apply lookup_total_app_l. Qed.

Lemma deref_allocated (st : Shared.Store) (object : JsObject)
    (slots : list (Stored nat)) :
  Shared.deref (Shared.mkStore (Shared.heap st ++ [object]) slots)
    (length (Shared.heap st))
  = object.
Proof. unfold Shared.deref. simpl. by apply list_lookup_total_middle. Qed.

(** Allocating an object does not change what the slots of a well-formed
    store refer to. *)
Lemma slots_after_alloc (st : Shared.Store) (object : JsObject)
    (slots : list (Stored nat)) :
  Shared.well_formed st ->
  Forall (fun a =>
            stored_map
              (Shared.deref (Shared.mkStore (Shared.heap st ++ [object])
                               slots)) a
            = stored_map (Shared.deref st) a)
    (Shared.agentsStorage st).
Proof.
  intros [_ Hbound]. apply Forall_lookup. intros i a Ha.
  destruct a; try done. simpl. f_equal. apply deref_after_alloc.
  by apply (Hbound i).
Qed.

Lemma contents_after_alloc (st : Shared.Store) (object : JsObject)
    (slots : list (Stored nat)) :
  Shared.well_formed st ->
  stored_map (Shared.deref (Shared.mkStore (Shared.heap st ++ [object])
                              slots))
    <$> Shared.agentsStorage st
  = Shared.contents st.
Proof.
  intros Hwf. unfold Shared.contents. apply Forall_fmap_ext.
  by apply slots_after_alloc.
Qed.

Lemma shared_findIndex (id : string) (st : Shared.Store) :
  try_findIndex (id_matches (Shared.deref st) id) (Shared.agentsStorage st)
  = try_findIndex (id_matches by_value id) (Shared.contents st).
Proof.
  unfold Shared.contents. rewrite try_findIndex_fmap.
  apply try_findIndex_ext, Forall_forall. intros a _.
  symmetry. apply id_matches_by_value.
Qed.

Lemma shared_find (id : string) (st : Shared.Store) :
  try_find (id_matches by_value id) (Shared.contents st)
  = match try_find (id_matches (Shared.deref st) id)
            (Shared.agentsStorage st) with
    | Ok found => Ok (stored_map (Shared.deref st) <$> found)
    | Throws => Throws
    end.
Proof.
  unfold Shared.contents. rewrite try_find_fmap.
  rewrite (try_find_ext _ (id_matches (Shared.deref st) id)); [done|].
  apply Forall_forall. intros a _. apply id_matches_by_value.
Qed.

(** The slot the search stops at and the element it holds. *)
Lemma shared_slot (st : Shared.Store) (index : nat) :
  Shared.contents st !! index
  = stored_map (Shared.deref st) <$> (Shared.agentsStorage st !! index).
Proof. unfold Shared.contents. apply list_lookup_fmap. Qed.

Lemma shared_slot_object (id : string) (st : Shared.Store) (index : nat) :
  try_findIndex (id_matches by_value id) (Shared.contents st)
  = Ok (Some index) ->
  exists ref,
    Shared.agentsStorage st !! index = Some (SObj ref)
    /\ Shared.contents st !! index = Some (SObj (Shared.deref st ref))
    /\ id_is id (Shared.deref st ref) = true.
Proof.
  intros Hi. rewrite <- shared_findIndex in Hi.
  destruct (try_findIndex_object _ _ _ _ Hi) as (ref & Href & Hid & _).
  exists ref. split; [done|]. split; [|done].
  by rewrite shared_slot, Href.
Qed.

(** Every call keeps the array free of dangling and of repeated
    references. *)
Lemma call_well_formed (st : Shared.Store) (c : Shared.Call) :
  Shared.well_formed st -> Shared.well_formed (Shared.call st c).
Proof.
  intros [Hinj Hbound]. destruct c as [backend now c u data|id data u|id];
    simpl.
  - set (a := match backend with
              | Some agentData => agentData
              | None => SObj (newAgent now c u data)
              end).
    unfold Shared.push. split; simpl.
    + intros i j ref Hi Hj.
      apply lookup_app_Some in Hi as [Hi|[Hlen Hi]];
        apply lookup_app_Some in Hj as [Hj|[Hlen' Hj]].
      * by apply (Hinj i j ref).
      * apply list_lookup_singleton_Some in Hj as [_ Hj].
        destruct a; try discriminate. injection Hj as <-.
        apply Hbound in Hi. lia.
      * apply list_lookup_singleton_Some in Hi as [_ Hi].
        destruct a; try discriminate. injection Hi as <-.
        apply Hbound in Hj. lia.
      * apply list_lookup_singleton_Some in Hi as [Hi _].
        apply list_lookup_singleton_Some in Hj as [Hj _]. lia.
    + intros i ref Hi.
      apply lookup_app_Some in Hi as [Hi|[Hlen Hi]].
      * apply Hbound in Hi. destruct a; try done.
        rewrite length_app. simpl. lia.
      * apply list_lookup_singleton_Some in Hi as [_ Hi].
        destruct a; try discriminate. injection Hi as <-.
        rewrite length_app. simpl. lia.
  - unfold Shared.update.
    destruct (try_findIndex _ (Shared.agentsStorage st)) as [[index|]|];
      [|done|done].
    destruct (Shared.agentsStorage st !! index) as [[]|] eqn:Hslot;
      try done.
    split; simpl.
    + intros i j ref Hi Hj.
      apply list_lookup_insert_Some in Hi as [(-> & Hi & _)|[Hne Hi]];
        apply list_lookup_insert_Some in Hj as [(Hij & Hj & _)|[Hne' Hj]].
      * done.
      * injection Hi as <-. apply Hbound in Hj. lia.
      * injection Hj as <-. apply Hbound in Hi. lia.
      * by apply (Hinj i j ref).
    + intros i ref Hi. rewrite length_app. simpl.
      apply list_lookup_insert_Some in Hi as [(_ & Hi & _)|[_ Hi]].
      * injection Hi as <-. lia.
      * apply Hbound in Hi. lia.
  - unfold Shared.delete.
    destruct (try_findIndex _ (Shared.agentsStorage st)) as [[index|]|];
      [|done|done].
    destruct (Shared.agentsStorage st !! index) as [[]|] eqn:Hslot;
      try done.
    split; simpl; [done|]. intros i ref Hi. rewrite length_alter.
    by apply (Hbound i).
Qed.

(** On a well-formed store a call does to the array, read as values,
    what the same call does to an array of values. *)
Lemma call_refines (st : Shared.Store) (c : Shared.Call) :
  Shared.well_formed st ->
  Shared.contents (Shared.call st c)
  = Shared.call_by_value (Shared.contents st) c.
Proof.
  intros Hwf. pose proof Hwf as [Hinj Hbound].
  destruct c as [backend now c u data|id data u|id]; simpl.
  - set (a := match backend with
              | Some agentData => agentData
              | None => SObj (newAgent now c u data)
              end).
    assert (Hvalue : (agentsService_create backend now c u data
                        (Shared.contents st)).1
                     = Shared.contents st ++ [a]) by (by destruct backend).
    rewrite Hvalue. unfold Shared.contents at 1, Shared.push.
    cbn [Shared.agentsStorage]. rewrite fmap_app. f_equal.
    + destruct a; try done. by apply contents_after_alloc.
    + destruct a; try done. simpl. by rewrite deref_allocated.
  - unfold Shared.update, agentsService_update. rewrite shared_findIndex.
    destruct (try_findIndex (id_matches by_value id) (Shared.contents st))
      as [[index|]|] eqn:Hi; [|done|done].
    destruct (shared_slot_object _ _ _ Hi) as (ref & Href & Hold & _).
    rewrite Href, Hold. cbn [fst].
    unfold Shared.contents at 1. cbn [Shared.agentsStorage].
    rewrite list_fmap_insert. cbn [stored_map].
    by rewrite deref_allocated, contents_after_alloc.
  - unfold Shared.delete, agentsService_delete. rewrite shared_findIndex.
    destruct (try_findIndex (id_matches by_value id) (Shared.contents st))
      as [[index|]|] eqn:Hi; [|done|done].
    destruct (shared_slot_object _ _ _ Hi) as (ref & Href & Hold & _).
    rewrite Href, Hold. cbn [fst].
    apply list_eq. intros j.
    unfold Shared.contents at 1. cbn [Shared.agentsStorage].
    rewrite list_lookup_fmap.
    destruct (decide (j = index)) as [->|Hne].
    + rewrite Href. simpl.
      rewrite list_lookup_insert_eq
        by (apply lookup_lt_Some in Hold; exact Hold).
      do 2 f_equal. unfold Shared.deref. simpl.
      apply list_lookup_total_alter_eq. by apply (Hbound index).
    + rewrite list_lookup_insert_ne by done. rewrite shared_slot.
      destruct (Shared.agentsStorage st !! j) as [a|] eqn:Hj; [|done].
      simpl. f_equal. destruct a; try done. simpl. f_equal.
      unfold Shared.deref. simpl.
      apply list_lookup_total_alter_ne. intros Heq. subst object.
      apply Hne. by apply (Hinj j index ref).
Qed.

Lemma reachable_well_formed (calls : list Shared.Call) :
  Shared.well_formed (foldl Shared.call Shared.empty calls).
Proof.
  induction calls as [|c calls IH] using rev_ind.
  - split; intros *; simpl; by rewrite lookup_nil.
  - rewrite foldl_app. simpl. by apply call_well_formed.
Qed.

(** X9. The array of references behaves like an array of values, and
    never holds a dangling or a repeated reference: after any sequence of
    [create], [update] and [delete] calls from the empty array - a
    [create] storing whatever the backend answers, [null] included - the
    elements the array holds are those the value-level calls produce, and
    [get] settles as the value-level [get] does, resolving with a
    reference to the record that one resolves with. *)
Theorem shared_storage_refines (calls : list Shared.Call) (id : string) :
  let st := foldl Shared.call Shared.empty calls in
  Shared.well_formed st
  /\ Shared.contents st = foldl Shared.call_by_value [] calls
  /\ agentsService_get id (foldl Shared.call_by_value [] calls)
     = match Shared.get id st with
       | Resolved found => Resolved (stored_map (Shared.deref st) <$> found)
       | Rejected message => Rejected message
       | RejectedTypeError => RejectedTypeError
       end.
Proof.
  simpl. assert (Hcontents : Shared.contents
                               (foldl Shared.call Shared.empty calls)
                             = foldl Shared.call_by_value [] calls).
  { induction calls as [|c calls IH] using rev_ind; [done|].
    rewrite !foldl_app. simpl. rewrite <- IH.
    apply call_refines, reachable_well_formed. }
  split; [apply reachable_well_formed|]. split; [done|].
  unfold agentsService_get, Shared.get. rewrite <- Hcontents, shared_find.
  by destruct (try_find _ (Shared.agentsStorage _)).
Qed.

(** X10. Who holds an object returned by [get] sees a later [delete] but
    not a later [update]: [delete] writes the status into that very
    object, while [update] puts a new object into the array and leaves
    the old one as it was, so the holder keeps the outdated record and the
    next [get] resolves with a different object.  A later [create] does
    not touch it either. *)
Theorem shared_object_aliasing
    (calls : list Shared.Call) (id : string) (ref : nat)
    (data : JsObject) (updatedAt : string) :
  let st := foldl Shared.call Shared.empty calls in
  Shared.get id st = Resolved (Some (SObj ref)) ->
  Shared.deref (Shared.delete id st).1 ref
  = <["status" := JStr "ARCHIVED"]> (Shared.deref st ref)
  /\ (exists st' ref',
        Shared.update id data updatedAt st = (st', Resolved (SObj ref'))
        /\ ref' <> ref
        /\ Shared.deref st' ref = Shared.deref st ref
        /\ Shared.deref st' ref'
           = <["updatedAt" := JStr updatedAt]> (spread (Shared.deref st ref) data)
        /\ (data !! "id" = None ->
            Shared.get id st' = Resolved (Some (SObj ref'))))
  /\ (forall backend now createdAt stamp fields,
        Shared.deref
          (Shared.create backend now createdAt stamp fields st).1 ref
        = Shared.deref st ref).
Proof.
  simpl. set (st := foldl Shared.call Shared.empty calls).
  pose proof (reachable_well_formed calls) as Hwf. fold st in Hwf.
  pose proof Hwf as [Hinj Hbound].
  intros Hget. unfold Shared.get in Hget.
  rewrite try_find_index in Hget.
  pose proof (try_findIndex_inv (id_matches (Shared.deref st) id)
                (Shared.agentsStorage st)) as Hinv.
  destruct (try_findIndex (id_matches (Shared.deref st) id)
              (Shared.agentsStorage st)) as [[index|]|] eqn:Hi;
    try discriminate.
  injection Hget as Hslot.
  destruct Hinv as (a & Ha & Hpa & Hbefore).
  assert (a = SObj ref) as -> by congruence.
  simpl in Hpa. injection Hpa as Hid.
  assert (Hlt : ref < length (Shared.heap st)) by (by apply (Hbound index)).
  split; [|split].
  - unfold Shared.delete. rewrite Hi, Hslot. unfold Shared.deref. simpl.
    by apply list_lookup_total_alter_eq.
  - unfold Shared.update. rewrite Hi, Hslot.
    eexists _, _. split; [reflexivity|]. split; [lia|].
    split; [by apply deref_after_alloc|]. split; [apply deref_allocated|].
    intros Hdata. unfold Shared.get.
    set (object := <["updatedAt" := JStr updatedAt]>
                     (spread (Shared.deref st ref) data)).
    set (st' := Shared.mkStore (Shared.heap st ++ [object])
                  (<[index := SObj (length (Shared.heap st))]>
                     (Shared.agentsStorage st))).
    assert (Hobject : id_is id object = true).
    { rewrite <- Hid. apply id_is_same_id. unfold object.
      rewrite lookup_insert_ne by done. by apply spread_lookup_old. }
    assert (Hsame : Forall (fun a => id_matches (Shared.deref st') id a
                                     = id_matches (Shared.deref st) id a)
                      (Shared.agentsStorage st)).
    { eapply Forall_impl;
        [apply (slots_after_alloc st object
                  (<[index := SObj (length (Shared.heap st))]>
                     (Shared.agentsStorage st)) Hwf)|].
      intros b Hb. rewrite <- !id_matches_by_value.
      unfold st'. by rewrite Hb. }
    assert (Hbefore' : Forall (fun b => id_matches (Shared.deref st') id b
                                        = Ok false)
                         (take index (Shared.agentsStorage st))).
    { apply Forall_take with (n := index) in Hsame.
      rewrite Forall_forall in Hsame, Hbefore |- *.
      intros b Hb. rewrite (Hsame b Hb). by apply Hbefore. }
    destruct (try_search_insert_hit (id_matches (Shared.deref st') id)
                (Shared.agentsStorage st) index (SObj ref)
                (SObj (length (Shared.heap st))) Hslot) as [_ Hfind];
      [|done|].
    + cbn [id_matches]. unfold st'. by rewrite deref_allocated, Hobject.
    + unfold st' in *. cbn [Shared.agentsStorage]. by rewrite Hfind.
  - intros backend now createdAt stamp fields. unfold Shared.create.
    cbn [fst]. unfold Shared.push.
    destruct (match backend with
              | Some agentData => agentData
              | None => SObj (newAgent now createdAt stamp fields)
              end); try done.
    by apply deref_after_alloc.
Qed.

Lemma shared_object_aliasing_witness :
  Shared.deref
    (Shared.delete "agent-1"
       (foldl Shared.call Shared.empty
          [Shared.Create None 1 "t" "t" (<["name" := JStr "First"]> ∅)])).1 0
  = <["status" := JStr "ARCHIVED"]>
      (newAgent 1 "t" "t" (<["name" := JStr "First"]> ∅)).
Proof.
  assert (Hget : Shared.get "agent-1"
                   (foldl Shared.call Shared.empty
                      [Shared.Create None 1 "t" "t"
                         (<["name" := JStr "First"]> ∅)])
                 = Resolved (Some (SObj 0))) by (vm_compute; reflexivity).
  exact (proj1 (shared_object_aliasing
                  [Shared.Create None 1 "t" "t" (<["name" := JStr "First"]> ∅)]
                  "agent-1" 0 ∅ "t" Hget)).
Defined.

(** ** Workflow runner: chains of executions *)

(** A run of a plan is the chain of its executions, followed by the
    continuation when all of them complete. *)
Lemma runPlan_chain {A : Type} (cid : string)
    (pl : list (WorkflowStep * JsVal)) (k : Async A) (env : list Connection) :
  runPlan cid pl k env
  = match chain_outcome (length pl) env with
    | Returned _ =>
        mkOutcome
          (chain_effects cid pl env ++ effects (k (drop (length pl) env)))
          (completion (k (drop (length pl) env)))
          (unread (k (drop (length pl) env)))
    | Thrown e =>
        mkOutcome (chain_effects cid pl env) (Thrown e)
          (drop (chain_length (length pl) env) env)
    | Suspended =>
        mkOutcome (chain_effects cid pl env) Suspended
          (drop (chain_length (length pl) env) env)
    end.
Proof.
  revert env. induction pl as [|[s request] pl IH]; intros env.
  - simpl. rewrite drop_0. by destruct (k env).
  - cbn [runPlan length chain_outcome chain_effects chain_length].
    rewrite bind_unfold, IH, !drop_S_tl.
    rewrite executeStep_unfold. cbn [completion effects unread].
    destruct (settlement (hd silent_connection env));
      rewrite ?app_nil_r; try done.
    destruct (chain_outcome (length pl) (tl env));
      cbn [completion effects unread]; by rewrite ?app_assoc.
Qed.

Lemma chain_length_returned (n : nat) (env : list Connection) :
  chain_outcome n env = Returned tt -> chain_length n env = n.
Proof.
  revert env. induction n as [|n IH]; intros env Hc; [done|]. simpl in *.
  destruct (settlement (hd silent_connection env)); try discriminate.
  by rewrite IH.
Qed.

Lemma workflowSteps_chain (inp : Inputs) (env : list Connection) :
  effects (workflowSteps inp env)
  = chain_effects (clientId inp) (plan inp) env
    ++ match chain_outcome (length (plan inp)) env with
       | Returned _ => [SetCurrentStep None]
       | _ => []
       end
  /\ completion (workflowSteps inp env)
     = chain_outcome (length (plan inp)) env
  /\ unread (workflowSteps inp env)
     = drop (chain_length (length (plan inp)) env) env.
Proof.
  rewrite workflowSteps_plan, runPlan_chain.
  destruct (chain_outcome (length (plan inp)) env) as [[]| |] eqn:Hc;
    cbn [effects completion unread perform]; rewrite ?app_nil_r; try done.
  by rewrite (chain_length_returned _ _ Hc).
Qed.

Lemma runWorkflow_completion (inp : Inputs) (env : list Connection) :
  falsy (politicianName inp) || falsy (policyGoal inp) || falsy (city inp)
    = false ->
  completion (runWorkflow inp env)
  = match completion (workflowSteps inp env) with
    | Thrown _ => Returned tt
    | c => c
    end
  /\ unread (runWorkflow inp env) = unread (workflowSteps inp env).
Proof.
  intros Hvalid. unfold runWorkflow. rewrite Hvalid.
  rewrite bind_unfold. simpl. unfold try_finally, try_catch.
  destruct (completion (workflowSteps inp env)) as [[]| |] eqn:Hc; simpl;
    rewrite ?Hc; simpl; rewrite ?Hc; simpl; done.
Qed.

(** *** What one execution does to the state *)

Lemma belongs_silent (cid : string) (s : WorkflowStep) (a : Action) :
  belongs cid s a -> silent_effect a.
Proof. by destruct a. Qed.

Lemma exec_isRunning (st : State) (tr : list Action) :
  Forall (fun a => forall b, a <> SetIsRunning b) tr ->
  isRunning (exec st tr) = isRunning st.
Proof.
  revert st. induction tr as [|a tr IH]; intros st Htr; [done|].
  inversion Htr as [|? ? Ha Htr']; subst. rewrite exec_cons, IH by done.
  destruct a; try done. by destruct (Ha b).
Qed.

Lemma silent_keeps_flag (tr : list Action) :
  Forall silent_effect tr -> Forall (fun a => forall b, a <> SetIsRunning b) tr.
Proof.
  intros Htr. eapply Forall_impl; [exact Htr|]. intros a Ha b ->. done.
Qed.

Lemma silent_no_alert (tr : list Action) :
  Forall silent_effect tr -> Forall (fun a => forall m, a <> Alert m) tr.
Proof.
  intros Htr. eapply Forall_impl; [exact Htr|]. intros a Ha b ->. done.
Qed.

Lemma executeStep_silent (cid : string) (s : WorkflowStep) (request : JsVal)
    (env : list Connection) :
  Forall silent_effect (effects (executeStep cid s request env)).
Proof.
  eapply Forall_impl; [apply executeStep_belongs|].
  intros a. apply belongs_silent.
Qed.

Lemma executeStep_other (cid : string) (s t : WorkflowStep) (request : JsVal)
    (env : list Connection) (st : State) :
  t <> s ->
  step_state (steps (exec st (effects (executeStep cid s request env)))) t
  = step_state (steps st) t.
Proof.
  intros Hne. apply exec_other_step.
  eapply Forall_impl; [apply (executeStep_belongs cid s request env)|].
  intros a Ha. destruct a; simpl in *; congruence.
Qed.

Lemma deliver_currentStep (step : WorkflowStep) (msgs : list Message)
    (fullOutput : string) (st : State) :
  currentStep (exec st (deliver step fullOutput msgs).2) = currentStep st.
Proof.
  apply exec_currentStep. eapply streamed_quiet, deliver_streamed.
Qed.

Lemma deliver_report (step : WorkflowStep) (msgs : list Message)
    (fullOutput : string) (st : State) :
  finalReport (exec st (deliver step fullOutput msgs).2)
  = match step, tokens_of msgs with
    | aggregator, _ :: _ => fullOutput +:+ concat_all (tokens_of msgs)
    | _, _ => finalReport st
    end.
Proof.
  revert fullOutput st. induction msgs as [|m msgs IH]; intros fo st.
  - by destruct step.
  - destruct m as [agent|token|]; try apply IH.
    rewrite deliver_token. cbn [snd]. rewrite exec_app, IH.
    change (tokens_of (MsgToken token :: msgs)) with (token :: tokens_of msgs).
    destruct step; try (by destruct (tokens_of msgs)).
    destruct (tokens_of msgs) as [|t l].
    + simpl. by rewrite append_nil_r.
    + change (concat_all (token :: t :: l))
        with (token +:+ concat_all (t :: l)).
      apply append_assoc.
Qed.

(** The state after one execution: the step is current, its status,
    result and error are those of the way the connection ended, its
    output has grown by the streamed tokens, and the report is the
    stream of the aggregator. *)
Lemma executeStep_state (cid : string) (s : WorkflowStep) (request : JsVal)
    (env : list Connection) (st : State) :
  let c := hd silent_connection env in
  let after := exec st (effects (executeStep cid s request env)) in
  currentStep after = Some s
  /\ isRunning after = isRunning st
  /\ status_of after s = left_status c
  /\ result (step_state (steps after) s) = left_result c
  /\ error (step_state (steps after) s) = left_error c
  /\ finalReport after
     = match s, tokens_of (delivered c) with
       | aggregator, _ :: _ => concat_all (tokens_of (delivered c))
       | _, _ => finalReport st
       end.
Proof.
  cbv zeta. split; [|split].
  - rewrite executeStep_unfold. cbn [effects].
    rewrite exec_app. rewrite exec_currentStep; [done|].
    destruct (hd silent_connection env) as [exception|session]; [done|].
    cbn [streamed_effects]. constructor; [discriminate|].
    apply Forall_app. split.
    { unfold onopen. destruct (opens session); repeat constructor;
        discriminate. }
    apply Forall_app. split; [eapply streamed_quiet, deliver_streamed|].
    destruct (closing session); simpl; repeat constructor; discriminate.
  - apply exec_isRunning, silent_keeps_flag, executeStep_silent.
  - rewrite executeStep_unfold. cbn [effects]. rewrite exec_app.
    set (st1 := exec st _).
    assert (H1 : status_of st1 s = Status.running
                 /\ result (step_state (steps st1) s) = None
                 /\ error (step_state (steps st1) s) = None
                 /\ finalReport st1 = finalReport st).
    { unfold st1, status_of. simpl. unfold updateStepStatus.
      by rewrite step_state_with_eq. }
    destruct H1 as (Hs1 & Hr1 & He1 & Hf1).
    destruct (hd silent_connection env) as [exception|session].
    { cbn [streamed_effects left_status left_result left_error delivered
           tokens_of omap exec foldl].
      repeat split; try done. by destruct s. }
    cbn [streamed_effects left_status left_result left_error delivered].
    rewrite exec_opening, exec_app.
    set (st2 := exec st1 (deliver s "" _).2).
    destruct (streamed_step_state s _ st1
                (deliver_streamed s (messages session) ""))
      as (Hs2 & Hr2 & He2).
    fold st2 in Hs2, Hr2, He2.
    assert (Hf2 : finalReport st2
                  = match s, tokens_of (messages session) with
                    | aggregator, _ :: _ =>
                        concat_all (tokens_of (messages session))
                    | _, _ => finalReport st
                    end).
    { unfold st2. rewrite deliver_report, Hf1.
      by destruct s, (tokens_of (messages session)). }
    rewrite <- Hf2. unfold status_of in *.
    destruct (closing session); simpl;
      unfold updateStepStatus; rewrite ?step_state_with_eq; simpl;
      rewrite ?Hs2, ?Hr2, ?He2; done.
Qed.

(** *** What a chain does to the state *)

Lemma chain_silent (cid : string) (pl : list (WorkflowStep * JsVal))
    (env : list Connection) :
  Forall silent_effect (chain_effects cid pl env).
Proof.
  revert env. induction pl as [|[s request] pl IH]; intros env; [done|].
  simpl. apply Forall_app. split; [apply executeStep_silent|].
  by destruct (settlement (hd silent_connection env)).
Qed.

Lemma chain_other (cid : string) (pl : list (WorkflowStep * JsVal))
    (env : list Connection) (st : State) (t : WorkflowStep) :
  t ∉ map fst pl ->
  step_state (steps (exec st (chain_effects cid pl env))) t
  = step_state (steps st) t.
Proof.
  revert env st. induction pl as [|[s request] pl IH]; intros env st Ht;
    [done|].
  simpl in Ht. apply not_elem_of_cons in Ht as [Hne Ht].
  simpl. rewrite exec_app.
  destruct (settlement (hd silent_connection env));
    rewrite ?IH by done; by apply executeStep_other.
Qed.

Lemma chain_opened (cid : string) (pl : list (WorkflowStep * JsVal))
    (env : list Connection) :
  opened (chain_effects cid pl env)
  = map (fun sr => (cid +:+ "-" +:+ step_name sr.1, sr.2))
      (take (chain_sockets (length pl) env) pl).
Proof.
  revert env. induction pl as [|[s request] pl IH]; intros env; [done|].
  simpl. rewrite opened_app, opened_executeStep.
  destruct (hd silent_connection env) as [exception|session]; [done|].
  cbn [settlement app]. simpl. f_equal.
  destruct (closing session); try (by rewrite take_0).
  apply IH.
Qed.

(** A chain that does not end on a socket that could not be created has
    created one socket per execution started. *)
Lemma chain_sockets_length (n : nat) (env : list Connection) :
  (forall e, chain_outcome n env <> Thrown e) ->
  chain_sockets n env = chain_length n env.
Proof.
  revert env. induction n as [|n IH]; intros env Hc; [done|]. simpl in *.
  destruct (hd silent_connection env) as [exception|session];
    [by destruct (Hc exception)|].
  cbn [settlement] in *. f_equal.
  destruct (closing session); try done. by apply IH.
Qed.

(** The requests sent on the sockets of a chain: those of the executions
    whose socket opens. *)
Lemma sent_app (tr1 tr2 : list Action) :
  sent (tr1 ++ tr2) = sent tr1 ++ sent tr2.
Proof. apply omap_app. Qed.

Lemma sent_none (tr : list Action) :
  Forall (fun a => forall request, a <> Send request) tr -> sent tr = [].
Proof.
  induction tr as [|a tr IH]; intros Htr; [done|].
  inversion Htr as [|? ? Ha Htr']; subst.
  unfold sent in *. simpl.
  destruct a as [cur|s x r e|s token|text|b|cid request|request| |msg];
    try (by apply IH).
  by destruct (Ha request).
Qed.

Lemma sent_executeStep (cid : string) (s : WorkflowStep) (request : JsVal)
    (env : list Connection) :
  sent (effects (executeStep cid s request env))
  = if is_open (hd silent_connection env) then [request] else [].
Proof.
  rewrite executeStep_unfold. cbn [effects].
  destruct (hd silent_connection env) as [exception|session]; [done|].
  cbn [streamed_effects is_open].
  change ([SetCurrentStep (Some s);
           UpdateStepStatus s Status.running None None]
          ++ OpenSocket (cid +:+ "-" +:+ step_name s) request :: ?l)
    with ([SetCurrentStep (Some s);
           UpdateStepStatus s Status.running None None;
           OpenSocket (cid +:+ "-" +:+ step_name s) request] ++ l).
  rewrite !sent_app.
  rewrite (sent_none (deliver _ _ _).2), (sent_none (settle _ _).1).
  - unfold onopen. by destruct (opens session).
  - destruct (closing session); simpl; repeat constructor; discriminate.
  - eapply Forall_impl; [apply deliver_streamed|].
    intros a [[token ->]|[text ->]]; discriminate.
Qed.

Lemma chain_sent (cid : string) (pl : list (WorkflowStep * JsVal))
    (env : list Connection) :
  sent (chain_effects cid pl env)
  = omap (fun x => if is_open x.2 then Some x.1.2 else None)
      (zip (take (chain_length (length pl) env) pl) env).
Proof.
  revert env. induction pl as [|[s request] pl IH]; intros env; [done|].
  cbn [chain_effects length chain_length].
  rewrite sent_app, sent_executeStep.
  destruct env as [|c env].
  - cbn [hd tl silent_connection settlement silent_session closing is_open
         opens]. by rewrite app_nil_r.
  - cbn [hd tl firstn zip zip_with omap snd fst].
    destruct (settlement c); rewrite ?IH, ?take_0; cbn [zip zip_with omap];
      destruct (is_open c) eqn:Hopen; simpl; by rewrite Hopen.
Qed.

(** When every connection completes, every step of the plan ends
    completed and without an error. *)
Lemma chain_completed (cid : string) (pl : list (WorkflowStep * JsVal))
    (env : list Connection) (st : State) (t : WorkflowStep) :
  chain_outcome (length pl) env = Returned tt ->
  t ∈ map fst pl ->
  let after := exec st (chain_effects cid pl env) in
  status_of after t = Status.completed
  /\ error (step_state (steps after) t) = None.
Proof.
  revert env st. induction pl as [|[s request] pl IH]; intros env st Hc Ht.
  - by apply elem_of_nil in Ht.
  - simpl in Hc. cbn [chain_effects].
    destruct (executeStep_state cid s request env st)
      as (_ & _ & Hs & _ & He & _).
    destruct (hd silent_connection env) as [exception|session];
      [discriminate|].
    cbn [settlement left_status left_error] in *.
    destruct (closing session) as [r| | |] eqn:Hclose; try discriminate.
    simpl. rewrite exec_app.
    destruct (decide (t ∈ map fst pl)) as [Hin|Hout]; [by apply IH|].
    simpl in Ht. apply elem_of_cons in Ht as [->|Hin]; [|done].
    unfold status_of in *. rewrite chain_other by done.
    by rewrite Hs, He.
Qed.

(** When every connection completes, the result of a step is the one
    its last execution received. *)
Lemma chain_result (cid : string) (pl : list (WorkflowStep * JsVal))
    (env : list Connection) (st : State) (i : nat) (t : WorkflowStep)
    (request : JsVal) :
  chain_outcome (length pl) env = Returned tt ->
  pl !! i = Some (t, request) ->
  t ∉ map fst (drop (S i) pl) ->
  result (step_state (steps (exec st (chain_effects cid pl env))) t)
  = left_result (connection i env).
Proof.
  revert env st i. induction pl as [|[s request0] pl IH];
    intros env st i Hc Hi Hlast; [done|].
  simpl in Hc. cbn [chain_effects].
  destruct (settlement (hd silent_connection env)) as [r|e|] eqn:Hset;
    try discriminate.
  rewrite exec_app. destruct i as [|i].
  - injection Hi as -> ->. simpl in Hlast. rewrite drop_0 in Hlast.
    rewrite chain_other by done.
    destruct (executeStep_state cid t request env st)
      as (_ & _ & _ & Hr & _).
    rewrite Hr. unfold connection. by rewrite drop_0.
  - rewrite connection_S. by apply IH.
Qed.

Lemma last_started_cons (s : WorkflowStep) (request : JsVal)
    (pl : list (WorkflowStep * JsVal)) (env : list Connection) :
  last_started ((s, request) :: pl) env
  = match settlement (hd silent_connection env) with
    | Returned _ =>
        match last_started pl (tl env) with
        | Some t => Some t
        | None => Some s
        end
    | _ => Some s
    end.
Proof.
  unfold last_started. cbn [length chain_length].
  destruct (settlement (hd silent_connection env)); try done.
  rewrite firstn_cons.
  destruct (take (chain_length (length pl) (tl env)) pl) as [|x l]; [done|].
  rewrite last_cons. by destruct (last (x :: l)) eqn:Hl.
Qed.

(** After a chain the current step is the step of the last execution
    started, whose status, result and error are those its connection
    leaves. *)
Lemma chain_last_started (cid : string) (pl : list (WorkflowStep * JsVal))
    (env : list Connection) (st : State) :
  pl <> [] ->
  let after := exec st (chain_effects cid pl env) in
  let c := connection (chain_length (length pl) env - 1) env in
  exists s,
    last_started pl env = Some s
    /\ currentStep after = Some s
    /\ status_of after s = left_status c
    /\ result (step_state (steps after) s) = left_result c
    /\ error (step_state (steps after) s) = left_error c
    /\ match chain_outcome (length pl) env with
       | Returned _ => exists r, settlement c = Returned r
       | Thrown e => settlement c = Thrown e
       | Suspended => settlement c = Suspended
       end.
Proof.
  revert env st. induction pl as [|[s request] pl IH]; intros env st Hne;
    [done|].
  cbv zeta. cbn [chain_effects length chain_length chain_outcome].
  rewrite last_started_cons.
  destruct (executeStep_state cid s request env st)
    as (Hcur & _ & Hs & Hr & He & _).
  assert (Hhere : connection 0 env = hd silent_connection env)
    by (unfold connection; by rewrite drop_0).
  destruct (settlement (hd silent_connection env)) as [r| |] eqn:Hset.
  2,3: exists s; rewrite app_nil_r; cbn [Nat.sub]; rewrite Hhere;
       by repeat split.
  rewrite exec_app. destruct pl as [|[s' request'] pl].
  - exists s. unfold last_started. rewrite take_nil.
    cbn [chain_effects chain_length chain_outcome length Nat.sub exec foldl
         last fmap option_fmap option_map].
    rewrite Hhere. repeat split; try done. by exists r.
  - destruct (IH (tl env)
                (exec st (effects (executeStep cid s request env)))
                ltac:(done)) as (t & -> & Ht).
    exists t. split; [done|].
    assert (Hidx : connection
                     (S (chain_length (length ((s', request') :: pl))
                           (tl env)) - 1) env
                   = connection
                       (chain_length (length ((s', request') :: pl))
                          (tl env) - 1) (tl env)).
    { assert (Hpos : chain_length (length ((s', request') :: pl)) (tl env)
                     <> 0) by (by cbn [length chain_length]).
      destruct (chain_length (length ((s', request') :: pl)) (tl env))
        as [|m]; [done|].
      replace (S (S m) - 1) with (S (S m - 1)) by lia.
      apply connection_S. }
    rewrite Hidx. exact Ht.
Qed.

(** ** Workflow runner: whole runs *)

Lemma chain_app (cid : string) (pl1 pl2 : list (WorkflowStep * JsVal))
    (env : list Connection) :
  chain_effects cid (pl1 ++ pl2) env
  = chain_effects cid pl1 env
    ++ match chain_outcome (length pl1) env with
       | Returned _ => chain_effects cid pl2 (drop (length pl1) env)
       | _ => []
       end.
Proof.
  revert env. induction pl1 as [|[s request] pl1 IH]; intros env.
  - simpl. by rewrite drop_0.
  - cbn [app chain_effects length chain_outcome]. rewrite drop_S_tl.
    destruct (settlement (hd silent_connection env));
      rewrite <- ?app_assoc, ?app_nil_r; try done.
    by rewrite IH.
Qed.

Lemma chain_report_frame (cid : string) (pl : list (WorkflowStep * JsVal))
    (env : list Connection) (st : State) :
  aggregator ∉ map fst pl ->
  finalReport (exec st (chain_effects cid pl env)) = finalReport st.
Proof.
  revert env st. induction pl as [|[s request] pl IH]; intros env st Hpl;
    [done|].
  simpl in Hpl. apply not_elem_of_cons in Hpl as [Hne Hpl].
  simpl. rewrite exec_app.
  destruct (executeStep_state cid s request env st)
    as (_ & _ & _ & _ & _ & Hreport).
  assert (Hs : finalReport (exec st (effects (executeStep cid s request env)))
               = finalReport st).
  { rewrite Hreport. by destruct s. }
  destruct (settlement (hd silent_connection env)); rewrite ?IH by done; done.
Qed.

(** The plan ends with the aggregator, which no earlier execution runs. *)
Lemma plan_aggregator_last (inp : Inputs) :
  exists pre,
    plan inp = pre ++ [(aggregator, aggregatorRequest inp)]
    /\ length pre = length (simulationPerspective inp) + 2
    /\ aggregator ∉ map fst pre.
Proof.
  exists ((consulting, consultingRequest inp)
          :: map (fun perspective =>
                    (simulation, simulationRequest inp perspective))
               (simulationPerspective inp)
          ++ [(debate, debateRequest inp)]).
  split; [|split].
  - unfold plan. simpl. f_equal. by rewrite <- app_assoc.
  - simpl. rewrite length_app, length_map. simpl. lia.
  - simpl. rewrite map_app, map_map. simpl.
    rewrite not_elem_of_cons, not_elem_of_app. split; [done|]. split.
    + intros Hin. apply list_elem_of_fmap in Hin as (x & Hx & _). done.
    + rewrite list_elem_of_singleton. done.
Qed.

Lemma plan_length (inp : Inputs) :
  length (plan inp) = length (simulationPerspective inp) + 3.
Proof. unfold plan. simpl. rewrite length_app, length_map. simpl. lia. Qed.

Lemma plan_members (inp : Inputs) (s : WorkflowStep) :
  s ∈ map fst (plan inp)
  <-> s <> simulation \/ simulationPerspective inp <> [].
Proof.
  rewrite plan_steps.
  rewrite elem_of_cons, elem_of_app, elem_of_replicate, !elem_of_cons.
  rewrite elem_of_nil.
  destruct (simulationPerspective inp) as [|p l]; simpl;
    destruct s; split; intros H; try tauto; try (right; congruence);
    try (left; congruence).
  - destruct H as [H|[[H ?]|[H|[H|[]]]]]; try discriminate;
      simpl in *; lia.
  - right. left. split; [done | lia].
Qed.

(** The effects of a run with the fields filled in, and the state they
    lead to, in terms of the chain of executions. *)
Lemma runWorkflow_chain (inp : Inputs) (env : list Connection) :
  falsy (politicianName inp) || falsy (policyGoal inp) || falsy (city inp)
    = false ->
  effects (runWorkflow inp env)
  = SetIsRunning true
    :: chain_effects (clientId inp) (plan inp) env
    ++ match chain_outcome (length (plan inp)) env with
       | Returned _ => [SetCurrentStep None; SetIsRunning false]
       | Thrown e => [Alert ("Workflow failed: " +:+ e); SetIsRunning false]
       | Suspended => []
       end.
Proof.
  intros Hvalid. rewrite (runWorkflow_valid _ _ Hvalid).
  destruct (workflowSteps_chain inp env) as (-> & -> & _).
  destruct (chain_outcome (length (plan inp)) env) as [[]| |]; simpl;
    by rewrite <- ?app_assoc.
Qed.

Lemma runWorkflow_final (inp : Inputs) (env : list Connection) (st : State) :
  falsy (politicianName inp) || falsy (policyGoal inp) || falsy (city inp)
    = false ->
  let chained := exec (reduce st (SetIsRunning true))
                   (chain_effects (clientId inp) (plan inp) env) in
  let final := exec st (effects (runWorkflow inp env)) in
  steps final = steps chained
  /\ finalReport final = finalReport chained
  /\ currentStep final
     = match chain_outcome (length (plan inp)) env with
       | Returned _ => None
       | _ => currentStep chained
       end
  /\ isRunning final
     = match chain_outcome (length (plan inp)) env with
       | Suspended => true
       | _ => false
       end.
Proof.
  intros Hvalid. cbv zeta. rewrite (runWorkflow_chain _ _ Hvalid).
  rewrite exec_cons, exec_app.
  pose proof (chain_silent (clientId inp) (plan inp) env) as Hsilent.
  set (chain := chain_effects (clientId inp) (plan inp) env) in *.
  set (st1 := reduce st (SetIsRunning true)).
  assert (Hflag : isRunning (exec st1 chain) = true)
    by (rewrite exec_isRunning; [done | by apply silent_keeps_flag]).
  destruct (chain_outcome (length (plan inp)) env) as [[]| |]; simpl;
    by rewrite ?Hflag.
Qed.

(** How a run with the fields filled in ends, what it has read, the
    sockets it has created and the requests it has sent. *)
Lemma runWorkflow_ends (inp : Inputs) (env : list Connection) :
  falsy (politicianName inp) || falsy (policyGoal inp) || falsy (city inp)
    = false ->
  completion (runWorkflow inp env)
  = match chain_outcome (length (plan inp)) env with
    | Thrown _ => Returned tt
    | c => c
    end
  /\ unread (runWorkflow inp env)
     = drop (chain_length (length (plan inp)) env) env
  /\ opened (effects (runWorkflow inp env))
     = take (chain_sockets (length (plan inp)) env) (planned inp)
  /\ sent (effects (runWorkflow inp env))
     = omap (fun x => if is_open x.2 then Some x.1.2 else None)
         (zip (take (chain_length (length (plan inp)) env) (plan inp)) env).
Proof.
  intros Hvalid. destruct (runWorkflow_completion _ env Hvalid) as [-> ->].
  destruct (workflowSteps_chain inp env) as (_ & -> & ->).
  split; [done|]. split; [done|].
  rewrite (runWorkflow_chain _ _ Hvalid).
  change (SetIsRunning true :: ?l) with ([SetIsRunning true] ++ l).
  rewrite !opened_app, chain_opened, !sent_app, chain_sent.
  rewrite (opened_none [SetIsRunning true])
    by (repeat constructor; discriminate).
  rewrite (sent_none [SetIsRunning true])
    by (repeat constructor; discriminate).
  rewrite opened_none, sent_none.
  - rewrite !app_nil_r. simpl. unfold planned. by rewrite <- fmap_take.
  - destruct (chain_outcome (length (plan inp)) env);
      repeat constructor; discriminate.
  - destruct (chain_outcome (length (plan inp)) env);
      repeat constructor; discriminate.
Qed.

(** C1 (as amended). When the execution of a step rejects, the chain
    stops at that step.  All executions before it have resolved; the run
    ends with that step still selected; and no step after it in the order
    is started or touched at all: no effect of the run writes or selects
    it or creates its socket, and its state is what it was before the
    run, so a pending step stays pending.  When the rejection comes from
    the [onError] callback - an 'error' message or an error event of the
    socket - the step is recorded in the error state with no result and
    with the error the callback was given: the error of the message (none
    when the message carries none) or "WebSocket error".  When it comes
    from [new WebSocket] throwing, the step is left as the start of the
    execution set it: running, with no result and no error. *)
Theorem chain_stops_at_rejected_step
    (inp : Inputs) (env : list Connection) (st : State) (e : string) :
  falsy (politicianName inp) || falsy (policyGoal inp) || falsy (city inp)
    = false ->
  completion (workflowSteps inp env) = Thrown e ->
  let final := exec st (effects (runWorkflow inp env)) in
  exists s request k,
    plan inp !! k = Some (s, request)
    /\ (forall j, j < k -> exists r, settlement (connection j env) = Returned r)
    /\ settlement (connection k env) = Thrown e
    /\ currentStep final = Some s
    /\ match connection k env with
       | Socket session =>
           status_of final s = Status.error
           /\ error (step_state (steps final) s) = reported (closing session)
           /\ result (step_state (steps final) s) = None
       | NoSocket _ =>
           status_of final s = Status.running
           /\ error (step_state (steps final) s) = None
           /\ result (step_state (steps final) s) = None
       end
    /\ forall s', step_rank s < step_rank s' ->
         Forall (untouched inp s') (effects (runWorkflow inp env))
         /\ step_state (steps final) s' = step_state (steps st) s'
         /\ (status_of st s' = Status.pending ->
             status_of final s' = Status.pending).
Proof.
  intros Hvalid Hthrown. cbv zeta.
  rewrite (runWorkflow_valid _ _ Hvalid), Hthrown.
  rewrite workflowSteps_plan in Hthrown |- *.
  destruct (runPlan_thrown (clientId inp) (plan inp)
              (perform (SetCurrentStep None)) env e (fun _ => eq_refl) Hthrown)
    as (pl1 & s & request & pl2 & pre & Hplan & -> & Hset & Hbefore & Hpre).
  set (k := length pl1) in *.
  set (E := effects (executeStep (clientId inp) s request (drop k env))).
  set (tail := epilogue (Thrown e)).
  exists s, request, k.
  split; [by rewrite Hplan; apply list_lookup_middle|].
  split; [done|]. split; [done|].
  set (st0 := exec (reduce st (SetIsRunning true)) pre).
  assert (Hfinal : exec st (SetIsRunning true :: (pre ++ E) ++ tail)
                   = exec (exec st0 E) tail)
    by (by rewrite exec_cons, !exec_app).
  destruct (executeStep_state (clientId inp) s request (drop k env) st0)
    as (Hcur & _ & Hstatus & Hresult & Herror & _).
  fold E in Hcur, Hstatus, Hresult, Herror.
  change (hd silent_connection (drop k env)) with (connection k env)
    in Hstatus, Hresult, Herror.
  assert (Htail : steps (exec (exec st0 E) tail) = steps (exec st0 E)
                  /\ currentStep (exec (exec st0 E) tail)
                     = currentStep (exec st0 E)) by done.
  destruct Htail as [Hsteps Hcurrent].
  rewrite Hfinal. unfold status_of in *. rewrite Hsteps, Hcurrent.
  split; [done|]. split.
  - rewrite Hstatus, Hresult, Herror.
    unfold left_status, left_result, left_error.
    destruct (connection k env) as [exception|session]; [done|].
    cbn [settlement] in Hset.
    by destruct (closing session).
  - intros s' Hrank.
    assert (Forall (untouched inp s')
              (SetIsRunning true :: (pre ++ E) ++ tail)) as Hnone.
    { assert (s <> s') as Hne by (intros ->; lia).
      assert (map fst (plan inp) = map fst pl1 ++ s :: map fst pl2) as Hsplit
        by (by rewrite Hplan, map_app).
      destruct (plan_split inp _ _ _ Hsplit) as [Hdone _].
      constructor; [done|]. apply Forall_app. split; [|by repeat constructor].
      apply Forall_app. split.
      - eapply Forall_impl; [exact Hpre|]. intros a (t & Ht & Ha).
        apply (belongs_untouched inp t); [done|].
        intros ->. apply Hdone, follows_rank in Ht. lia.
      - eapply Forall_impl; [apply executeStep_belongs|].
        intros a Ha. by apply (belongs_untouched inp s). }
    split; [done|].
    rewrite <- Hsteps, <- Hfinal.
    assert (step_state (steps (exec st
              (SetIsRunning true :: (pre ++ E) ++ tail))) s'
            = step_state (steps st) s') as Hsame.
    { apply exec_other_step. eapply Forall_impl; [exact Hnone|].
      intros a Ha. by apply (untouched_target inp). }
    split; [done|]. by rewrite Hsame.
Qed.

Lemma chain_stops_at_rejected_step_witness :
  exists s,
    currentStep
      (exec initialState
         (effects (runWorkflow (sample_inputs ["traffic"])
                     [completes ["a"] JNull; fails "model overloaded"])))
    = Some s
    /\ status_of
         (exec initialState
            (effects (runWorkflow (sample_inputs ["traffic"])
                        [completes ["a"] JNull; fails "model overloaded"])))
         debate
       = Status.pending.
Proof.
  destruct (chain_stops_at_rejected_step (sample_inputs ["traffic"])
              [completes ["a"] JNull; fails "model overloaded"]
              initialState "model overloaded" eq_refl eq_refl)
    as (s & request & k & Hk & _ & _ & Hcur & _ & Hlater).
  exists s. split; [exact Hcur|].
  assert (Hs : s = simulation).
  { destruct k as [|[|k]]; simpl in Hk.
    - exfalso. injection Hk as <- _. discriminate Hcur.
    - by injection Hk as <- _.
    - exfalso. destruct k as [|[|k]]; simpl in Hk;
        try (injection Hk as <- _); discriminate. }
  subst s. apply (Hlater debate); [simpl; lia | reflexivity].
Defined.

(** C1 as stated fails.  When [new WebSocket] throws for the first
    execution the chain stops and the failure is reported by the alert,
    but the step is not in the error state and no failure is recorded on
    it: it is left running.  And an 'error' message without an error
    puts the step in the error state with no error recorded. *)
Lemma rejected_step_without_recorded_failure :
  (let run := runWorkflow (sample_inputs ["traffic"])
                [NoSocket "SyntaxError: The URL is invalid."] in
   let final := exec initialState (effects run) in
   completion (workflowSteps (sample_inputs ["traffic"])
                 [NoSocket "SyntaxError: The URL is invalid."])
   = Thrown "SyntaxError: The URL is invalid."
   /\ last (effects run) = Some (SetIsRunning false)
   /\ Alert "Workflow failed: SyntaxError: The URL is invalid."
      ∈ effects run
   /\ status_of final consulting = Status.running
   /\ Status.terminal (status_of final consulting) = false
   /\ error (step_state (steps final) consulting) = None)
  /\ (let run := runWorkflow (sample_inputs ["traffic"])
                   [Socket (mkSession true [] (MsgError None))] in
      let final := exec initialState (effects run) in
      status_of final consulting = Status.error
      /\ error (step_state (steps final) consulting) = None).
Proof.
  split; cbv zeta; repeat split; try reflexivity.
  vm_compute. set_solver.
Qed.

(** X11. [runWorkflow] never rejects.  With the fields filled in, how the
    run ends is decided by the connections of the executions, in order:
    it stays suspended when a connection stays silent before any has
    failed, and returns otherwise, a failure being caught and reported by
    one alert ["Workflow failed: ..."].  One connection is read per
    execution started; a socket is created for each of them except one
    whose [new WebSocket] throws, and the request of an execution is sent
    only when its socket opens. *)
Theorem runWorkflow_never_rejects (inp : Inputs) (env : list Connection) :
  (forall e, completion (runWorkflow inp env) <> Thrown e)
  /\ (falsy (politicianName inp) || falsy (policyGoal inp)
      || falsy (city inp) = false ->
      completion (runWorkflow inp env)
      = match chain_outcome (length (plan inp)) env with
        | Thrown _ => Returned tt
        | c => c
        end
      /\ unread (runWorkflow inp env)
         = drop (chain_length (length (plan inp)) env) env
      /\ opened (effects (runWorkflow inp env))
         = take (chain_sockets (length (plan inp)) env) (planned inp)
      /\ sent (effects (runWorkflow inp env))
         = omap (fun x => if is_open x.2 then Some x.1.2 else None)
             (zip (take (chain_length (length (plan inp)) env) (plan inp))
                env)
      /\ forall e, chain_outcome (length (plan inp)) env = Thrown e ->
           exists pre,
             effects (runWorkflow inp env)
             = pre ++ [Alert ("Workflow failed: " +:+ e); SetIsRunning false]
             /\ Forall (fun a => forall m, a <> Alert m) pre).
Proof.
  split.
  - intros e.
    destruct (falsy (politicianName inp) || falsy (policyGoal inp)
              || falsy (city inp)) eqn:Hfields.
    + unfold runWorkflow. by rewrite Hfields.
    + destruct (runWorkflow_ends inp env Hfields) as [-> _].
      by destruct (chain_outcome (length (plan inp)) env).
  - intros Hfields.
    destruct (runWorkflow_ends inp env Hfields) as (Hc & Hu & Ho & Hs).
    split; [done|]. split; [done|]. split; [done|]. split; [done|].
    intros e He. rewrite (runWorkflow_chain _ _ Hfields), He.
    exists (SetIsRunning true
            :: chain_effects (clientId inp) (plan inp) env).
    split; [by rewrite <- app_comm_cons|].
    constructor; [discriminate|]. apply silent_no_alert, chain_silent.
Qed.

Lemma runWorkflow_never_rejects_witness :
  completion (runWorkflow (sample_inputs ["economic"])
                [completes ["a"] JNull; refused; completes ["b"] JNull])
  = Returned tt
  /\ unread (runWorkflow (sample_inputs ["economic"])
               [completes ["a"] JNull; refused; completes ["b"] JNull])
     = [completes ["b"] JNull]
  /\ sent (effects (runWorkflow (sample_inputs ["economic"])
                      [completes ["a"] JNull; refused;
                       completes ["b"] JNull]))
     = [consultingRequest (sample_inputs ["economic"])].
Proof.
  destruct (proj2 (runWorkflow_never_rejects (sample_inputs ["economic"])
                     [completes ["a"] JNull; refused;
                      completes ["b"] JNull]) eq_refl)
    as (Hc & Hu & _ & Hs & _).
  split; [exact Hc | split; [exact Hu | exact Hs]].
Defined.

(** X12. While a run is in progress the Start button is disabled: in the
    state in which any effect after the first is performed [isRunning] is
    true.  When the run returns, also after a failure, the flag is false
    again; when the run stays suspended on a silent connection the flag
    stays true and the button stays disabled. *)
Theorem start_button_disabled_during_run
    (inp : Inputs) (env : list Connection) (st : State) :
  falsy (politicianName inp) || falsy (policyGoal inp) || falsy (city inp)
    = false ->
  let run := runWorkflow inp env in
  (forall n a, effects run !! S n = Some a ->
     isRunning (exec st (take (S n) (effects run))) = true
     /\ startDisabled (exec st (take (S n) (effects run))) inp = true)
  /\ isRunning (exec st (effects run))
     = match completion run with
       | Suspended => true
       | _ => false
       end
  /\ startDisabled (exec st (effects run)) inp
     = match completion run with
       | Suspended => true
       | _ => false
       end.
Proof.
  intros Hvalid. cbv zeta.
  assert (Hfinal : isRunning (exec st (effects (runWorkflow inp env)))
                   = match completion (runWorkflow inp env) with
                     | Suspended => true
                     | _ => false
                     end).
  { destruct (runWorkflow_final inp env st Hvalid) as (_ & _ & _ & ->).
    destruct (runWorkflow_completion _ env Hvalid) as [-> _].
    destruct (workflowSteps_chain inp env) as (_ & -> & _).
    by destruct (chain_outcome (length (plan inp)) env). }
  split; [|split; [done|]].
  - intros n a Hn.
    assert (Hrun : isRunning
                     (exec st (take (S n) (effects (runWorkflow inp env))))
                   = true).
    { rewrite (runWorkflow_chain _ _ Hvalid) in Hn |- *.
      pose proof (chain_silent (clientId inp) (plan inp) env) as Hchain.
      apply silent_keeps_flag in Hchain.
      set (chain := chain_effects (clientId inp) (plan inp) env) in *.
      set (outcome := chain_outcome (length (plan inp)) env) in *.
      rewrite firstn_cons, exec_cons.
      apply lookup_lt_Some in Hn. cbn [length] in Hn.
      rewrite length_app in Hn.
      rewrite exec_isRunning; [done|].
      destruct outcome as [[]|e|]; cbn [length] in Hn.
      - change [SetCurrentStep None; SetIsRunning false]
          with ([SetCurrentStep None] ++ [SetIsRunning false]).
        rewrite app_assoc, take_app_le
          by (rewrite length_app; cbn [length]; lia).
        apply Forall_take, Forall_app. split; [done|].
        repeat constructor; discriminate.
      - change [Alert ("Workflow failed: " +:+ e); SetIsRunning false]
          with ([Alert ("Workflow failed: " +:+ e)] ++ [SetIsRunning false]).
        rewrite app_assoc, take_app_le
          by (rewrite length_app; cbn [length]; lia).
        apply Forall_take, Forall_app. split; [done|].
        repeat constructor; discriminate.
      - rewrite app_nil_r. by apply Forall_take. }
    split; [done|]. unfold startDisabled. by rewrite Hrun.
  - unfold startDisabled. rewrite Hfinal.
    apply orb_false_iff in Hvalid as [Hvalid Hcity].
    apply orb_false_iff in Hvalid as [Hname Hgoal].
    rewrite Hname, Hgoal, Hcity.
    by destruct (completion (runWorkflow inp env)).
Qed.

Lemma start_button_disabled_during_run_witness :
  startDisabled
    (exec initialState
       (effects (runWorkflow (sample_inputs []) [completes ["a"] JNull])))
    (sample_inputs [])
  = true.
Proof.
  rewrite (proj2 (proj2 (start_button_disabled_during_run (sample_inputs [])
                           [completes ["a"] JNull] initialState eq_refl))).
  reflexivity.
Defined.

(** Where the plan runs the steps that are executed once. *)
Lemma plan_positions (inp : Inputs) :
  plan inp !! 0 = Some (consulting, consultingRequest inp)
  /\ (consulting ∉ map fst (drop 1 (plan inp)))
  /\ plan inp !! (length (simulationPerspective inp) + 1)
     = Some (debate, debateRequest inp)
  /\ (debate ∉ map fst (drop (S (length (simulationPerspective inp) + 1))
                          (plan inp)))
  /\ plan inp !! (length (simulationPerspective inp) + 2)
     = Some (aggregator, aggregatorRequest inp)
  /\ aggregator ∉ map fst (drop (S (length (simulationPerspective inp) + 2))
                             (plan inp)).
Proof.
  assert (Hdrop : forall n, map fst (drop n (plan inp))
                            = drop n (map fst (plan inp)))
    by (intros n; apply fmap_drop).
  rewrite !Hdrop, plan_steps.
  set (sims := map (fun perspective =>
                      (simulation, simulationRequest inp perspective))
                 (simulationPerspective inp)).
  assert (Hlen : length sims = length (simulationPerspective inp))
    by apply length_map.
  assert (Hplan : plan inp
                  = (consulting, consultingRequest inp)
                    :: sims ++ [(debate, debateRequest inp);
                                (aggregator, aggregatorRequest inp)]) by done.
  rewrite Hplan, <- Hlen.
  assert (Hrep : length (replicate (length sims) simulation) = length sims)
    by apply length_replicate.
  split; [done|]. split; [|split; [|split; [|split]]].
  - simpl. rewrite drop_0, elem_of_app, elem_of_replicate, !elem_of_cons,
      elem_of_nil. intros [[? _]|[?|[?|[]]]]; discriminate.
  - rewrite Nat.add_1_r. simpl. rewrite lookup_app_r by lia.
    by rewrite Nat.sub_diag.
  - rewrite Nat.add_1_r. simpl. rewrite drop_app_ge by lia.
    rewrite Hrep. replace (S (length sims) - length sims) with 1 by lia.
    simpl. rewrite list_elem_of_singleton. discriminate.
  - replace (length sims + 2) with (S (S (length sims))) by lia.
    simpl. rewrite lookup_app_r by lia.
    by replace (S (length sims) - length sims) with 1 by lia.
  - replace (length sims + 2) with (S (S (length sims))) by lia.
    simpl. rewrite drop_app_ge by lia.
    rewrite Hrep. replace (S (S (length sims)) - length sims) with 2 by lia.
    simpl. apply not_elem_of_nil.
Qed.

(** X13. When every connection completes the run returns with a socket
    created for every request of the plan, in order, and no alert.  The
    consulting, debate and aggregator steps end completed and without an
    error, and so does the simulation step when a perspective is
    selected; the result of each of the three is the one its 'complete'
    message carried, none when the message carried none.  With no
    perspective selected the simulation step is not executed and keeps
    its state.  No step is current any more and the running flag is
    false. *)
Theorem runWorkflow_all_complete
    (inp : Inputs) (env : list Connection) (st : State) :
  falsy (politicianName inp) || falsy (policyGoal inp) || falsy (city inp)
    = false ->
  chain_outcome (length (plan inp)) env = Returned tt ->
  let run := runWorkflow inp env in
  let final := exec st (effects run) in
  let k := length (simulationPerspective inp) in
  completion run = Returned tt
  /\ unread run = drop (k + 3) env
  /\ opened (effects run) = planned inp
  /\ Forall (fun a => forall m, a <> Alert m) (effects run)
  /\ currentStep final = None
  /\ isRunning final = false
  /\ (forall s, s <> simulation \/ simulationPerspective inp <> [] ->
        status_of final s = Status.completed
        /\ error (step_state (steps final) s) = None)
  /\ result (step_state (steps final) consulting)
     = left_result (connection 0 env)
  /\ result (step_state (steps final) debate)
     = left_result (connection (k + 1) env)
  /\ result (step_state (steps final) aggregator)
     = left_result (connection (k + 2) env)
  /\ (simulationPerspective inp = [] ->
      step_state (steps final) simulation = step_state (steps st) simulation).
Proof.
  intros Hvalid Hall. cbv zeta.
  destruct (runWorkflow_ends inp env Hvalid) as (Hc & Hu & Ho & _).
  destruct (runWorkflow_final inp env st Hvalid) as (Hsteps & _ & Hcur & Hrun).
  rewrite Hall in Hc, Hcur, Hrun.
  rewrite chain_sockets_length in Ho by (rewrite Hall; discriminate).
  rewrite (chain_length_returned _ _ Hall) in Hu, Ho.
  destruct (plan_positions inp) as (Hc0 & Hc1 & Hd0 & Hd1 & Ha0 & Ha1).
  split; [done|]. split; [by rewrite <- plan_length|].
  split; [|split; [|split; [done|split; [done|split; [|split;
    [|split; [|split]]]]]]].
  - rewrite Ho. apply take_ge. unfold planned. by rewrite length_map.
  - rewrite (runWorkflow_chain _ _ Hvalid), Hall.
    constructor; [discriminate|]. apply Forall_app. split.
    + apply silent_no_alert, chain_silent.
    + repeat constructor; discriminate.
  - intros s Hs. apply plan_members in Hs. unfold status_of. rewrite Hsteps.
    exact (chain_completed (clientId inp) (plan inp) env
             (reduce st (SetIsRunning true)) s Hall Hs).
  - rewrite Hsteps. by eapply chain_result.
  - rewrite Hsteps. by eapply chain_result.
  - rewrite Hsteps. by eapply chain_result.
  - intros Hnone. rewrite Hsteps. rewrite chain_other; [done|].
    rewrite plan_members. intros [Hs|Hs]; congruence.
Qed.

Lemma runWorkflow_all_complete_witness :
  status_of
    (exec initialState
       (effects (runWorkflow (sample_inputs ["economic"])
                   [completes ["a"] JNull; completes ["b"] (JBool true);
                    completes [] JNull; completes ["report"] JNull])))
    aggregator
  = Status.completed.
Proof.
  destruct (runWorkflow_all_complete (sample_inputs ["economic"])
              [completes ["a"] JNull; completes ["b"] (JBool true);
               completes [] JNull; completes ["report"] JNull]
              initialState eq_refl eq_refl)
    as (_ & _ & _ & _ & _ & _ & Hsteps & _).
  apply Hsteps. left. discriminate.
Defined.

(** X14. There is no timeout.  When a connection neither completes nor
    fails, all earlier ones having completed, the run stays suspended for
    good: no alert is shown, the step of that execution stays current
    with status ['running'] and without result or error, the running
    flag stays true, and the later requests are never sent. *)
Theorem runWorkflow_silent_connection
    (inp : Inputs) (env : list Connection) (st : State) :
  falsy (politicianName inp) || falsy (policyGoal inp) || falsy (city inp)
    = false ->
  chain_outcome (length (plan inp)) env = Suspended ->
  let run := runWorkflow inp env in
  let final := exec st (effects run) in
  completion run = Suspended
  /\ isRunning final = true
  /\ Forall (fun a => forall m, a <> Alert m) (effects run)
  /\ opened (effects run)
     = take (chain_length (length (plan inp)) env) (planned inp)
  /\ exists s,
       last_started (plan inp) env = Some s
       /\ currentStep final = Some s
       /\ status_of final s = Status.running
       /\ result (step_state (steps final) s) = None
       /\ error (step_state (steps final) s) = None.
Proof.
  intros Hvalid Hsilent. cbv zeta.
  destruct (runWorkflow_ends inp env Hvalid) as (Hc & _ & Ho & _).
  destruct (runWorkflow_final inp env st Hvalid) as (Hsteps & _ & Hcur & Hrun).
  rewrite Hsilent in Hc, Hcur, Hrun.
  rewrite chain_sockets_length in Ho by (rewrite Hsilent; discriminate).
  split; [done|]. split; [done|]. split; [|split; [done|]].
  - rewrite (runWorkflow_chain _ _ Hvalid), Hsilent, app_nil_r.
    constructor; [discriminate|]. apply silent_no_alert, chain_silent.
  - destruct (chain_last_started (clientId inp) (plan inp) env
                (reduce st (SetIsRunning true)))
      as (s & Hlast & Hs & Hstatus & Hresult & Herror & Hend); [done|].
    rewrite Hsilent in Hend.
    set (c := connection (chain_length (length (plan inp)) env - 1) env)
      in *.
    assert (Hleft : left_status c = Status.running
                    /\ left_result c = None /\ left_error c = None).
    { unfold left_status, left_result, left_error.
      destruct c as [exception|session]; [discriminate|].
      cbn [settlement] in Hend. by destruct (closing session). }
    destruct Hleft as (Hl1 & Hl2 & Hl3).
    rewrite Hl1 in Hstatus. rewrite Hl2 in Hresult. rewrite Hl3 in Herror.
    exists s. unfold status_of in *. rewrite Hsteps, Hcur.
    by repeat split.
Qed.

Lemma runWorkflow_silent_connection_witness :
  currentStep
    (exec initialState
       (effects (runWorkflow (sample_inputs ["economic"])
                   [completes ["a"] JNull])))
  = Some simulation.
Proof.
  destruct (runWorkflow_silent_connection (sample_inputs ["economic"])
              [completes ["a"] JNull] initialState eq_refl eq_refl)
    as (_ & _ & _ & _ & s & Hlast & Hcur & _).
  rewrite Hcur, <- Hlast. reflexivity.
Defined.

(** X15. The final report is the stream of the aggregator and nothing
    else.  After a run it is the concatenation of the tokens delivered to
    the aggregator execution of that run, whatever the report and the
    output buffers held before; it keeps its previous value when the run
    does not reach the aggregator or the aggregator delivers no token. *)
Theorem finalReport_is_aggregator_stream
    (inp : Inputs) (env : list Connection) (st : State) :
  falsy (politicianName inp) || falsy (policyGoal inp) || falsy (city inp)
    = false ->
  let position := length (simulationPerspective inp) + 2 in
  let tokens := tokens_of (delivered (connection position env)) in
  finalReport (exec st (effects (runWorkflow inp env)))
  = match chain_outcome position env, tokens with
    | Returned _, _ :: _ => concat_all tokens
    | _, _ => finalReport st
    end.
Proof.
  intros Hvalid. cbv zeta.
  destruct (runWorkflow_final inp env st Hvalid) as (_ & -> & _).
  destruct (plan_aggregator_last inp) as (pre & -> & Hlen & Hpre).
  rewrite chain_app, exec_app, Hlen.
  set (before := exec (reduce st (SetIsRunning true))
                   (chain_effects (clientId inp) pre env)).
  assert (Hbefore : finalReport before = finalReport st)
    by (unfold before; by rewrite chain_report_frame).
  destruct (chain_outcome (length (simulationPerspective inp) + 2) env)
    as [[]| |].
  - cbn [chain_effects].
    assert (Htail : forall c : Completion (option JsVal),
              match c with
              | Returned _ => chain_effects (clientId inp) []
                   (tl (drop (length (simulationPerspective inp) + 2) env))
              | _ => []
              end = []) by (by intros []).
    rewrite Htail, app_nil_r.
    destruct (executeStep_state (clientId inp) aggregator
                (aggregatorRequest inp)
                (drop (length (simulationPerspective inp) + 2) env) before)
      as (_ & _ & _ & _ & _ & ->).
    unfold connection. rewrite Hbefore. done.
  - simpl. by rewrite Hbefore.
  - simpl. by rewrite Hbefore.
Qed.

Lemma finalReport_is_aggregator_stream_witness :
  finalReport
    (exec (mkState None (steps initialState) false "old report")
       (effects (runWorkflow (sample_inputs [])
                   [completes ["a"] JNull; completes ["b"] JNull;
                    completes ["new "; "report"] JNull])))
  = "new report".
Proof.
  rewrite (finalReport_is_aggregator_stream (sample_inputs [])
             [completes ["a"] JNull; completes ["b"] JNull;
              completes ["new "; "report"] JNull]
             (mkState None (steps initialState) false "old report") eq_refl).
  reflexivity.
Defined.

(** X16. Once a run has succeeded the output panel is back to the
    placeholder, and only then: the run ends with no current step exactly
    when every connection completed, so the report and its download
    button, which are shown only while the aggregator is the current
    step, are not on display after a successful run.  And in a run of a
    freshly mounted page no row of the progress list ends in the error
    style: the step that failed is still the current step, which is
    styled first. *)
Theorem panel_after_run
    (inp : Inputs) (env : list Connection) (st : State)
    (hasMetrics hasDebateMessages : bool) :
  falsy (politicianName inp) || falsy (policyGoal inp) || falsy (city inp)
    = false ->
  let final := exec st (effects (runWorkflow inp env)) in
  (panel hasMetrics hasDebateMessages final = ReadyPanel
   <-> chain_outcome (length (plan inp)) env = Returned tt)
  /\ ((forall s, status_of st s = Status.pending) ->
      forall s, rowStyle final s <> RowError).
Proof.
  intros Hvalid. cbv zeta.
  destruct (runWorkflow_final inp env st Hvalid) as (Hsteps & _ & Hcur & _).
  destruct (chain_last_started (clientId inp) (plan inp) env
              (reduce st (SetIsRunning true)))
    as (s0 & _ & Hs0 & Hstatus0 & _ & _ & Hend); [done|].
  rewrite Hs0 in Hcur.
  set (c := connection (chain_length (length (plan inp)) env - 1) env) in *.
  assert (Hstuck : (forall r, settlement c <> Returned r) ->
                   left_status c = Status.running
                   \/ left_status c = Status.error).
  { unfold left_status. destruct c as [exception|session]; [by left|].
    cbn [settlement]. destruct (closing session) as [r| | |]; auto.
    intros Hr. by destruct (Hr r). }
  split.
  - unfold panel. rewrite Hcur.
    destruct (chain_outcome (length (plan inp)) env) as [[]| |]; simpl.
    + done.
    + split; [|discriminate].
      destruct s0; simpl; repeat case_match; discriminate.
    + split; [|discriminate].
      destruct s0; simpl; repeat case_match; discriminate.
  - intros Hfresh s Hrow.
    destruct (runWorkflow_orderly inp env st Hfresh) as [_ Hshape].
    unfold rowStyle in Hrow.
    destruct (bool_decide (currentStep
                (exec st (effects (runWorkflow inp env))) = Some s))
      eqn:Hcurrent; [discriminate|].
    apply bool_decide_eq_false in Hcurrent.
    destruct (status_of (exec st (effects (runWorkflow inp env))) s)
      eqn:Hstatus; try discriminate.
    destruct Hshape as [(done & rest & _ & Hidle)|
                        (s1 & x & Hx & done & rest & Hfull & Hbusy)].
    + rewrite Hidle in Hstatus. unfold expected in Hstatus.
      by destruct (bool_decide (s ∈ done)).
    + assert (Hs : s = s1).
      { rewrite Hbusy in Hstatus. unfold during, expected in Hstatus.
        destruct (decide (s = s1)) as [|Hne]; [done|].
        rewrite (bool_decide_eq_false_2 _ Hne) in Hstatus.
        by destruct (bool_decide (s ∈ done)). }
      subst s1.
      assert (Hat : (forall r, settlement c <> Returned r) ->
                    status_of (exec st (effects (runWorkflow inp env))) s0
                    = Status.running
                    \/ status_of (exec st (effects (runWorkflow inp env))) s0
                       = Status.error).
      { intros Hc. unfold status_of in *. rewrite Hsteps, Hstatus0.
        by apply Hstuck. }
      assert (Hsame : (forall r, settlement c <> Returned r) -> s0 = s).
      { intros Hc. apply Hat in Hc. rewrite !Hbusy in Hc.
        unfold during, expected in Hc.
        destruct (decide (s0 = s)) as [|Hne]; [done|].
        rewrite (bool_decide_eq_false_2 _ Hne) in Hc.
        destruct (bool_decide (s0 ∈ done)); by destruct Hc. }
      destruct (chain_outcome (length (plan inp)) env) as [[]| |] eqn:Hout.
      * assert (Hin : s ∈ map fst (plan inp))
          by (rewrite Hfull, elem_of_app, elem_of_cons; auto).
        destruct (chain_completed (clientId inp) (plan inp) env
                    (reduce st (SetIsRunning true)) s Hout Hin)
          as (Hdone & _).
        unfold status_of in *. rewrite Hsteps in Hstatus. congruence.
      * assert (s0 = s); [|congruence].
        apply Hsame. intros r. rewrite Hend. discriminate.
      * assert (s0 = s); [|congruence].
        apply Hsame. intros r. rewrite Hend. discriminate.
Qed.

Lemma panel_after_run_witness :
  panel true true
    (exec initialState
       (effects (runWorkflow (sample_inputs [])
                   [completes ["a"] JNull; completes ["b"] JNull;
                    completes ["report"] JNull])))
  = ReadyPanel.
Proof.
  apply (proj1 (panel_after_run (sample_inputs [])
                  [completes ["a"] JNull; completes ["b"] JNull;
                   completes ["report"] JNull]
                  initialState true true eq_refl)).
  reflexivity.
Defined.

(** ** The agent service: WebSocket address *)

Lemma replace_unfold (pattern replacement s : string) :
  replace pattern replacement s
  = match strip_prefix pattern s with
    | Some rest => replacement +:+ rest
    | None =>
        match s with
        | EmptyString => EmptyString
        | String c s' => String c (replace pattern replacement s')
        end
    end.
Proof. by destruct s. Qed.

Lemma includes_unfold (pattern s : string) :
  includes pattern s
  = match strip_prefix pattern s with
    | Some _ => true
    | None =>
        match s with
        | EmptyString => false
        | String _ s' => includes pattern s'
        end
    end.
Proof. by destruct s. Qed.

Lemma replace_absent (pattern replacement s : string) :
  includes pattern s = false -> replace pattern replacement s = s.
Proof.
  induction s as [|c s IH]; rewrite includes_unfold, replace_unfold;
    destruct (strip_prefix pattern _); try done.
  intros Hs. by rewrite IH.
Qed.

Lemma strip_prefix_append (pattern rest : string) :
  strip_prefix pattern (pattern +:+ rest) = Some rest.
Proof.
  induction pattern as [|c pattern IH]; [by destruct rest|].
  rewrite append_cons. simpl. by rewrite Ascii.eqb_refl.
Qed.

Lemma replace_prefix (pattern replacement rest : string) :
  replace pattern replacement (pattern +:+ rest) = replacement +:+ rest.
Proof. by rewrite replace_unfold, strip_prefix_append. Qed.

Lemma length_append (a b : string) :
  String.length (a +:+ b) = String.length a + String.length b.
Proof.
  induction a as [|ch a IH]; [reflexivity|].
  rewrite append_cons. simpl. by rewrite IH.
Qed.

(** A string that does not start with the pattern, and is at least as
    long, does not start with it either when it is continued. *)
Lemma strip_prefix_continued (pattern s rest : string) :
  strip_prefix pattern s = None ->
  String.length pattern <= String.length s ->
  strip_prefix pattern (s +:+ rest) = None.
Proof.
  revert s. induction pattern as [|a pattern IH]; intros s Hs Hlen.
  - by destruct s.
  - destruct s as [|b s]; [simpl in Hlen; lia|].
    rewrite append_cons. simpl in *.
    destruct (Ascii.eqb a b); [|done]. apply IH; [done|lia].
Qed.

(** The first occurrence is the one replaced: with no occurrence of the
    pattern that starts before the end of [before], what is replaced is
    the pattern that follows [before]. *)
Lemma replace_first (init : string) (last : Ascii.ascii)
    (replacement before after : string) :
  includes (init +:+ String last "") (before +:+ init) = false ->
  replace (init +:+ String last "") replacement
    (before +:+ (init +:+ String last "") +:+ after)
  = before +:+ replacement +:+ after.
Proof.
  induction before as [|c before IH]; intros Hnone.
  - change ("" +:+ ?x) with x. apply replace_prefix.
  - rewrite !append_cons in *. rewrite includes_unfold in Hnone.
    rewrite replace_unfold.
    destruct (strip_prefix (init +:+ String last "")
                (String c (before +:+ init))) eqn:Hstrip; [done|].
    replace (String c (before +:+ (init +:+ String last "") +:+ after))
      with (String c (before +:+ init) +:+ (String last "" +:+ after))
      by (by rewrite append_cons, !append_assoc).
    rewrite strip_prefix_continued; [|done|].
    + rewrite <- append_cons, append_assoc, <- (append_assoc init).
      by rewrite IH.
    + simpl. rewrite !length_append. simpl. lia.
Qed.

(** X17. The WebSocket address is the base address with its first
    ["http"] turned into ["ws"], wherever it is: a base [http://host]
    gives [ws://host] and [https://host] gives [wss://host], whatever
    follows the scheme; a base in which the first ["http"] comes after
    some text has that occurrence replaced and nothing else, so
    [ftp://mirror/http/https] gives [ftp://mirror/ws/https]; and the
    address a client connects to is that followed by [/ws/<clientId>].
    A base address without ["http"] is used as it is, and an unset or
    empty [VITE_API_URL] gives [ws://localhost:8000]. *)
Theorem wsUrl_from_base_url
    (VITE_API_URL : option string) (rest clientId : string) :
  (API_BASE_URL VITE_API_URL = "http" +:+ rest ->
   wsUrl (newAgentService VITE_API_URL) = "ws" +:+ rest
   /\ createWebSocket (newAgentService VITE_API_URL) clientId
      = "ws" +:+ rest +:+ "/ws/" +:+ clientId)
  /\ (forall before,
        includes "http" (before +:+ "htt") = false ->
        API_BASE_URL VITE_API_URL = before +:+ "http" +:+ rest ->
        wsUrl (newAgentService VITE_API_URL) = before +:+ "ws" +:+ rest
        /\ createWebSocket (newAgentService VITE_API_URL) clientId
           = before +:+ "ws" +:+ rest +:+ "/ws/" +:+ clientId)
  /\ (includes "http" (API_BASE_URL VITE_API_URL) = false ->
      wsUrl (newAgentService VITE_API_URL) = API_BASE_URL VITE_API_URL)
  /\ (VITE_API_URL = None \/ VITE_API_URL = Some "" ->
      wsUrl (newAgentService VITE_API_URL) = "ws://localhost:8000").
Proof.
  unfold createWebSocket, newAgentService. cbn [wsUrl baseUrl].
  split; [|split; [|split]].
  - intros ->. rewrite replace_prefix. split; [done|].
    by rewrite !append_assoc.
  - intros before Hnone ->.
    pose proof (replace_first "htt" _ "ws" before rest Hnone) as Hfirst.
    change ("htt" +:+ "p") with "http" in Hfirst. rewrite Hfirst.
    split; [done|]. by rewrite !append_assoc.
  - apply replace_absent.
  - by intros [->| ->].
Qed.

Lemma wsUrl_from_base_url_witness :
  createWebSocket (newAgentService (Some "ftp://mirror/http/https"))
    "client-1-debate"
  = "ftp://mirror/ws/https/ws/client-1-debate".
Proof.
  assert (Hnone : includes "http" ("ftp://mirror/" +:+ "htt") = false)
    by (vm_compute; reflexivity).
  assert (Hbase : API_BASE_URL (Some "ftp://mirror/http/https")
                  = "ftp://mirror/" +:+ "http" +:+ "/https")
    by (vm_compute; reflexivity).
  rewrite (proj2 (proj1 (proj2 (wsUrl_from_base_url
                                  (Some "ftp://mirror/http/https")
                                  "/https" "client-1-debate"))
                    "ftp://mirror/" Hnone Hbase)).
  reflexivity.
Defined.

(** ** The workflow widget *)

(** X18. The Start button of the widget is enabled exactly when the
    click handler passes its guards.  With the button disabled a click
    would only show an alert: nothing is posted and no cell is written.
    With the button enabled no alert is shown, the widget is set running
    at step 1 and the consulting request is posted first. *)
Theorem widget_start_guards
    (workflowPolicyFile : bool) (workflowPolitician workflowGoal : string)
    (replies : Widget.Replies) (st : Widget.State) :
  (Widget.startDisabled workflowPolicyFile workflowPolitician workflowGoal
   = true ->
   exists message,
     Widget.onClick workflowPolicyFile workflowPolitician workflowGoal replies
     = ([Widget.Alert message], Returned tt)
     /\ Widget.exec st [Widget.Alert message] = st)
  /\ (Widget.startDisabled workflowPolicyFile workflowPolitician workflowGoal
      = false ->
      exists rest,
        (Widget.onClick workflowPolicyFile workflowPolitician workflowGoal
           replies).1
        = [Widget.SetWorkflowRunning true; Widget.SetWorkflowStep 1;
           Widget.SetWorkflowStep 1; Widget.Post "CONSULTING"] ++ rest
        /\ Forall (fun a => forall message, a <> Widget.Alert message)
             (Widget.onClick workflowPolicyFile workflowPolitician
                workflowGoal replies).1).
Proof.
  unfold Widget.startDisabled, Widget.onClick. split.
  - intros Hdisabled. destruct workflowPolicyFile; simpl in *.
    + rewrite Hdisabled. by eexists.
    + by eexists.
  - intros Henabled. apply orb_false_iff in Henabled as [Henabled Hgoal].
    apply orb_false_iff in Henabled as [Hfile Hname].
    rewrite Hfile, Hname, Hgoal. simpl. unfold Widget.tryBlock.
    destruct replies as [[c| |] [s| |] [d| |] [a| |] [[v|]| |]]; simpl;
      (eexists; split; [reflexivity|]); repeat constructor; discriminate.
Qed.

Lemma widget_start_guards_witness :
  exists message,
    Widget.onClick true "" "Car curfew"
      (Widget.mkReplies Widget.Pending Widget.Pending Widget.Pending
         Widget.Pending Widget.Pending)
    = ([Widget.Alert message], Returned tt).
Proof.
  destruct (proj1 (widget_start_guards true "" "Car curfew"
                     (Widget.mkReplies Widget.Pending Widget.Pending
                        Widget.Pending Widget.Pending Widget.Pending)
                     (Widget.mkState false 0 agentFullOutputs_init))
              eq_refl)
    as (message & Hclick & _).
  exists message. exact Hclick.
Defined.

Lemma widget_click_enabled
    (workflowPolicyFile : bool) (workflowPolitician workflowGoal : string)
    (replies : Widget.Replies) :
  Widget.startDisabled workflowPolicyFile workflowPolitician workflowGoal
  = false ->
  Widget.onClick workflowPolicyFile workflowPolitician workflowGoal replies
  = match (Widget.tryBlock replies).2 with
    | Thrown _ =>
        ([Widget.SetWorkflowRunning true; Widget.SetWorkflowStep 1]
         ++ (Widget.tryBlock replies).1
         ++ [Widget.SetWorkflowRunning false; Widget.SetWorkflowStep 0],
         Returned tt)
    | c =>
        ([Widget.SetWorkflowRunning true; Widget.SetWorkflowStep 1]
         ++ (Widget.tryBlock replies).1, c)
    end.
Proof.
  unfold Widget.startDisabled, Widget.onClick. intros Henabled.
  apply orb_false_iff in Henabled as [Henabled Hgoal].
  apply orb_false_iff in Henabled as [Hfile Hname].
  rewrite Hfile, Hname, Hgoal. simpl.
  by destruct (Widget.tryBlock replies) as [body [[]| |]].
Qed.

(** X19. What the cards show while the widget waits for an answer: the
    widget is running, the step number is that of the agent asked, the
    cards of the earlier agents are completed and hold the outputs of
    this run, the cards of the later agents are pending and still hold
    what they held before the run, and the card of the agent asked is
    running - except the Mapbox card, which is already shown completed
    while its request is pending and is never shown running. *)
Theorem widget_cards_while_awaiting
    (workflowPolicyFile : bool) (workflowPolitician workflowGoal : string)
    (replies : Widget.Replies) (st0 : Widget.State) (i : nat)
    (card : Widget.Card) :
  Widget.startDisabled workflowPolicyFile workflowPolitician workflowGoal
  = false ->
  (Widget.onClick workflowPolicyFile workflowPolitician workflowGoal
     replies).1 !! i
  = Some (Widget.Post (Widget.agent_type card)) ->
  let st := Widget.exec st0
              (take (S i)
                 (Widget.onClick workflowPolicyFile workflowPolitician
                    workflowGoal replies).1) in
  Widget.cardsShown st = true
  /\ Widget.workflowStep st = Widget.stepNumber card
  /\ (forall c,
        Widget.cardStatus c (Widget.workflowStep st)
        = if Nat.ltb (Widget.stepNumber c) (Widget.stepNumber card)
          then Widget.CardCompleted
          else if Nat.eqb (Widget.stepNumber c) (Widget.stepNumber card)
          then match c with
               | Widget.MapboxCard => Widget.CardCompleted
               | _ => Widget.CardRunning
               end
          else Widget.CardPending)
  /\ (forall n, Widget.cardStatus Widget.MapboxCard n <> Widget.CardRunning)
  /\ (forall c, Widget.stepNumber c < Widget.stepNumber card ->
        is_Some (Widget.recorded replies c)
        /\ Widget.agentFullOutputs st !! Widget.kind c
           = Widget.recorded replies c)
  /\ (forall c, Widget.stepNumber card <= Widget.stepNumber c ->
        Widget.agentFullOutputs st !! Widget.kind c
        = Widget.agentFullOutputs st0 !! Widget.kind c).
Proof.
  intros Henabled Hi. cbv zeta.
  assert (Hmapbox : forall n,
            Widget.cardStatus Widget.MapboxCard n <> Widget.CardRunning).
  { intros n. unfold Widget.cardStatus.
    destruct (Nat.leb 5 n) eqn:Hle; [done|].
    destruct (Nat.eqb n 5) eqn:Heq; [|done].
    apply Nat.eqb_eq in Heq. apply Nat.leb_gt in Hle. lia. }
  rewrite (widget_click_enabled _ _ _ _ Henabled) in Hi |- *.
  unfold Widget.tryBlock, Widget.cardsShown in *.
  destruct st0 as [running0 step0 outputs0].
  destruct replies as [c s d a v];
    (destruct c as [co| |];
     [destruct s as [so| |];
      [destruct d as [do| |];
       [destruct a as [ao| |];
        [destruct v as [[vo|]| |] | ..] | ..] | ..] | ..]);
    cbn [Widget.request Widget.consultingReply Widget.simulationReply
         Widget.debateReply Widget.aggregatorReply Widget.visualizationReply
         fst snd app] in Hi |- *;
    do 20 (destruct i as [|i];
           [cbn in Hi; try discriminate Hi;
            injection Hi as Hi; destruct card; try discriminate Hi;
            (split; [reflexivity|]); (split; [reflexivity|]);
            (split; [by intros []|]); (split; [exact Hmapbox|]);
            (split; intros [] Hc; cbn in Hc; try lia;
               cbn; unfold setAgentFullOutputs; by simplify_map_eq)
           |cbn in Hi]);
    discriminate Hi.
Qed.

Lemma widget_cards_while_awaiting_witness :
  Widget.cardStatus Widget.MapboxCard
    (Widget.workflowStep
       (Widget.exec (Widget.mkState false 0 agentFullOutputs_init)
          (take 16
             (Widget.onClick true "Mayor Johnson" "Car curfew"
                (Widget.mkReplies (Widget.Replied "c") (Widget.Replied "s")
                   (Widget.Replied "d") (Widget.Replied "a")
                   Widget.Pending)).1)))
  = Widget.CardCompleted.
Proof.
  destruct (widget_cards_while_awaiting true "Mayor Johnson" "Car curfew"
              (Widget.mkReplies (Widget.Replied "c") (Widget.Replied "s")
                 (Widget.Replied "d") (Widget.Replied "a") Widget.Pending)
              (Widget.mkState false 0 agentFullOutputs_init) 15
              Widget.MapboxCard eq_refl eq_refl)
    as (_ & _ & Hcards & _).
  rewrite (Hcards Widget.MapboxCard). reflexivity.
Defined.



(** ** Starting a simulation *)

(** X21. [startSimulation] without an uploaded document only alerts: no
    record is created and no simulation becomes the running one.  With a
    document it stores a new record with status ['PENDING'], the city of
    the page and no results, and makes ['sim-' + Date.now()] the running
    simulation; when no stored simulation has that id yet, [get] of the
    running simulation resolves with the new record.  The alert for a
    failed start is never shown. *)
Theorem startSimulation_creates_pending
    (uploadedPolicyDoc : option string) (city uploadedAt : string) (now : N)
    (createdAt : string) (storage : list JsObject) :
  let started := startSimulation uploadedPolicyDoc city uploadedAt now
                   createdAt storage in
  alerted started <> "Failed to start simulation"
  /\ (uploadedPolicyDoc = None ->
      simulationsStorage started = storage
      /\ runningSimulation started = None)
  /\ (forall filename, uploadedPolicyDoc = Some filename ->
      exists record,
        simulationsStorage started = storage ++ [record]
        /\ runningSimulation started = Some (JStr (generated_id "sim-" now))
        /\ record !! "id" = Some (JStr (generated_id "sim-" now))
        /\ record !! "status" = Some (JStr "PENDING")
        /\ record !! "city" = Some (JStr city)
        /\ record !! "results" = Some JNull
        /\ (id_present (generated_id "sim-" now) storage = false ->
            simulationsService_get (generated_id "sim-" now)
              (simulationsStorage started)
            = Resolved (Some record))).
Proof.
  cbv zeta. unfold startSimulation, simulationsService_create.
  destruct uploadedPolicyDoc as [filename|]; cbn [alerted simulationsStorage
    runningSimulation]; (split; [discriminate|]); (split; [done|]).
  - intros ? [= <-].
    set (record := newSimulation now createdAt
                     (simulationData city filename uploadedAt)).
    assert (Hid : record !! "id" = Some (JStr (generated_id "sim-" now))).
    { unfold record. rewrite newSimulation_id. unfold stored_id.
      by unfold simulationData; simplify_map_eq. }
    exists record. split; [done|]. split; [done|]. split; [done|].
    split; [|split; [|split]].
    + unfold record, newSimulation. by simplify_map_eq.
    + unfold record, newSimulation. rewrite !lookup_insert_ne by done.
      rewrite spread_other by done. unfold simulationData.
      by simplify_map_eq.
    + unfold record, newSimulation. by simplify_map_eq.
    + intros Hfresh. unfold simulationsService_get, id_present in *.
      rewrite find_absent by done. simpl.
      by rewrite (proj2 (id_is_spec _ _) Hid).
  - intros filename [=].
Qed.

Lemma startSimulation_creates_pending_witness :
  runningSimulation
    (startSimulation (Some "curfew.pdf") "San Francisco, CA"
       "2023-11-14T22:13:19.000Z" 1700000000000 "2023-11-14T22:13:20.000Z" [])
  = Some (JStr "sim-1700000000000")
  /\ simulationsStorage
       (startSimulation None "San Francisco, CA" "2023-11-14T22:13:19.000Z"
          1700000000000 "2023-11-14T22:13:20.000Z" sample_agents)
     = sample_agents.
Proof.
  split.
  - destruct (proj2 (proj2 (startSimulation_creates_pending
                              (Some "curfew.pdf") "San Francisco, CA"
                              "2023-11-14T22:13:19.000Z" 1700000000000
                              "2023-11-14T22:13:20.000Z" []))
                "curfew.pdf" eq_refl)
      as (record & _ & Hrunning & _).
    rewrite Hrunning. vm_compute. reflexivity.
  - exact (proj1 (proj1 (proj2 (startSimulation_creates_pending
                                  None "San Francisco, CA"
                                  "2023-11-14T22:13:19.000Z" 1700000000000
                                  "2023-11-14T22:13:20.000Z" sample_agents))
                    eq_refl)).
Defined.

(** ** Workflow runner: several perspectives *)

Lemma executeStep_output (cid : string) (s : WorkflowStep) (request : JsVal)
    (env : list Connection) (st : State) :
  output (step_state
            (steps (exec st (effects (executeStep cid s request env)))) s)
  = output (step_state (steps st) s)
    +:+ concat_all (tokens_of (delivered (hd silent_connection env))).
Proof.
  rewrite executeStep_unfold. cbn [effects]. rewrite exec_app.
  set (st1 := exec st _).
  assert (H1 : output (step_state (steps st1) s)
               = output (step_state (steps st) s)).
  { unfold st1. simpl. unfold updateStepStatus.
    by rewrite step_state_with_eq. }
  destruct (hd silent_connection env) as [exception|session].
  - simpl. by rewrite append_nil_r.
  - cbn [streamed_effects delivered].
    by rewrite exec_opening, exec_app, settle_output, deliver_output, H1.
Qed.

Lemma concat_all_app (l k : list string) :
  concat_all (l ++ k) = concat_all l +:+ concat_all k.
Proof.
  induction l as [|x l IH]; [done|].
  cbn [app]. change (concat_all (x :: ?m)) with (x +:+ concat_all m).
  by rewrite IH, append_assoc.
Qed.

(** The simulation executions of a run, one per perspective: the output
    grows by the tokens of all of them, the result is that of the last. *)
Lemma perspectives_chain (inp : Inputs) (l : list string)
    (env : list Connection) (st : State) :
  chain_outcome (length l) env = Returned tt ->
  let after :=
    exec st (chain_effects (clientId inp)
               (map (fun perspective =>
                       (simulation, simulationRequest inp perspective)) l)
               env) in
  output (step_state (steps after) simulation)
  = output (step_state (steps st) simulation)
    +:+ concat_all
          (flat_map (fun c => tokens_of (delivered c)) (take (length l) env))
  /\ (l <> [] ->
      result (step_state (steps after) simulation)
      = left_result (connection (length l - 1) env)).
Proof.
  revert env st. induction l as [|p l IH]; intros env st Hall.
  - cbv zeta. cbn [map chain_effects length]. rewrite take_0.
    cbn [flat_map concat_all foldr exec foldl]. by rewrite append_nil_r.
  - cbv zeta. cbn [map chain_effects length] in *. cbn [chain_outcome] in Hall.
    destruct (settlement (hd silent_connection env)) as [r| |] eqn:Hset;
      try discriminate.
    rewrite exec_app.
    destruct (IH (tl env)
                (exec st (effects (executeStep (clientId inp) simulation
                                     (simulationRequest inp p) env))) Hall)
      as [Hout Hres].
    split.
    + rewrite Hout, executeStep_output, append_assoc. f_equal.
      destruct env as [|c env]; simpl.
      * rewrite take_nil. simpl. done.
      * by rewrite concat_all_app.
    + intros _. destruct l as [|q l].
      * cbn [map chain_effects exec foldl length Nat.sub].
        destruct (executeStep_state (clientId inp) simulation
                    (simulationRequest inp p) env st)
          as (_ & _ & _ & Hr & _).
        rewrite Hr. unfold connection. by rewrite drop_0.
      * rewrite Hres by done.
        replace (S (length (q :: l)) - 1) with (S (length (q :: l) - 1))
          by (cbn [length]; lia).
        by rewrite connection_S.
Qed.

Lemma chain_outcome_prefix (n m : nat) (env : list Connection) :
  chain_outcome (n + m) env = Returned tt -> chain_outcome n env = Returned tt.
Proof.
  revert env. induction n as [|n IH]; intros env Hall; [done|].
  simpl in *. destruct (settlement (hd silent_connection env)); try done.
  by apply IH.
Qed.

Lemma chain_last_complete (n : nat) (env : list Connection) :
  n <> 0 -> chain_outcome n env = Returned tt ->
  exists r, settlement (connection (n - 1) env) = Returned r.
Proof.
  revert env. induction n as [|n IH]; intros env Hne Hall; [done|].
  simpl in Hall.
  destruct (settlement (hd silent_connection env)) as [r| |] eqn:Hc;
    try discriminate.
  destruct n as [|n].
  - exists r. unfold connection. simpl. by rewrite drop_0.
  - destruct (IH (tl env) ltac:(done) Hall) as [r' Hr'].
    exists r'.
    replace (S (S n) - 1) with (S (S n - 1)) by lia.
    by rewrite connection_S.
Qed.

Lemma left_result_returned (c : Connection) (r : option JsVal) :
  settlement c = Returned r -> left_result c = r.
Proof.
  destruct c as [exception|session]; [discriminate|]. simpl.
  destruct (closing session); try discriminate. by intros [= ->].
Qed.

(** X22. With several perspectives selected the simulation step is
    executed once per perspective into the same cell: after a run in
    which every connection completes, the output of the step is what it
    held before followed by the tokens of all its executions in order,
    while its result is the one the 'complete' message of the last
    perspective carried (none when it carried none) - the results of the
    earlier perspectives are overwritten. *)
Theorem simulation_keeps_last_perspective
    (inp : Inputs) (env : list Connection) (st : State) :
  falsy (politicianName inp) || falsy (policyGoal inp) || falsy (city inp)
    = false ->
  chain_outcome (length (plan inp)) env = Returned tt ->
  simulationPerspective inp <> [] ->
  let final := exec st (effects (runWorkflow inp env)) in
  let executions := length (simulationPerspective inp) in
  output (step_state (steps final) simulation)
  = output (step_state (steps st) simulation)
    +:+ concat_all
          (flat_map (fun c => tokens_of (delivered c))
             (take executions (drop 1 env)))
  /\ exists r,
       settlement (connection executions env) = Returned r
       /\ result (step_state (steps final) simulation) = r.
Proof.
  intros Hvalid Hall Hsome. cbv zeta.
  destruct (runWorkflow_final inp env st Hvalid) as (-> & _).
  set (sims := map (fun perspective =>
                      (simulation, simulationRequest inp perspective))
                 (simulationPerspective inp)).
  assert (Hplan : plan inp
                  = [(consulting, consultingRequest inp)]
                    ++ sims
                    ++ [(debate, debateRequest inp);
                        (aggregator, aggregatorRequest inp)]) by done.
  assert (Hlen : length sims = length (simulationPerspective inp))
    by apply length_map.
  rewrite Hplan in Hall |- *.
  rewrite chain_app, exec_app.
  cbn [length app chain_outcome] in Hall |- *.
  destruct (settlement (hd silent_connection env)) as [r0| |] eqn:Hset;
    try discriminate.
  rewrite drop_S_tl, drop_0 in *.
  set (st1 := exec (reduce st (SetIsRunning true))
                (chain_effects (clientId inp)
                   [(consulting, consultingRequest inp)] env)).
  assert (Hst1 : step_state (steps st1) simulation
                 = step_state (steps st) simulation).
  { unfold st1. rewrite chain_other; [done|].
    simpl. rewrite list_elem_of_singleton. done. }
  rewrite chain_app, exec_app.
  assert (Hsims : chain_outcome (length sims) (tl env) = Returned tt).
  { rewrite length_app in Hall. by eapply chain_outcome_prefix. }
  rewrite Hsims.
  rewrite chain_other.
  2:{ simpl. rewrite !not_elem_of_cons. split; [done|]. split; [done|].
      apply not_elem_of_nil. }
  destruct (perspectives_chain inp (simulationPerspective inp) (tl env) st1
              ltac:(by rewrite <- Hlen)) as [Hout Hres].
  fold sims in Hout, Hres.
  rewrite Hout, Hst1. split; [done|].
  rewrite Hres by done.
  assert (Hlast : connection (length (simulationPerspective inp) - 1) (tl env)
                  = connection (length (simulationPerspective inp)) env).
  { destruct (simulationPerspective inp) as [|p l]; [done|]. cbn [length].
    replace (S (length l) - 1) with (length l) by lia.
    by rewrite connection_S. }
  rewrite Hlast.
  assert (Hcomplete : exists r,
            settlement (connection (length (simulationPerspective inp)) env)
            = Returned r).
  { rewrite <- Hlast, <- Hlen. apply chain_last_complete; [|done].
    rewrite Hlen. by destruct (simulationPerspective inp). }
  destruct Hcomplete as [r Hr]. exists r. split; [done|].
  by apply left_result_returned.
Qed.

Lemma simulation_keeps_last_perspective_witness :
  result
    (step_state
       (steps (exec initialState
                 (effects (runWorkflow (sample_inputs ["economic"; "social"])
                             [completes ["a"] JNull;
                              completes ["b"] (JStr "economic result");
                              completes ["c"] (JStr "social result");
                              completes [] JNull;
                              completes ["report"] JNull]))))
       simulation)
  = Some (JStr "social result").
Proof.
  destruct (simulation_keeps_last_perspective
              (sample_inputs ["economic"; "social"])
              [completes ["a"] JNull;
               completes ["b"] (JStr "economic result");
               completes ["c"] (JStr "social result");
               completes [] JNull; completes ["report"] JNull]
              initialState eq_refl eq_refl)
    as (_ & r & Hset & Hresult); [discriminate|].
  rewrite Hresult. injection Hset as <-. reflexivity.
Defined.
